(** * NovAtel OEM7 serial tools: a shallow embedding and its properties

    The three tools under [src/novatel_oem7_driver/tools] ([gps_init.py],
    [gps_run.py], [usb_gps_monitor.py]) are embedded as Rocq functions.

    - Python [str] is a list of code points, [bytes]/[bytearray] a list of
      bytes.
    - Everything that touches the operating system runs in a state-and-
      exception monad over an explicit [world]: a clock, the device nodes,
      the descriptor table, a log of the system calls issued and the lines
      printed on standard output.
    - [logging] calls have no effect on control flow and are left out. *)

From Stdlib Require Import Strings.String Strings.Byte DecimalString.
From Stdlib Require Import ZArith NArith List Bool Lia.
From Stdlib Require Import Sorting.Sorted Sorting.Permutation.
Import ListNotations.

Local Open Scope Z_scope.

(* ================================================================== *)
(** * Python values and the library functions the tools call *)
(* ================================================================== *)

Module Py.

(** [str]: a sequence of Unicode code points. *)
Definition pystr := list N.

(** [bytes] and [bytearray]. *)
Definition pybytes := list byte.

(** An ASCII literal as a [str] and as a [bytes]. *)
Definition str (s : string) : pystr := map Byte.to_N (list_byte_of_string s).
Definition bytes_lit (s : string) : pybytes := list_byte_of_string s.

Definition LF : byte := x0a.
Definition CR : byte := x0d.
Definition CRLF : pystr := [13%N; 10%N].

Definition is_empty {A} (l : list A) : bool :=
  match l with [] => true | _ => false end.

Fixpoint list_eqb {A} (eqb : A -> A -> bool) (a b : list A) : bool :=
  match a, b with
  | [], [] => true
  | x :: a', y :: b' => eqb x y && list_eqb eqb a' b'
  | _, _ => false
  end.

Definition str_eqb : pystr -> pystr -> bool := list_eqb N.eqb.

(** [s.startswith(prefix)] *)
Fixpoint startswith {A} (eqb : A -> A -> bool) (s prefix : list A)
  {struct prefix} : bool :=
  match prefix, s with
  | [], _ => true
  | p :: prefix', c :: s' => eqb c p && startswith eqb s' prefix'
  | _ :: _, [] => false
  end.

Definition bytes_startswith : pybytes -> pybytes -> bool := startswith Byte.eqb.
Definition str_startswith : pystr -> pystr -> bool := startswith N.eqb.

(** [b in bs] for a single byte [b]. *)
Definition bytes_contains (b : byte) (bs : pybytes) : bool :=
  existsb (Byte.eqb b) bs.

Definition str_contains (c : N) (s : pystr) : bool := existsb (N.eqb c) s.

(** ** [splitlines]

    A line ends at a line-break character; a carriage return directly
    followed by a line feed is one boundary.  The breaks are dropped and no
    empty line is produced after a final break. *)

Definition cons_first {A} (c : A) (ls : list (list A)) : list (list A) :=
  match ls with
  | [] => [[c]]
  | l :: ls' => (c :: l) :: ls'
  end.

Section Splitlines.
Context {A : Type}.
Variable is_break : A -> bool.
Variable is_cr : A -> bool.
Variable is_lf : A -> bool.

Fixpoint splitlines (s : list A) : list (list A) :=
  match s with
  | [] => []
  | c :: rest =>
      if is_cr c then
        match rest with
        | d :: rest' => if is_lf d then [] :: splitlines rest'
                        else [] :: splitlines rest
        | [] => [[]]
        end
      else if is_break c then [] :: splitlines rest
      else cons_first c (splitlines rest)
  end.
End Splitlines.

(** [bytes.splitlines()]: the breaks are [\n], [\r] and [\r\n]. *)
Definition bytes_splitlines : pybytes -> list pybytes :=
  splitlines (fun b => Byte.eqb b LF || Byte.eqb b CR)
             (fun b => Byte.eqb b CR) (fun b => Byte.eqb b LF).

(** [str.splitlines()]: the Unicode line boundaries. *)
Definition is_str_linebreak (c : N) : bool :=
  existsb (N.eqb c)
    [0x0A; 0x0B; 0x0C; 0x0D; 0x1C; 0x1D; 0x1E; 0x85; 0x2028; 0x2029]%N.

Definition str_splitlines : pystr -> list pystr :=
  splitlines is_str_linebreak (N.eqb 13) (N.eqb 10).

(** ** [str.strip()] *)

Definition isspace (c : N) : bool :=
  ((0x09 <=? c) && (c <=? 0x0D) || (0x1C <=? c) && (c <=? 0x20)
   || (c =? 0x85) || (c =? 0xA0) || (c =? 0x1680)
   || (0x2000 <=? c) && (c <=? 0x200A)
   || (c =? 0x2028) || (c =? 0x2029) || (c =? 0x202F) || (c =? 0x205F)
   || (c =? 0x3000))%N.

Fixpoint lstrip (s : pystr) : pystr :=
  match s with
  | c :: s' => if isspace c then lstrip s' else s
  | [] => []
  end.

Definition rstrip (s : pystr) : pystr := rev (lstrip (rev s)).
Definition strip (s : pystr) : pystr := rstrip (lstrip s).

(** ** [str.find], [str.rfind], [str.split(sep, 1)[0]] and slices *)

Fixpoint find (c : N) (s : pystr) : Z :=
  match s with
  | [] => -1
  | d :: s' => if N.eqb d c then 0
               else let i := find c s' in if i <? 0 then -1 else i + 1
  end.

Definition rfind (c : N) (s : pystr) : Z :=
  let i := find c (rev s) in
  if i <? 0 then -1 else Z.of_nat (length s) - 1 - i.

Fixpoint before_first (c : N) (s : pystr) : pystr :=
  match s with
  | [] => []
  | d :: s' => if N.eqb d c then [] else d :: before_first c s'
  end.

(** [s[i:j]] for [0 <= i]. *)
Definition slice (s : pystr) (i j : Z) : pystr :=
  firstn (Z.to_nat (j - i)) (skipn (Z.to_nat i) s).

(** ** Codecs *)

Definition REPLACEMENT : N := 0xFFFD%N.

(** [bs.decode("ascii", errors="replace")] *)
Definition decode_ascii_replace (bs : pybytes) : pystr :=
  map (fun b => if (Byte.to_N b <? 128)%N then Byte.to_N b else REPLACEMENT) bs.

Definition is_ascii (c : N) : bool := (c <? 128)%N.

Definition ascii_byte (c : N) : list byte :=
  match Byte.of_N c with Some b => [b] | None => [] end.

(** [s.encode("ascii", errors="ignore")] *)
Definition encode_ascii_ignore (s : pystr) : pybytes :=
  flat_map (fun c => if is_ascii c then ascii_byte c else []) s.

(** [s.encode("ascii")]: [None] stands for [UnicodeEncodeError]. *)
Definition encode_ascii_strict (s : pystr) : option pybytes :=
  if forallb is_ascii s then Some (flat_map ascii_byte s) else None.

(** ** [sorted] on a list of [str] *)

Fixpoint str_leb (a b : pystr) : bool :=
  match a, b with
  | [], _ => true
  | _ :: _, [] => false
  | x :: a', y :: b' =>
      if (x <? y)%N then true
      else if (y <? x)%N then false
      else str_leb a' b'
  end.

Fixpoint insert_sorted (x : pystr) (l : list pystr) : list pystr :=
  match l with
  | [] => [x]
  | y :: l' => if str_leb x y then x :: l else y :: insert_sorted x l'
  end.

Definition sorted (l : list pystr) : list pystr :=
  fold_right insert_sorted [] l.

(** ** [glob.glob] on a pattern of literal characters and [*]

    [*] stands for any run of characters other than [/]. *)

Definition STAR : N := 42%N.
Definition SLASH : N := 47%N.

Fixpoint glob_match (pat s : pystr) : bool :=
  match pat with
  | [] => is_empty s
  | p :: pat' =>
      if N.eqb p STAR then
        (fix star (s : pystr) : bool :=
           glob_match pat' s
           || match s with
              | c :: s' => negb (N.eqb c SLASH) && star s'
              | [] => false
              end) s
      else
        match s with
        | c :: s' => N.eqb c p && glob_match pat' s'
        | [] => false
        end
  end.

End Py.

(* ================================================================== *)
(** * The operating system as seen by the tools *)
(* ================================================================== *)

Module OS.
Import Py.

(** Exceptions the tools raise or handle.  [KeyboardInterrupt] is the only
    one that is not an [Exception]. *)
Inductive exn :=
| OSError
| TermiosError
| ValueError (unsupported_baud : Z)
| UnicodeEncodeError
| KeyboardInterrupt.

Definition is_Exception (e : exn) : bool :=
  match e with KeyboardInterrupt => false | _ => true end.
Definition is_OSError (e : exn) : bool :=
  match e with OSError => true | _ => false end.
Definition is_termios_error (e : exn) : bool :=
  match e with TermiosError => true | _ => false end.
Definition is_KeyboardInterrupt (e : exn) : bool :=
  match e with KeyboardInterrupt => true | _ => false end.

(** ** [termios] constants (Linux values) *)

Definition B4800 : Z := 12.
Definition B9600 : Z := 13.
Definition B19200 : Z := 14.
Definition B38400 : Z := 15.
Definition B57600 : Z := 4097.
Definition B115200 : Z := 4098.
Definition IGNPAR : Z := 4.
Definition CS8 : Z := 48.
Definition CREAD : Z := 128.
Definition CLOCAL : Z := 2048.

(** The list [tcgetattr] returns: flags, speeds and the two control
    characters the tools set. *)
Record termios_attrs := {
  iflag : Z; oflag : Z; cflag : Z; lflag : Z;
  ispeed : Z; ospeed : Z;
  VMIN : Z; VTIME : Z
}.

Definition default_attrs : termios_attrs :=
  {| iflag := 0; oflag := 0; cflag := 0; lflag := 0;
     ispeed := B9600; ospeed := B9600; VMIN := 1; VTIME := 0 |}.

(** ** Devices

    What a read on the descriptor yields once the line has been readable:
    a chunk of bytes, or a failing read. *)
Inductive read_result :=
| Data (chunk : pybytes)
| ReadFails.

(** One [os.read] result and the clock value from which it is available.
    Time is counted in milliseconds. *)
Record event := { at_time : Z; payload : read_result }.

(** A device node: whether it can be opened, when the line-discipline calls
    and the writes succeed, the traffic it delivers at a line speed, and the
    traffic it adds in reply to a write. *)
Record device := {
  dev_openable : bool;
  dev_termios_ok : Z -> bool;
  dev_write_ok : Z -> bool;
  dev_feed : Z -> list event;
  dev_reply : Z -> pybytes -> Z -> list event
}.

Record open_file := {
  of_dev : device;
  of_attrs : termios_attrs;
  of_nonblock : bool;
  of_pending : list event
}.

(** The system calls the log keeps. *)
Inductive syscall :=
| EvOpen (path : pystr) (result : option Z)
| EvClose (fd : Z)
| EvWrite (fd : Z) (data : pybytes)
| EvFlush (fd : Z).

Record world := {
  now : Z;
  devices : list (pystr * device);
  fdtab : list (Z * open_file);
  next_fd : Z;
  trace : list syscall;
  stdout : list pystr;
  interrupt_at : option Z
}.

Definition set_now (t : Z) (w : world) : world :=
  {| now := t; devices := devices w; fdtab := fdtab w; next_fd := next_fd w;
     trace := trace w; stdout := stdout w; interrupt_at := interrupt_at w |}.
Definition set_fdtab (tab : list (Z * open_file)) (w : world) : world :=
  {| now := now w; devices := devices w; fdtab := tab; next_fd := next_fd w;
     trace := trace w; stdout := stdout w; interrupt_at := interrupt_at w |}.
Definition set_next_fd (n : Z) (w : world) : world :=
  {| now := now w; devices := devices w; fdtab := fdtab w; next_fd := n;
     trace := trace w; stdout := stdout w; interrupt_at := interrupt_at w |}.
Definition log (ev : syscall) (w : world) : world :=
  {| now := now w; devices := devices w; fdtab := fdtab w; next_fd := next_fd w;
     trace := trace w ++ [ev]; stdout := stdout w;
     interrupt_at := interrupt_at w |}.
Definition put_line (line : pystr) (w : world) : world :=
  {| now := now w; devices := devices w; fdtab := fdtab w; next_fd := next_fd w;
     trace := trace w; stdout := stdout w ++ [line];
     interrupt_at := interrupt_at w |}.
Definition clear_interrupt (w : world) : world :=
  {| now := now w; devices := devices w; fdtab := fdtab w; next_fd := next_fd w;
     trace := trace w; stdout := stdout w; interrupt_at := None |}.

Fixpoint lookup {A B} (eqb : A -> A -> bool) (k : A) (l : list (A * B))
  : option B :=
  match l with
  | [] => None
  | (k', v) :: l' => if eqb k k' then Some v else lookup eqb k l'
  end.

Fixpoint update {B} (k : Z) (v : B) (l : list (Z * B)) : list (Z * B) :=
  match l with
  | [] => []
  | (k', v') :: l' => if Z.eqb k k' then (k, v) :: l'
                      else (k', v') :: update k v l'
  end.

Fixpoint remove {B} (k : Z) (l : list (Z * B)) : list (Z * B) :=
  match l with
  | [] => []
  | (k', v') :: l' => if Z.eqb k k' then l' else (k', v') :: remove k l'
  end.

Definition get_fd (fd : Z) (w : world) : option open_file :=
  lookup Z.eqb fd (fdtab w).

Definition fd_pending (fd : Z) (w : world) : list event :=
  match get_fd fd w with Some f => of_pending f | None => [] end.

Definition with_pending (p : list event) (f : open_file) : open_file :=
  {| of_dev := of_dev f; of_attrs := of_attrs f;
     of_nonblock := of_nonblock f; of_pending := p |}.
Definition with_attrs (a : termios_attrs) (f : open_file) : open_file :=
  {| of_dev := of_dev f; of_attrs := a;
     of_nonblock := of_nonblock f; of_pending := of_pending f |}.
Definition with_nonblock (b : bool) (f : open_file) : open_file :=
  {| of_dev := of_dev f; of_attrs := of_attrs f;
     of_nonblock := b; of_pending := of_pending f |}.

(** ** The monad: a state transformer with exceptions

    [Diverge] is the answer of a loop that was not given enough steps. *)
Inductive outcome (A : Type) :=
| Ret (a : A)
| Raise (e : exn)
| Diverge.
Arguments Ret {A} a.
Arguments Raise {A} e.
Arguments Diverge {A}.

Definition io (A : Type) := world -> outcome A * world.

Definition ret {A} (a : A) : io A := fun w => (Ret a, w).
Definition raise {A} (e : exn) : io A := fun w => (Raise e, w).
Definition diverge {A} : io A := fun w => (Diverge, w).

Definition bind {A B} (m : io A) (k : A -> io B) : io B :=
  fun w =>
    match m w with
    | (Ret a, w') => k a w'
    | (Raise e, w') => (Raise e, w')
    | (Diverge, w') => (Diverge, w')
    end.

(** [try: m  except <catches>: handler] *)
Definition try_except {A} (m : io A) (catches : exn -> bool)
  (handler : exn -> io A) : io A :=
  fun w =>
    match m w with
    | (Raise e, w') => if catches e then handler e w' else (Raise e, w')
    | r => r
    end.

(** [try: m  finally: cleanup] *)
Definition try_finally {A} (m : io A) (cleanup : io unit) : io A :=
  fun w =>
    match m w with
    | (Diverge, w') => (Diverge, w')
    | (r, w') =>
        match cleanup w' with
        | (Ret _, w'') => (r, w'')
        | (Raise e, w'') => (Raise e, w'')
        | (Diverge, w'') => (Diverge, w'')
        end
    end.

Declare Scope io_scope.
Delimit Scope io_scope with io.
Notation "x <- m ;; k" := (bind m (fun x => k))
  (at level 100, m at next level, right associativity) : io_scope.
Notation "' pat <- m ;; k" := (bind m (fun x => match x with pat => k end))
  (at level 100, pat pattern, m at next level, right associativity) : io_scope.
Notation "m ;; k" := (bind m (fun _ => k))
  (at level 100, right associativity) : io_scope.
Local Open Scope io_scope.

(** [for x in xs: body x] *)
Fixpoint for_each {A} (xs : list A) (body : A -> io unit) : io unit :=
  match xs with
  | [] => ret tt
  | x :: xs' => body x ;; for_each xs' body
  end.

(** ** System calls *)

(** [time.time()] *)
Definition time_time : io Z := fun w => (Ret (now w), w).

(** A blocking call that would return at [t]: a pending interrupt that is
    due by then is delivered instead. *)
Definition block_until {A} (t : Z) (a : A) : io A :=
  fun w =>
    match interrupt_at w with
    | Some ti =>
        if ti <=? t
        then (Raise KeyboardInterrupt,
              clear_interrupt (set_now (Z.max (now w) ti) w))
        else (Ret a, set_now t w)
    | None => (Ret a, set_now t w)
    end.

(** [time.sleep(d)] *)
Definition time_sleep (d : Z) : io unit :=
  fun w => block_until (now w + d) tt w.

(** [fd in select.select([fd], [], [], timeout)[0]] *)
Definition select_select (fd : Z) (timeout : Z) : io bool :=
  fun w =>
    match get_fd fd w with
    | None => (Raise OSError, w)
    | Some f =>
        match of_pending f with
        | e :: _ =>
            if at_time e <=? now w + timeout
            then block_until (Z.max (now w) (at_time e)) true w
            else block_until (now w + timeout) false w
        | [] => block_until (now w + timeout) false w
        end
    end.

(** [os.read(fd, n)]: the next result if it has arrived; with nothing to
    read a non-blocking descriptor fails and a blocking one yields no
    bytes. *)
Definition os_read (fd : Z) (n : Z) : io pybytes :=
  fun w =>
    match get_fd fd w with
    | None => (Raise OSError, w)
    | Some f =>
        match of_pending f with
        | e :: rest =>
            if at_time e <=? now w then
              let w' := set_fdtab (update fd (with_pending rest f) (fdtab w)) w in
              match payload e with
              | Data chunk => (Ret chunk, w')
              | ReadFails => (Raise OSError, w')
              end
            else if of_nonblock f then (Raise OSError, w) else (Ret [], w)
        | [] => if of_nonblock f then (Raise OSError, w) else (Ret [], w)
        end
    end.

(** [os.write(fd, data)] *)
Definition os_write (fd : Z) (data : pybytes) : io unit :=
  fun w =>
    let w := log (EvWrite fd data) w in
    match get_fd fd w with
    | None => (Raise OSError, w)
    | Some f =>
        if dev_write_ok (of_dev f) (now w) then
          let reply := dev_reply (of_dev f) (ospeed (of_attrs f)) data (now w) in
          (Ret tt,
           set_fdtab (update fd (with_pending (of_pending f ++ reply) f)
                        (fdtab w)) w)
        else (Raise OSError, w)
    end.

(** [os.open(path, O_RDWR | O_NOCTTY | O_NONBLOCK)] *)
Definition os_open (path : pystr) : io Z :=
  fun w =>
    match lookup str_eqb path (devices w) with
    | Some dev =>
        if dev_openable dev then
          let fd := next_fd w in
          let f := {| of_dev := dev; of_attrs := default_attrs;
                      of_nonblock := true; of_pending := [] |} in
          (Ret fd,
           log (EvOpen path (Some fd))
             (set_next_fd (fd + 1) (set_fdtab ((fd, f) :: fdtab w) w)))
        else (Raise OSError, log (EvOpen path None) w)
    | None => (Raise OSError, log (EvOpen path None) w)
    end.

(** [os.close(fd)] *)
Definition os_close (fd : Z) : io unit :=
  fun w =>
    let w := log (EvClose fd) w in
    match get_fd fd w with
    | None => (Raise OSError, w)
    | Some _ => (Ret tt, set_fdtab (remove fd (fdtab w)) w)
    end.

Definition termios_call {A} (fd : Z) (k : open_file -> io A) : io A :=
  fun w =>
    match get_fd fd w with
    | None => (Raise TermiosError, w)
    | Some f =>
        if dev_termios_ok (of_dev f) (now w) then k f w
        else (Raise TermiosError, w)
    end.

(** [termios.tcgetattr(fd)] *)
Definition tcgetattr (fd : Z) : io termios_attrs :=
  termios_call fd (fun f => ret (of_attrs f)).

(** [termios.tcsetattr(fd, TCSANOW, attrs)]: from here on the descriptor
    carries the traffic of the device at the output speed. *)
Definition tcsetattr (fd : Z) (attrs : termios_attrs) : io unit :=
  termios_call fd (fun f w =>
    let f' := with_pending (dev_feed (of_dev f) (ospeed attrs))
                (with_attrs attrs f) in
    (Ret tt, set_fdtab (update fd f' (fdtab w)) w)).

(** What has arrived by [t] is dropped by a flush. *)
Fixpoint drop_arrived (t : Z) (p : list event) : list event :=
  match p with
  | e :: p' => if at_time e <=? t then drop_arrived t p' else p
  | [] => []
  end.

(** [termios.tcflush(fd, TCIOFLUSH)] and [termios.tcflush(fd, TCIFLUSH)] *)
Definition tcflush (fd : Z) : io unit :=
  fun w =>
    termios_call fd (fun f w =>
      (Ret tt,
       set_fdtab (update fd (with_pending (drop_arrived (now w) (of_pending f)) f)
                    (fdtab w)) w))
      (log (EvFlush fd) w).

(** [flags = fcntl.fcntl(fd, F_GETFL); fcntl.fcntl(fd, F_SETFL, flags & ~O_NONBLOCK)] *)
Definition fcntl_clear_nonblock (fd : Z) : io unit :=
  fun w =>
    match get_fd fd w with
    | None => (Raise OSError, w)
    | Some f => (Ret tt, set_fdtab (update fd (with_nonblock false f) (fdtab w)) w)
    end.

(** Iterations a polling loop on [fd] can make before [deadline]: one for
    each read result still to come and one for each clock tick left. *)
Definition poll_fuel (fd : Z) (deadline : Z) (w : world) : nat :=
  S (length (fd_pending fd w) + Z.to_nat (deadline - now w)).

(** [print(line, flush=True)] *)
Definition print (line : pystr) : io unit :=
  fun w => (Ret tt, put_line line w).

(** [glob.glob(pattern)]: the device nodes whose path matches, in directory
    order. *)
Definition glob_glob (pattern : pystr) : io (list pystr) :=
  fun w => (Ret (filter (glob_match pattern) (map fst (devices w))), w).

End OS.

(* ================================================================== *)
(** * [gps_init.py] *)
(* ================================================================== *)

Module GpsInit.
Import Py OS.
Local Open Scope io_scope.

Definition DEFAULT_PORT : pystr := str "/dev/ttyUSB1".
Definition DEFAULT_BAUD : Z := 115200.
Definition DEFAULT_TIMEOUT : Z := 1500.

Definition DASH : N := 45%N.
Definition HASH : N := 35%N.
Definition QUOTE : N := 34%N.

Section CommandFiles.
(** The text of each command file; [None] when [path.exists()] is false. *)
Variable read_text : pystr -> option pystr.

(** The body of the loop over the lines of a command file: the command the
    line contributes, if any. *)
Definition parse_command_line (raw_line : pystr) : option pystr :=
  let line := strip raw_line in
  if negb (str_startswith line [DASH]) then None
  else
    let line := if str_contains HASH line
                then strip (before_first HASH line) else line in
    if negb (str_startswith line [DASH]) then None
    else
      let first_quote := find QUOTE line in
      let last_quote := rfind QUOTE line in
      let command :=
        if negb (first_quote =? -1) && (first_quote <? last_quote)
        then strip (slice line (first_quote + 1) last_quote)
        else strip (skipn 1 line) in
      if is_empty command then None else Some command.

Definition parse_command_file (path : pystr) : list pystr :=
  match read_text path with
  | None => []
  | Some text =>
      fold_left
        (fun commands raw_line =>
           match parse_command_line raw_line with
           | Some command => commands ++ [command]
           | None => commands
           end)
        (str_splitlines text) []
  end.

Definition load_command_sequence (paths : list pystr) (extra : list pystr)
  : list pystr :=
  let sequence :=
    fold_left (fun sequence path => sequence ++ parse_command_file path)
      paths [] in
  let sequence := sequence ++ extra in
  (* Deduplicate consecutive duplicates while preserving order. *)
  fold_left
    (fun deduped cmd =>
       if is_empty deduped || negb (str_eqb (last deduped []) cmd)
       then deduped ++ [cmd]
       else deduped)
    sequence [].
End CommandFiles.

Definition baud_map : list (Z * Z) :=
  [ (115200, B115200); (57600, B57600); (38400, B38400);
    (19200, B19200); (9600, B9600); (4800, B4800) ].

Definition configure_port (fd : Z) (baud : Z) : io unit :=
  match lookup Z.eqb baud baud_map with
  | None => raise (ValueError baud)
  | Some baud_const =>
      attrs <- tcgetattr fd ;;
      let attrs :=
        {| iflag := IGNPAR; oflag := 0;
           cflag := Z.lor (Z.lor CS8 CLOCAL) CREAD;
           lflag := 0;
           ispeed := baud_const; ospeed := baud_const;
           VMIN := 0; VTIME := 20 |} in
      tcsetattr fd attrs ;;
      tcflush fd ;;
      fcntl_clear_nonblock fd
  end.

Definition open_serial (port : pystr) (baud : Z) : io Z :=
  fd <- os_open port ;;
  try_except (configure_port fd baud) is_Exception
    (fun e => os_close fd ;; raise e) ;;
  ret fd.

(** The [while time.time() < deadline] loop of [read_response]; it yields
    the buffer.  One unit of [fuel] is one iteration. *)
Fixpoint read_response_loop (fuel : nat) (fd : Z) (deadline : Z)
  (buffer : pybytes) : io pybytes :=
  t <- time_time ;;
  if t <? deadline then
    match fuel with
    | O => diverge
    | S fuel' =>
        ready <- select_select fd 100 ;;
        if negb ready then read_response_loop fuel' fd deadline buffer
        else
          chunk <- os_read fd 4096 ;;
          if is_empty chunk then read_response_loop fuel' fd deadline buffer
          else
            let buffer := buffer ++ chunk in
            if bytes_contains LF chunk || bytes_contains CR chunk
            then ret buffer
            else read_response_loop fuel' fd deadline buffer
    end
  else ret buffer.

Definition read_response (fd : Z) (timeout : Z) : io pystr :=
  t <- time_time ;;
  let deadline := t + timeout in
  buffer <- (fun w => read_response_loop (poll_fuel fd deadline w)
                        fd deadline [] w) ;;
  if is_empty buffer then ret []
  else ret (strip (decode_ascii_replace buffer)).

Definition send_commands (fd : Z) (commands : list pystr) (timeout : Z)
  : io unit :=
  for_each commands (fun cmd =>
    let payload := encode_ascii_ignore (cmd ++ CRLF) in
    os_write fd payload ;;
    _ <- read_response fd timeout ;;
    time_sleep 100).

(** The parsed command line. *)
Record args := {
  port : pystr;
  baud : Z;
  timeout : Z;
  command_files : list pystr;
  extra_commands : list pystr;
  list_only : bool
}.

Definition format_02d (n : nat) : pystr :=
  let digits := str (DecimalString.NilZero.string_of_uint (Nat.to_uint n)) in
  if (length digits <? 2)%nat then str "0" ++ digits else digits.

Definition enumerate {A} (l : list A) : list (nat * A) :=
  combine (seq 1 (length l)) l.

Section Main.
Variable read_text : pystr -> option pystr.
(** [build_default_command_files(script_path)] *)
Variable default_files : list pystr.

Definition main (a : args) : io Z :=
  let command_files := default_files ++ command_files a in
  let commands :=
    load_command_sequence read_text command_files (extra_commands a) in
  if is_empty commands then ret 1
  else if list_only a then
    for_each (enumerate commands) (fun '(idx, cmd) =>
      print (str "[" ++ format_02d idx ++ str "] " ++ cmd)) ;;
    ret 0
  else
    r <- try_except (fd <- open_serial (port a) (baud a) ;; ret (inl fd))
           (fun e => match e with
                     | OSError | ValueError _ => true
                     | _ => false
                     end)
           (fun _ => ret (inr 1)) ;;
    match r with
    | inr code => ret code
    | inl fd =>
        try_finally (send_commands fd commands (timeout a)) (os_close fd) ;;
        ret 0
    end.
End Main.

End GpsInit.

(* ================================================================== *)
(** * [usb_gps_monitor.py] *)
(* ================================================================== *)

Module UsbGpsMonitor.
Import Py OS.
Local Open Scope io_scope.

(** A [dict] keeps its keys in insertion order. *)
Definition BAUD_MAP : list (Z * Z) :=
  [ (115200, B115200); (57600, B57600); (38400, B38400);
    (19200, B19200); (9600, B9600); (4800, B4800) ].

Definition TTY_PATTERNS : list pystr :=
  [ str "/dev/ttyUSB*"; str "/dev/ttyACM*" ].

Definition NMEA_PREFIXES : list pybytes :=
  [ bytes_lit "$GP"; bytes_lit "$GN"; bytes_lit "$PQ"; bytes_lit "$PM";
    bytes_lit "$PN" ].

Definition INIT_COMMANDS : list pystr :=
  [ str "UNLOGALL THISPORT";
    str "LOG GPGGA ONTIME 1";
    str "LOG GPGSA ONTIME 1";
    str "LOG GPGSV ONTIME 1";
    str "LOG GPRMC ONTIME 1" ].

(** The paths the generator yields, in the order it yields them. *)
Fixpoint iter_patterns (patterns : list pystr) : io (list pystr) :=
  match patterns with
  | [] => ret []
  | pattern :: patterns' =>
      paths <- glob_glob pattern ;;
      rest <- iter_patterns patterns' ;;
      ret (sorted paths ++ rest)
  end.

Definition iter_candidate_ports : io (list pystr) :=
  iter_patterns TTY_PATTERNS.

Definition configure_port (fd : Z) (baud_const : Z) : io unit :=
  attrs <- tcgetattr fd ;;
  let attrs :=
    {| iflag := 0; oflag := 0;
       cflag := Z.lor (Z.lor CS8 CLOCAL) CREAD;
       lflag := 0;
       ispeed := baud_const; ospeed := baud_const;
       VMIN := 0; VTIME := 1 |} in
  tcflush fd ;;
  tcsetattr fd attrs.

Definition open_serial (path : pystr) (baud : Z) : io (option Z) :=
  match lookup Z.eqb baud BAUD_MAP with
  | None => ret None
  | Some baud_const =>
      r <- try_except (fd <- os_open path ;; ret (Some fd)) is_OSError
             (fun _ => ret None) ;;
      match r with
      | None => ret None
      | Some fd =>
          try_except (configure_port fd baud_const ;; ret (Some fd))
            is_termios_error
            (fun _ => os_close fd ;; ret None)
      end
  end.

(** [any(line.startswith(prefix) ...)] over the lines of the buffer: the two
    nested [for] loops of [sniff_for_gps]. *)
Definition has_nmea_line (captured : pybytes) : bool :=
  existsb (fun line =>
             existsb (fun prefix => bytes_startswith line prefix)
               NMEA_PREFIXES)
    (bytes_splitlines captured).

(** The [while time.time() < deadline] loop of [sniff_for_gps]. *)
Fixpoint sniff_loop (fuel : nat) (fd : Z) (deadline : Z)
  (captured : pybytes) : io (bool * pybytes) :=
  t <- time_time ;;
  if t <? deadline then
    match fuel with
    | O => diverge
    | S fuel' =>
        ready <- select_select fd 500 ;;
        if negb ready then sniff_loop fuel' fd deadline captured
        else
          r <- try_except (chunk <- os_read fd 4096 ;; ret (Some chunk))
                 is_OSError (fun _ => ret None) ;;
          match r with
          | None => ret (false, captured)
          | Some chunk =>
              if is_empty chunk then sniff_loop fuel' fd deadline captured
              else
                let captured := captured ++ chunk in
                if has_nmea_line captured then ret (true, captured)
                else sniff_loop fuel' fd deadline captured
          end
    end
  else ret (false, captured).

Definition sniff_for_gps (fd : Z) (timeout : Z) : io (bool * pybytes) :=
  t <- time_time ;;
  let deadline := t + timeout in
  fun w => sniff_loop (poll_fuel fd deadline w) fd deadline [] w.

Definition make_blocking (fd : Z) : io unit :=
  fcntl_clear_nonblock fd.

(** The [while time.time() < end] loop of [send_command]; it yields the
    reply buffer. *)
Fixpoint send_command_loop (fuel : nat) (fd : Z) (end_ : Z)
  (reply : pybytes) : io pybytes :=
  t <- time_time ;;
  if t <? end_ then
    match fuel with
    | O => diverge
    | S fuel' =>
        ready <- select_select fd 200 ;;
        if negb ready then send_command_loop fuel' fd end_ reply
        else
          r <- try_except (chunk <- os_read fd 4096 ;; ret (Some chunk))
                 is_OSError (fun _ => ret None) ;;
          match r with
          | None => ret reply
          | Some chunk =>
              if is_empty chunk then send_command_loop fuel' fd end_ reply
              else
                let reply := reply ++ chunk in
                if bytes_contains LF reply then ret reply
                else send_command_loop fuel' fd end_ reply
          end
    end
  else ret reply.

Definition send_command (fd : Z) (cmd : pystr) (timeout : Z) : io unit :=
  match encode_ascii_strict (cmd ++ CRLF) with
  | None => raise UnicodeEncodeError
  | Some payload =>
      written <- try_except (os_write fd payload ;; ret true) is_OSError
                   (fun _ => ret false) ;;
      if negb written then ret tt
      else
        t <- time_time ;;
        let end_ := t + timeout in
        _ <- (fun w => send_command_loop (poll_fuel fd end_ w)
                         fd end_ [] w) ;;
        ret tt
  end.

Definition initialize_receiver (fd : Z) : io unit :=
  tcflush fd ;;
  for_each INIT_COMMANDS (fun cmd => send_command fd cmd 1500).

(** The [while True] loop of [stream_sentences]. *)
Fixpoint stream_sentences_loop (fuel : nat) (fd : Z) : io unit :=
  match fuel with
  | O => diverge
  | S fuel' =>
      ready <- select_select fd 1000 ;;
      if negb ready then stream_sentences_loop fuel' fd
      else
        data <- os_read fd 4096 ;;
        if is_empty data then stream_sentences_loop fuel' fd
        else
          for_each (bytes_splitlines data) (fun line =>
            if is_empty line then ret tt
            else print (decode_ascii_replace line)) ;;
          stream_sentences_loop fuel' fd
  end.

Definition stream_sentences (fuel : nat) (fd : Z) : io unit :=
  make_blocking fd ;;
  try_finally
    (try_except (stream_sentences_loop fuel fd) is_KeyboardInterrupt
       (fun _ => ret tt))
    (os_close fd).

(** The body of the two nested loops of [detect_gps] for one port and one
    baud rate: [Some fd] is the [return port, baud, fd], [None] falls
    through to the next candidate. *)
Definition probe_candidate (port : pystr) (baud : Z) : io (option Z) :=
  r <- open_serial port baud ;;
  match r with
  | None => ret None
  | Some fd =>
      '(matched, sample) <- sniff_for_gps fd 1500 ;;
      '(matched, sample) <-
         (if negb matched
          then initialize_receiver fd ;; sniff_for_gps fd 4000
          else ret (matched, sample)) ;;
      if matched then
        (if negb (is_empty sample) then
           let text := decode_ascii_replace sample in
           if negb (is_empty text) then
             print (str "--- Sample data ---") ;;
             for_each (str_splitlines text) (fun line =>
               if negb (is_empty (strip line)) then print line else ret tt) ;;
             print (str "--- End sample ---")
           else ret tt
         else ret tt) ;;
        ret (Some fd)
      else
        os_close fd ;;
        ret None
  end.

Fixpoint detect_bauds (port : pystr) (bauds : list Z)
  : io (option (pystr * Z * Z)) :=
  match bauds with
  | [] => ret None
  | baud :: bauds' =>
      r <- probe_candidate port baud ;;
      match r with
      | Some fd => ret (Some (port, baud, fd))
      | None => detect_bauds port bauds'
      end
  end.

Fixpoint detect_ports (ports : list pystr) : io (option (pystr * Z * Z)) :=
  match ports with
  | [] => ret None
  | port :: ports' =>
      r <- detect_bauds port (map fst BAUD_MAP) ;;
      match r with
      | Some found => ret (Some found)
      | None => detect_ports ports'
      end
  end.

Definition detect_gps : io (option (pystr * Z * Z)) :=
  ports <- iter_candidate_ports ;;
  detect_ports ports.

Definition format_d (n : Z) : pystr :=
  str (DecimalString.NilZero.string_of_int (Z.to_int n)).

Definition main (fuel : nat) : io Z :=
  print (str "Scanning USB serial ports for GPS data...") ;;
  result <- detect_gps ;;
  match result with
  | None =>
      print (str "No GPS device detected. Ensure it is connected and accessible.") ;;
      ret 1
  | Some (port, baud, fd) =>
      initialize_receiver fd ;;
      print (str "Streaming data from " ++ port ++ str " at " ++ format_d baud
               ++ str " baud. Press Ctrl+C to stop.") ;;
      stream_sentences fuel fd ;;
      ret 0
  end.

End UsbGpsMonitor.

(* ================================================================== *)
(** * [gps_run.py] *)
(* ================================================================== *)

Module GpsRun.
Import Py OS.
Local Open Scope io_scope.

Definition DEFAULT_PORT : pystr := str "/dev/ttyUSB1".
Definition DEFAULT_BAUD : Z := 115200.
Definition DEFAULT_TIMEOUT : Z := 1500.

Definition DEFAULT_COMMANDS : list pystr :=
  [ str "UNLOGALL THISPORT";
    str "LOG GPGGA ONTIME 1";
    str "LOG GPGSA ONTIME 1";
    str "LOG GPGSV ONTIME 1";
    str "LOG GPRMC ONTIME 1" ].

(** The body of [for raw_line in data.splitlines()]. *)
Definition emit_line (nmea_only : bool) (raw_line : pybytes) : io unit :=
  if is_empty raw_line then ret tt
  else
    let text := decode_ascii_replace raw_line in
    if nmea_only
       && negb (str_startswith text (str "$") || str_startswith text (str "<"))
    then ret tt
    else print text.

(** The [while True] loop of [stream_output]. *)
Fixpoint stream_output_loop (fuel : nat) (fd : Z) (nmea_only : bool)
  : io unit :=
  match fuel with
  | O => diverge
  | S fuel' =>
      ready <- select_select fd 1000 ;;
      if negb ready then stream_output_loop fuel' fd nmea_only
      else
        data <- os_read fd 4096 ;;
        if is_empty data then stream_output_loop fuel' fd nmea_only
        else
          for_each (bytes_splitlines data) (emit_line nmea_only) ;;
          stream_output_loop fuel' fd nmea_only
  end.

Definition stream_output (fuel : nat) (fd : Z) (nmea_only : bool) : io unit :=
  try_finally
    (try_except (stream_output_loop fuel fd nmea_only) is_KeyboardInterrupt
       (fun _ => ret tt))
    (os_close fd).

(** The parsed command line. *)
Record args := {
  port : pystr;
  baud : Z;
  timeout : Z;
  nmea_only : bool;
  extra_commands : list pystr;
  no_init : bool
}.

Definition main (fuel : nat) (a : args) : io Z :=
  r <- try_except (fd <- GpsInit.open_serial (port a) (baud a) ;; ret (inl fd))
         (fun e => match e with
                   | OSError | ValueError _ => true
                   | _ => false
                   end)
         (fun _ => ret (inr 1)) ;;
  match r with
  | inr code => ret code
  | inl fd =>
      (if negb (no_init a) then
         let command_sequence := DEFAULT_COMMANDS ++ extra_commands a in
         GpsInit.send_commands fd command_sequence (timeout a) ;;
         (* Flush any immediate binary bursts before streaming. *)
         tcflush fd
       else ret tt) ;;
      stream_output fuel fd (nmea_only a) ;;
      ret 0
  end.

End GpsRun.

(* ================================================================== *)
(** * Simulated devices and worlds *)
(* ================================================================== *)

Module Scenarios.
Import Py OS.

(** The world at start-up: the clock at zero, nothing open, descriptors
    numbered from 3. *)
Definition boot (devs : list (pystr * device)) : world :=
  {| now := 0; devices := devs; fdtab := []; next_fd := 3; trace := [];
     stdout := []; interrupt_at := None |}.

(** A device whose calls all succeed. *)
Definition well_behaved (feed : Z -> list event)
  (reply : Z -> pybytes -> Z -> list event) : device :=
  {| dev_openable := true; dev_termios_ok := fun _ => true;
     dev_write_ok := fun _ => true; dev_feed := feed; dev_reply := reply |}.

(** A receiver that never says anything. *)
Definition silent : device := well_behaved (fun _ => []) (fun _ _ _ => []).

(** A receiver that accepts to be opened and configured and whose writes
    fail, as after a cable was pulled. *)
Definition unplugged : device :=
  {| dev_openable := true; dev_termios_ok := fun _ => true;
     dev_write_ok := fun _ => false; dev_feed := fun _ => [];
     dev_reply := fun _ _ _ => [] |}.

(** A world in which descriptor 3 is open on [dev] with [pending] to read. *)
Definition opened (dev : device) (pending : list event) : world :=
  {| now := 0; devices := [(str "/dev/ttyUSB1", dev)];
     fdtab := [(3, {| of_dev := dev; of_attrs := default_attrs;
                      of_nonblock := true; of_pending := pending |})];
     next_fd := 4; trace := [EvOpen (str "/dev/ttyUSB1") (Some 3)];
     stdout := []; interrupt_at := None |}.

Definition chunk_at (t : Z) (data : pybytes) : event :=
  {| at_time := t; payload := Data data |}.

End Scenarios.

(* ================================================================== *)
(** * Vocabulary of the statements *)
(* ================================================================== *)

Module Vocabulary.
Import Py OS.

(** No two neighbours of the list are equal. *)
Definition no_adjacent_dup {A} (l : list A) : Prop :=
  forall l1 a b l2, l = l1 ++ a :: b :: l2 -> a <> b.

(** A list written as its maximal runs: [(x, n)] stands for [n + 1] copies
    of [x]. *)
Fixpoint expand {A} (runs : list (A * nat)) : list A :=
  match runs with
  | [] => []
  | (x, n) :: runs' => repeat x (S n) ++ expand runs'
  end.

(** The read results stand in the order in which they become available. *)
Fixpoint arrival_ordered (p : list event) : Prop :=
  match p with
  | [] => True
  | e :: p' =>
      Forall (fun e' => at_time e <= at_time e') p' /\ arrival_ordered p'
  end.

(** None of the read results is available before [t]. *)
Definition not_before (t : Z) (p : list event) : Prop :=
  Forall (fun e => t <= at_time e) p.

End Vocabulary.

(* ================================================================== *)
(** * Facts about the Python layer *)
(* ================================================================== *)

Module PyFacts.
Import Py.

Lemma list_eqb_eq {A} (eqb : A -> A -> bool)
  (eqb_eq : forall x y, eqb x y = true <-> x = y) :
  forall a b, list_eqb eqb a b = true <-> a = b.
Proof.
  induction a as [|x a IH]; destruct b as [|y b]; simpl; split;
    try congruence; try reflexivity.
  - intro H. apply andb_true_iff in H as [H1 H2].
    apply eqb_eq in H1. apply IH in H2. congruence.
  - intro H. injection H as -> ->. apply andb_true_iff. split.
    + now apply eqb_eq.
    + now apply IH.
Qed.

Lemma str_eqb_eq (a b : pystr) : str_eqb a b = true <-> a = b.
Proof. apply list_eqb_eq, N.eqb_eq. Qed.

Lemma str_eqb_neq (a b : pystr) : str_eqb a b = false <-> a <> b.
Proof.
  rewrite <- str_eqb_eq. destruct (str_eqb a b); split; congruence.
Qed.

Lemma is_empty_true {A} (l : list A) : is_empty l = true <-> l = [].
Proof. destruct l; simpl; split; congruence. Qed.

Lemma is_empty_false {A} (l : list A) : is_empty l = false <-> l <> [].
Proof. destruct l; simpl; split; congruence. Qed.

End PyFacts.

(* ================================================================== *)
(** * [gps_init.py]: the command sequence *)
(* ================================================================== *)

Module CommandSequence.
Import Py OS Vocabulary PyFacts GpsInit.

(** The step of the deduplication loop. *)
Definition dedup_step (deduped : list pystr) (cmd : pystr) : list pystr :=
  if is_empty deduped || negb (str_eqb (last deduped []) cmd)
  then deduped ++ [cmd] else deduped.

Lemma expand_snoc {A} (runs : list (A * nat)) (x : A) :
  expand (runs ++ [(x, O)]) = expand runs ++ [x].
Proof.
  induction runs as [|[y n] runs IH]; simpl; [reflexivity|].
  rewrite IH, app_assoc. reflexivity.
Qed.

Lemma expand_bump {A} (runs : list (A * nat)) (x : A) (n : nat) :
  expand (runs ++ [(x, S n)]) = expand (runs ++ [(x, n)]) ++ [x].
Proof.
  induction runs as [|[y m] runs IH]; simpl.
  - rewrite !app_nil_r. change (x :: x :: repeat x n) with (x :: repeat x (S n)).
    rewrite (repeat_cons (S n) x). reflexivity.
  - rewrite IH, !app_assoc. reflexivity.
Qed.

Lemma no_adjacent_dup_snoc {A} (l : list A) (d x : A) :
  no_adjacent_dup l -> (l <> [] -> last l d <> x) ->
  no_adjacent_dup (l ++ [x]).
Proof.
  intros Hl Hlast l1 a b l2 E.
  destruct (rev l2) as [|z r2] eqn:Er.
  - apply (f_equal (@rev A)) in Er. rewrite rev_involutive in Er.
    simpl in Er. subst l2.
    change (l1 ++ a :: [b]) with (l1 ++ [a] ++ [b]) in E.
    rewrite app_assoc in E. apply app_inj_tail in E as [El Ex].
    subst l x. rewrite last_last in Hlast.
    apply Hlast. destruct l1; discriminate.
  - apply (f_equal (@rev A)) in Er. rewrite rev_involutive in Er.
    simpl in Er. subst l2.
    replace (l1 ++ a :: b :: rev r2 ++ [z])
      with ((l1 ++ a :: b :: rev r2) ++ [z]) in E
      by (rewrite <- app_assoc; reflexivity).
    apply app_inj_tail in E as [El _].
    eapply Hl. exact El.
Qed.

Lemma no_adjacent_dup_nil {A} : no_adjacent_dup (@nil A).
Proof. intros l1 a b l2 E. destruct l1; discriminate. Qed.

(** The loop keeps a run-length reading of what it has consumed. *)
Lemma dedup_runs (sequence : list pystr) :
  exists runs,
    sequence = expand runs
    /\ fold_left dedup_step sequence [] = map fst runs
    /\ no_adjacent_dup (map fst runs).
Proof.
  induction sequence as [|cmd sequence IH] using rev_ind.
  - exists []. simpl. repeat split. apply no_adjacent_dup_nil.
  - destruct IH as (runs & Hseq & Hres & Hnd).
    rewrite fold_left_app. simpl. rewrite Hres. unfold dedup_step.
    destruct (rev runs) as [|[y n] rr] eqn:Er.
    + apply (f_equal (@rev _)) in Er. rewrite rev_involutive in Er.
      simpl in Er. subst runs. simpl in *. subst sequence.
      exists [(cmd, O)]. simpl. repeat split.
      intros l1 a b l2 E. destruct l1 as [|? [|? ?]]; discriminate.
    + apply (f_equal (@rev _)) in Er. rewrite rev_involutive in Er.
      simpl in Er. subst runs.
      rewrite map_app. change (map fst [(y, n)]) with [y].
      rewrite last_last.
      destruct (is_empty (map fst (rev rr) ++ [y])) eqn:Ee.
      { apply is_empty_true in Ee. destruct (map fst (rev rr)); discriminate. }
      simpl orb.
      destruct (str_eqb y cmd) eqn:Ey; simpl negb; cbv iota.
      * apply str_eqb_eq in Ey. subst y.
        exists (rev rr ++ [(cmd, S n)]). split; [|split].
        -- rewrite expand_bump. now rewrite Hseq.
        -- rewrite map_app. reflexivity.
        -- rewrite map_app. simpl. rewrite map_app in Hnd. exact Hnd.
      * apply str_eqb_neq in Ey.
        exists ((rev rr ++ [(y, n)]) ++ [(cmd, O)]). split; [|split].
        -- rewrite expand_snoc. now rewrite Hseq.
        -- rewrite !map_app. reflexivity.
        -- rewrite map_app with (l' := [(cmd, O)]). simpl map at 2.
           apply no_adjacent_dup_snoc with (d := []).
           ++ exact Hnd.
           ++ intros _. rewrite map_app. simpl. rewrite last_last. exact Ey.
Qed.

(** Lines of a command file, as [parse_command_file] reads them: a quoted
    command with a comment, a bare command, and a line that is no list
    item. *)
Example parse_command_line_quoted :
  GpsInit.parse_command_line
    (str "  - " ++ [QUOTE] ++ str "LOG BESTPOS ONTIME 1" ++ [QUOTE]
       ++ str "   # position")
  = Some (str "LOG BESTPOS ONTIME 1").
Proof. reflexivity. Qed.

Example parse_command_line_bare :
  GpsInit.parse_command_line (str "- UNLOGALL THISPORT")
  = Some (str "UNLOGALL THISPORT").
Proof. reflexivity. Qed.

Example parse_command_line_other :
  GpsInit.parse_command_line (str "oem7_commands:") = None.
Proof. reflexivity. Qed.

Lemma concat_files read_text (paths : list pystr) (acc : list pystr) :
  fold_left (fun sequence path => sequence ++ parse_command_file read_text path)
    paths acc
  = acc ++ concat (map (parse_command_file read_text) paths).
Proof.
  revert acc. induction paths as [|p paths IH]; intros acc; simpl.
  - now rewrite app_nil_r.
  - rewrite IH, app_assoc. reflexivity.
Qed.

(** C5.  [load_command_sequence] returns the commands of the files, in the
    order of the files, followed by the extra commands, with every maximal
    run of equal neighbours collapsed to one element: the result has no two
    equal neighbours, the order is kept and equal commands that are not
    neighbours all stay.  [[A; A; B; A]] becomes [[A; B; A]]. *)
Theorem load_command_sequence_adjacent_dedup :
  forall (read_text : pystr -> option pystr) (paths extra : list pystr),
    (exists runs,
        concat (map (parse_command_file read_text) paths) ++ extra = expand runs
        /\ load_command_sequence read_text paths extra = map fst runs
        /\ no_adjacent_dup (load_command_sequence read_text paths extra))
    /\ (forall A B : pystr, A <> B ->
          load_command_sequence read_text [] [A; A; B; A] = [A; B; A]
          /\ load_command_sequence read_text [] [A; A; B; A] <> [A; B]).
Proof.
  intros read_text paths extra. split.
  - assert (E : load_command_sequence read_text paths extra
                 = fold_left dedup_step
                     (concat (map (parse_command_file read_text) paths)
                        ++ extra) []).
    { unfold load_command_sequence. rewrite concat_files. reflexivity. }
    destruct (dedup_runs (concat (map (parse_command_file read_text) paths)
                            ++ extra)) as (runs & H1 & H2 & H3).
    exists runs. rewrite E, H2. auto.
  - intros A B HAB.
    assert (E : load_command_sequence read_text [] [A; A; B; A] = [A; B; A]).
    { unfold load_command_sequence. simpl.
      assert (RA : str_eqb A A = true) by now apply str_eqb_eq.
      assert (RB : str_eqb A B = false) by now apply str_eqb_neq.
      assert (RC : str_eqb B A = false) by (apply str_eqb_neq; congruence).
      rewrite RA. simpl. rewrite RB. simpl. rewrite RC. reflexivity. }
    split; [exact E|]. rewrite E. discriminate.
Qed.

Lemma load_command_sequence_adjacent_dedup_witness :
  str "LOG A" <> str "LOG B"
  /\ load_command_sequence (fun _ => None) []
       [str "LOG A"; str "LOG A"; str "LOG B"; str "LOG A"]
     = [str "LOG A"; str "LOG B"; str "LOG A"].
Proof.
  assert (H : str "LOG A" <> str "LOG B") by discriminate.
  split; [exact H|].
  exact (proj1 (proj2 (load_command_sequence_adjacent_dedup
                         (fun _ => None) [] []) _ _ H)).
Defined.

End CommandSequence.

(* ================================================================== *)
(** * Facts about the system calls and the monad *)
(* ================================================================== *)

Module IOFacts.
Import Py OS PyFacts.
Local Open Scope io_scope.

(** ** Running a computation *)

Lemma bind_run {A B} (m : io A) (k : A -> io B) (w : world) :
  bind m k w =
  match m w with
  | (Ret a, w') => k a w'
  | (Raise e, w') => (Raise e, w')
  | (Diverge, w') => (Diverge, w')
  end.
Proof. reflexivity. Qed.

Lemma bind_ret_run {A B} (m : io A) (k : A -> io B) w a w' :
  m w = (Ret a, w') -> bind m k w = k a w'.
Proof. intro E. unfold bind. now rewrite E. Qed.

Lemma bind_raise_run {A B} (m : io A) (k : A -> io B) w e w' :
  m w = (Raise e, w') -> bind m k w = (Raise e, w').
Proof. intro E. unfold bind. now rewrite E. Qed.

Lemma bind_diverge_run {A B} (m : io A) (k : A -> io B) w w' :
  m w = (Diverge, w') -> bind m k w = (Diverge, w').
Proof. intro E. unfold bind. now rewrite E. Qed.

(** ** Computations that leave a relation between the worlds

    [keeps R m]: running [m] from any world [w] ends in a world related to
    [w] by [R]. *)

Section Keeps.
Variable R : world -> world -> Prop.
Hypothesis R_refl : forall w, R w w.
Hypothesis R_trans : forall w1 w2 w3, R w1 w2 -> R w2 w3 -> R w1 w3.

Definition keeps {A} (m : io A) : Prop := forall w, R w (snd (m w)).

Lemma keeps_ret {A} (a : A) : keeps (ret a).
Proof. intro w. apply R_refl. Qed.

Lemma keeps_raise {A} (e : exn) : keeps (@raise A e).
Proof. intro w. apply R_refl. Qed.

Lemma keeps_diverge {A} : keeps (@diverge A).
Proof. intro w. apply R_refl. Qed.

Lemma keeps_bind {A B} (m : io A) (k : A -> io B) :
  keeps m -> (forall a, keeps (k a)) -> keeps (bind m k).
Proof.
  intros Hm Hk w. unfold bind. specialize (Hm w).
  destruct (m w) as [[a|e|] w1]; simpl in *; auto.
  eapply R_trans; [exact Hm|]. apply Hk.
Qed.

Lemma keeps_try_except {A} (m : io A) catches (handler : exn -> io A) :
  keeps m -> (forall e, keeps (handler e)) ->
  keeps (try_except m catches handler).
Proof.
  intros Hm Hh w. unfold try_except. specialize (Hm w).
  destruct (m w) as [[a|e|] w1]; simpl in *; auto.
  destruct (catches e); simpl; auto.
  eapply R_trans; [exact Hm|]. apply Hh.
Qed.

Lemma keeps_try_finally {A} (m : io A) (cleanup : io unit) :
  keeps m -> keeps cleanup -> keeps (try_finally m cleanup).
Proof.
  intros Hm Hc w. unfold try_finally. specialize (Hm w).
  destruct (m w) as [[a|e|] w1]; simpl in *; auto;
    specialize (Hc w1); destruct (cleanup w1) as [[[]|e'|] w2];
    simpl in *; eauto.
Qed.

Lemma keeps_for_each {A} (xs : list A) (body : A -> io unit) :
  (forall x, keeps (body x)) -> keeps (for_each xs body).
Proof.
  intro Hb. induction xs as [|x xs IH]; simpl.
  - apply keeps_ret.
  - apply keeps_bind; auto.
Qed.

Lemma keeps_if {A} (b : bool) (m1 m2 : io A) :
  keeps m1 -> keeps m2 -> keeps (if b then m1 else m2).
Proof. destruct b; auto. Qed.
End Keeps.

(** ** What the log keeps of a kind of call

    [quiet keep m]: [m] adds no call selected by [keep] to the log. *)

Definition same_calls (keep : syscall -> bool) (w w' : world) : Prop :=
  filter keep (trace w') = filter keep (trace w).

Definition quiet (keep : syscall -> bool) {A} (m : io A) : Prop :=
  keeps (same_calls keep) m.

Lemma same_calls_refl keep w : same_calls keep w w.
Proof. reflexivity. Qed.

Lemma same_calls_trans keep w1 w2 w3 :
  same_calls keep w1 w2 -> same_calls keep w2 w3 -> same_calls keep w1 w3.
Proof. unfold same_calls. congruence. Qed.

Section Quiet.
Variable keep : syscall -> bool.

Lemma quiet_same_trace {A} (m : io A) :
  (forall w, trace (snd (m w)) = trace w) -> quiet keep m.
Proof. intros H w. unfold same_calls. now rewrite H. Qed.

Lemma quiet_logs {A} (m : io A) ev :
  keep ev = false ->
  (forall w, trace (snd (m w)) = trace w ++ [ev]) -> quiet keep m.
Proof.
  intros Hk H w. unfold same_calls. rewrite H, filter_app. simpl.
  rewrite Hk. now rewrite app_nil_r.
Qed.

Lemma block_until_trace {A} t (a : A) w :
  trace (snd (block_until t a w)) = trace w.
Proof.
  unfold block_until. destruct (interrupt_at w) as [ti|]; [|reflexivity].
  destruct (ti <=? t); reflexivity.
Qed.

Lemma quiet_time_time : quiet keep time_time.
Proof. apply quiet_same_trace. reflexivity. Qed.

Lemma quiet_time_sleep d : quiet keep (time_sleep d).
Proof. apply quiet_same_trace. intro w. apply block_until_trace. Qed.

Lemma quiet_select fd timeout : quiet keep (select_select fd timeout).
Proof.
  apply quiet_same_trace. intro w. unfold select_select.
  destruct (get_fd fd w) as [f|]; [|reflexivity].
  destruct (of_pending f) as [|e p]; [apply block_until_trace|].
  destruct (at_time e <=? now w + timeout); apply block_until_trace.
Qed.

Lemma quiet_os_read fd n : quiet keep (os_read fd n).
Proof.
  apply quiet_same_trace. intro w. unfold os_read.
  destruct (get_fd fd w) as [f|]; [|reflexivity].
  destruct (of_pending f) as [|e p].
  - destruct (of_nonblock f); reflexivity.
  - destruct (at_time e <=? now w).
    + destruct (payload e); reflexivity.
    + destruct (of_nonblock f); reflexivity.
Qed.

Lemma termios_call_trace {A} fd (k : open_file -> io A) :
  (forall f w, trace (snd (k f w)) = trace w) ->
  forall w, trace (snd (termios_call fd k w)) = trace w.
Proof.
  intros Hk w. unfold termios_call.
  destruct (get_fd fd w) as [f|]; [|reflexivity].
  destruct (dev_termios_ok (of_dev f) (now w)); [apply Hk|reflexivity].
Qed.

Lemma quiet_tcgetattr fd : quiet keep (tcgetattr fd).
Proof.
  apply quiet_same_trace. apply termios_call_trace. reflexivity.
Qed.

Lemma quiet_tcsetattr fd attrs : quiet keep (tcsetattr fd attrs).
Proof.
  apply quiet_same_trace. apply termios_call_trace. reflexivity.
Qed.

Lemma tcflush_trace fd w :
  trace (snd (tcflush fd w)) = trace w ++ [EvFlush fd].
Proof.
  unfold tcflush. rewrite termios_call_trace; reflexivity.
Qed.

Lemma quiet_tcflush fd : keep (EvFlush fd) = false -> quiet keep (tcflush fd).
Proof. intro H. eapply quiet_logs; [exact H|]. apply tcflush_trace. Qed.

Lemma quiet_fcntl fd : quiet keep (fcntl_clear_nonblock fd).
Proof.
  apply quiet_same_trace. intro w. unfold fcntl_clear_nonblock.
  destruct (get_fd fd w); reflexivity.
Qed.

Lemma quiet_print line : quiet keep (print line).
Proof. apply quiet_same_trace. reflexivity. Qed.

Lemma quiet_glob pattern : quiet keep (glob_glob pattern).
Proof. apply quiet_same_trace. reflexivity. Qed.

Lemma os_write_trace fd data w :
  trace (snd (os_write fd data w)) = trace w ++ [EvWrite fd data].
Proof.
  unfold os_write.
  destruct (get_fd fd (log (EvWrite fd data) w)) as [f|]; [|reflexivity].
  destruct (dev_write_ok (of_dev f) (now (log (EvWrite fd data) w)));
    reflexivity.
Qed.

Lemma quiet_os_write fd data :
  keep (EvWrite fd data) = false -> quiet keep (os_write fd data).
Proof. intro H. eapply quiet_logs; [exact H|]. apply os_write_trace. Qed.

Lemma os_close_trace fd w :
  trace (snd (os_close fd w)) = trace w ++ [EvClose fd].
Proof.
  unfold os_close.
  destruct (get_fd fd (log (EvClose fd) w)); reflexivity.
Qed.

Lemma quiet_os_close fd :
  keep (EvClose fd) = false -> quiet keep (os_close fd).
Proof. intro H. eapply quiet_logs; [exact H|]. apply os_close_trace. Qed.

Lemma os_open_trace path w :
  exists r, trace (snd (os_open path w)) = trace w ++ [EvOpen path r].
Proof.
  unfold os_open. destruct (lookup str_eqb path (devices w)) as [dev|].
  - destruct (dev_openable dev); eexists; reflexivity.
  - eexists; reflexivity.
Qed.

Lemma quiet_os_open path :
  (forall r, keep (EvOpen path r) = false) -> quiet keep (os_open path).
Proof.
  intros H w. destruct (os_open_trace path w) as [r E].
  unfold same_calls. rewrite E, filter_app. simpl. rewrite H.
  now rewrite app_nil_r.
Qed.

Lemma quiet_ret {A} (a : A) : quiet keep (ret a).
Proof. apply keeps_ret, same_calls_refl. Qed.

Lemma quiet_raise {A} e : quiet keep (@raise A e).
Proof. apply keeps_raise, same_calls_refl. Qed.

Lemma quiet_diverge {A} : quiet keep (@diverge A).
Proof. apply keeps_diverge, same_calls_refl. Qed.

Lemma quiet_bind {A B} (m : io A) (k : A -> io B) :
  quiet keep m -> (forall a, quiet keep (k a)) -> quiet keep (bind m k).
Proof. apply keeps_bind, same_calls_trans. Qed.

Lemma quiet_try_except {A} (m : io A) catches (handler : exn -> io A) :
  quiet keep m -> (forall e, quiet keep (handler e)) ->
  quiet keep (try_except m catches handler).
Proof. apply keeps_try_except, same_calls_trans. Qed.

Lemma quiet_try_finally {A} (m : io A) (cleanup : io unit) :
  quiet keep m -> quiet keep cleanup -> quiet keep (try_finally m cleanup).
Proof. apply keeps_try_finally, same_calls_trans. Qed.

Lemma quiet_for_each {A} (xs : list A) (body : A -> io unit) :
  (forall x, quiet keep (body x)) -> quiet keep (for_each xs body).
Proof.
  apply keeps_for_each; [apply same_calls_refl | apply same_calls_trans].
Qed.
End Quiet.

(** The kinds of call the statements select. *)
Definition is_write (ev : syscall) : bool :=
  match ev with EvWrite _ _ => true | _ => false end.
Definition is_open (ev : syscall) : bool :=
  match ev with EvOpen _ _ => true | _ => false end.
Definition is_close_of (fd : Z) (ev : syscall) : bool :=
  match ev with EvClose fd' => Z.eqb fd fd' | _ => false end.

End IOFacts.

(* ================================================================== *)
(** * Configuring the line: the supported baud rates *)
(* ================================================================== *)

Module BaudRates.
Import Py OS PyFacts IOFacts.
Local Open Scope io_scope.

Definition SUPPORTED_BAUDS : list Z := [4800; 9600; 19200; 38400; 57600; 115200].

Lemma gps_init_baud_map_supported (baud : Z) :
  lookup Z.eqb baud GpsInit.baud_map = None <-> ~ In baud SUPPORTED_BAUDS.
Proof.
  unfold GpsInit.baud_map, SUPPORTED_BAUDS. simpl.
  repeat match goal with
         | |- context [Z.eqb baud ?c] =>
             destruct (Z.eqb_spec baud c); [subst baud|]
         end; split; intro H; try discriminate; try tauto; try reflexivity.
  all: intros [E|[E|[E|[E|[E|[E|[]]]]]]]; congruence.
Qed.

Lemma usb_baud_map_supported (baud : Z) :
  lookup Z.eqb baud UsbGpsMonitor.BAUD_MAP = None <-> ~ In baud SUPPORTED_BAUDS.
Proof. exact (gps_init_baud_map_supported baud). Qed.

(** System calls raise [OSError] or [termios.error], never [ValueError]. *)
Definition no_ValueError {A} (m : io A) : Prop :=
  forall w b, fst (m w) <> Raise (ValueError b).

Lemma no_ValueError_bind {A B} (m : io A) (k : A -> io B) :
  no_ValueError m -> (forall a, no_ValueError (k a)) ->
  no_ValueError (bind m k).
Proof.
  intros Hm Hk w b. unfold bind. specialize (Hm w b).
  destruct (m w) as [[a|e|] w1]; simpl in *.
  - apply Hk.
  - intro E. apply Hm. congruence.
  - discriminate.
Qed.

Lemma no_ValueError_termios_call {A} fd (k : open_file -> io A) :
  (forall f, no_ValueError (k f)) -> no_ValueError (termios_call fd k).
Proof.
  intros Hk w b. unfold termios_call.
  destruct (get_fd fd w) as [f|]; [|discriminate].
  destruct (dev_termios_ok (of_dev f) (now w)); [apply Hk|discriminate].
Qed.

Lemma no_ValueError_configure_tail fd attrs :
  no_ValueError (tcgetattr fd ;; tcsetattr fd attrs ;; tcflush fd ;;
                 fcntl_clear_nonblock fd).
Proof.
  apply no_ValueError_bind; [|intros _; apply no_ValueError_bind;
                               [|intros _; apply no_ValueError_bind;
                                 [|intros _]]].
  - apply no_ValueError_termios_call. intros f w b. discriminate.
  - apply no_ValueError_termios_call. intros f w b. discriminate.
  - intros w b. unfold tcflush.
    apply no_ValueError_termios_call. intros f w' b'. discriminate.
  - intros w b. unfold fcntl_clear_nonblock.
    destruct (get_fd fd w); discriminate.
Qed.

(** The device is opened, once, when the rate is supported. *)
Lemma usb_open_serial_opens path baud w :
  In baud SUPPORTED_BAUDS ->
  exists r,
    filter is_open (trace (snd (UsbGpsMonitor.open_serial path baud w)))
    = filter is_open (trace w) ++ [EvOpen path r].
Proof.
  intro Hin. unfold UsbGpsMonitor.open_serial.
  destruct (lookup Z.eqb baud UsbGpsMonitor.BAUD_MAP) as [baud_const|] eqn:El.
  2:{ apply usb_baud_map_supported in El. contradiction. }
  destruct (os_open_trace path w) as [r Er]. exists r.
  assert (Hq : forall fd, quiet is_open
            (try_except (UsbGpsMonitor.configure_port fd baud_const ;; ret (Some fd))
               is_termios_error (fun _ => os_close fd ;; ret None))).
  { intro fd. apply quiet_try_except; intros.
    - unfold UsbGpsMonitor.configure_port.
      repeat (apply quiet_bind; intros);
        auto using quiet_tcgetattr, quiet_tcsetattr, quiet_tcflush, quiet_ret.
    - apply quiet_bind; intros; [apply quiet_os_close; reflexivity|apply quiet_ret]. }
  unfold bind at 1. unfold try_except at 1. unfold bind at 1.
  destruct (os_open path w) as [[fd|e|] w1]; simpl in Er |- *.
  - rewrite (Hq fd w1). rewrite Er, filter_app. reflexivity.
  - destruct (is_OSError e); simpl; rewrite Er, filter_app; reflexivity.
  - rewrite Er, filter_app. reflexivity.
Qed.

(** C7.  Configuring fails for an unsupported baud rate exactly when the
    rate is not one of 4800, 9600, 19200, 38400, 57600 and 115200:
    [configure_port] of [gps_init] raises [ValueError] for exactly those
    rates, before it touches the descriptor, and [open_serial] of
    [usb_gps_monitor] returns [None] without an [os.open] for exactly those
    rates. *)
Theorem unsupported_baud_iff :
  forall (fd : Z) (path : pystr) (baud : Z) (w : world),
    ((exists b, fst (GpsInit.configure_port fd baud w) = Raise (ValueError b))
       <-> ~ In baud SUPPORTED_BAUDS)
    /\ (~ In baud SUPPORTED_BAUDS ->
        GpsInit.configure_port fd baud w = (Raise (ValueError baud), w))
    /\ (UsbGpsMonitor.open_serial path baud w = (Ret None, w)
          <-> ~ In baud SUPPORTED_BAUDS)
    /\ (In baud SUPPORTED_BAUDS ->
        exists r,
          filter is_open (trace (snd (UsbGpsMonitor.open_serial path baud w)))
          = filter is_open (trace w) ++ [EvOpen path r]).
Proof.
  intros fd path baud w.
  assert (G : ~ In baud SUPPORTED_BAUDS ->
              GpsInit.configure_port fd baud w = (Raise (ValueError baud), w)).
  { intro H. apply gps_init_baud_map_supported in H.
    unfold GpsInit.configure_port. now rewrite H. }
  split; [|split; [exact G|split]].
  - split.
    + intros [b Hb] Hin.
      unfold GpsInit.configure_port in Hb.
      destruct (lookup Z.eqb baud GpsInit.baud_map) as [c|] eqn:El.
      * eapply no_ValueError_configure_tail. exact Hb.
      * apply gps_init_baud_map_supported in El. contradiction.
    + intro H. exists baud. now rewrite (G H).
  - split.
    + intros E Hin. destruct (usb_open_serial_opens path baud w Hin) as [r Hr].
      rewrite E in Hr. simpl in Hr.
      apply (f_equal (@length _)) in Hr. rewrite length_app in Hr.
      simpl in Hr. lia.
    + intro H. apply usb_baud_map_supported in H.
      unfold UsbGpsMonitor.open_serial. now rewrite H.
  - apply usb_open_serial_opens.
Qed.

Lemma unsupported_baud_iff_witness :
  ~ In 14400 SUPPORTED_BAUDS
  /\ GpsInit.configure_port 3 14400
       {| now := 0; devices := []; fdtab := []; next_fd := 3; trace := [];
          stdout := []; interrupt_at := None |}
     = (Raise (ValueError 14400),
        {| now := 0; devices := []; fdtab := []; next_fd := 3; trace := [];
           stdout := []; interrupt_at := None |}).
Proof.
  assert (H : ~ In 14400 SUPPORTED_BAUDS).
  { unfold SUPPORTED_BAUDS. simpl. intuition discriminate. }
  split; [exact H|].
  exact (proj1 (proj2 (unsupported_baud_iff 3 [] 14400 _)) H).
Defined.

End BaudRates.

(* ================================================================== *)
(** * Which exceptions a computation can raise *)
(* ================================================================== *)

Module Exceptions.
Import Py OS PyFacts IOFacts.
Local Open Scope io_scope.

Section Raises.
Variable P : exn -> Prop.

(** [raises m]: every exception that escapes [m] satisfies [P]. *)
Definition raises {A} (m : io A) : Prop :=
  forall w e, fst (m w) = Raise e -> P e.

Lemma raises_ret {A} (a : A) : raises (ret a).
Proof. intros w e H. discriminate. Qed.

Lemma raises_diverge {A} : raises (@diverge A).
Proof. intros w e H. discriminate. Qed.

Lemma raises_raise {A} e : P e -> raises (@raise A e).
Proof. intros H w e' E. simpl in E. congruence. Qed.

Lemma raises_bind {A B} (m : io A) (k : A -> io B) :
  raises m -> (forall a, raises (k a)) -> raises (bind m k).
Proof.
  intros Hm Hk w e. unfold bind. specialize (Hm w).
  destruct (m w) as [[a|e'|] w1]; simpl in *.
  - apply Hk.
  - intro E. apply Hm. congruence.
  - discriminate.
Qed.

Lemma raises_try_except {A} (m : io A) catches (handler : exn -> io A) :
  (forall w e, fst (m w) = Raise e -> catches e = false -> P e) ->
  (forall e, raises (handler e)) ->
  raises (try_except m catches handler).
Proof.
  intros Hm Hh w e. unfold try_except. specialize (Hm w).
  destruct (m w) as [[a|e'|] w1]; simpl in *; try discriminate.
  destruct (catches e') eqn:Ec.
  - apply Hh.
  - simpl. intro E. injection E as <-. now apply Hm.
Qed.

Lemma raises_try_finally {A} (m : io A) (cleanup : io unit) :
  raises m -> raises cleanup -> raises (try_finally m cleanup).
Proof.
  intros Hm Hc w e. unfold try_finally. specialize (Hm w).
  destruct (m w) as [[a|e'|] w1]; simpl in *; try discriminate;
    specialize (Hc w1); destruct (cleanup w1) as [[[]|e''|] w2];
    simpl in *; try discriminate; intro E; injection E as <-; auto.
Qed.

Lemma raises_for_each {A} (xs : list A) (body : A -> io unit) :
  (forall x, raises (body x)) -> raises (for_each xs body).
Proof.
  intro Hb. induction xs as [|x xs IH]; simpl.
  - apply raises_ret.
  - apply raises_bind; auto.
Qed.

Lemma raises_time_time : raises time_time.
Proof. intros w e H. discriminate. Qed.

Lemma raises_print line : raises (print line).
Proof. intros w e H. discriminate. Qed.

Lemma raises_glob pattern : raises (glob_glob pattern).
Proof. intros w e H. discriminate. Qed.

Lemma raises_block_until {A} t (a : A) :
  P KeyboardInterrupt -> raises (block_until t a).
Proof.
  intros HK w e. unfold block_until.
  destruct (interrupt_at w) as [ti|]; [|discriminate].
  destruct (ti <=? t); simpl; congruence.
Qed.

Lemma raises_time_sleep d : P KeyboardInterrupt -> raises (time_sleep d).
Proof. intros HK w. unfold time_sleep. now apply raises_block_until. Qed.

Lemma raises_select fd timeout :
  P OSError -> P KeyboardInterrupt -> raises (select_select fd timeout).
Proof.
  intros HO HK w e. unfold select_select.
  destruct (get_fd fd w) as [f|]; [|simpl; congruence].
  destruct (of_pending f) as [|ev p]; [now apply raises_block_until|].
  destruct (at_time ev <=? now w + timeout); now apply raises_block_until.
Qed.

Lemma raises_os_read fd n : P OSError -> raises (os_read fd n).
Proof.
  intros HO w e. unfold os_read.
  destruct (get_fd fd w) as [f|]; [|simpl; congruence].
  destruct (of_pending f) as [|ev p].
  - destruct (of_nonblock f); simpl; congruence.
  - destruct (at_time ev <=? now w).
    + destruct (payload ev); simpl; congruence.
    + destruct (of_nonblock f); simpl; congruence.
Qed.

Lemma raises_os_write fd data : P OSError -> raises (os_write fd data).
Proof.
  intros HO w e. unfold os_write.
  destruct (get_fd fd (log (EvWrite fd data) w)) as [f|]; [|simpl; congruence].
  destruct (dev_write_ok (of_dev f) _); simpl; congruence.
Qed.

Lemma raises_os_open path : P OSError -> raises (os_open path).
Proof.
  intros HO w e. unfold os_open.
  destruct (lookup str_eqb path (devices w)) as [dev|]; [|simpl; congruence].
  destruct (dev_openable dev); simpl; congruence.
Qed.

Lemma raises_os_close fd : P OSError -> raises (os_close fd).
Proof.
  intros HO w e. unfold os_close.
  destruct (get_fd fd (log (EvClose fd) w)); simpl; congruence.
Qed.

Lemma raises_fcntl fd : P OSError -> raises (fcntl_clear_nonblock fd).
Proof.
  intros HO w e. unfold fcntl_clear_nonblock.
  destruct (get_fd fd w); simpl; congruence.
Qed.

Lemma raises_termios_call {A} fd (k : open_file -> io A) :
  P TermiosError -> (forall f, raises (k f)) -> raises (termios_call fd k).
Proof.
  intros HT Hk w e. unfold termios_call.
  destruct (get_fd fd w) as [f|]; [|simpl; congruence].
  destruct (dev_termios_ok (of_dev f) (now w)); [apply Hk|simpl; congruence].
Qed.

Lemma raises_tcgetattr fd : P TermiosError -> raises (tcgetattr fd).
Proof.
  intro HT. apply raises_termios_call; auto. intros f w e H. discriminate.
Qed.

Lemma raises_tcsetattr fd attrs :
  P TermiosError -> raises (tcsetattr fd attrs).
Proof.
  intro HT. apply raises_termios_call; auto. intros f w e H. discriminate.
Qed.

Lemma raises_tcflush fd : P TermiosError -> raises (tcflush fd).
Proof.
  intros HT w. unfold tcflush.
  apply raises_termios_call; auto. intros f w' e H. discriminate.
Qed.
End Raises.

Ltac raises_prim :=
  first
    [ apply raises_ret | apply raises_diverge
    | apply raises_time_time | apply raises_print | apply raises_glob
    | apply raises_raise
    | apply raises_time_sleep | apply raises_select
    | apply raises_os_read | apply raises_os_write | apply raises_os_open
    | apply raises_os_close | apply raises_fcntl
    | apply raises_tcgetattr | apply raises_tcsetattr | apply raises_tcflush ].

Ltac raises_tac :=
  repeat
    first
      [ assumption
      | raises_prim
      | apply raises_bind; [|intros]
      | apply raises_try_finally
      | apply raises_for_each; intros
      | match goal with
        | |- raises _ (if ?b then _ else _) => destruct b
        | |- raises _ (match ?x with _ => _ end) => destruct x
        end ].

(** The exceptions of the system calls. *)
Definition os_exn (e : exn) : Prop :=
  e = OSError \/ e = TermiosError \/ e = KeyboardInterrupt.

Lemma raises_read_response_loop P fuel fd deadline buffer :
  P OSError -> P KeyboardInterrupt ->
  raises P (GpsInit.read_response_loop fuel fd deadline buffer).
Proof.
  intros HO HK. revert buffer.
  induction fuel as [|fuel IH]; intro buffer; simpl; raises_tac; apply IH.
Qed.

Lemma raises_read_response P fd timeout :
  P OSError -> P KeyboardInterrupt ->
  raises P (GpsInit.read_response fd timeout).
Proof.
  intros HO HK. unfold GpsInit.read_response. raises_tac.
  intros w. now apply raises_read_response_loop.
Qed.

Lemma raises_send_commands P fd commands timeout :
  P OSError -> P KeyboardInterrupt ->
  raises P (GpsInit.send_commands fd commands timeout).
Proof.
  intros HO HK. unfold GpsInit.send_commands.
  apply raises_for_each; intro cmd.
  apply raises_bind; [now apply raises_os_write|intros _].
  apply raises_bind; [now apply raises_read_response|intros _].
  now apply raises_time_sleep.
Qed.

End Exceptions.

(* ================================================================== *)
(** * The polling loops log no call *)
(* ================================================================== *)

Module PollingQuiet.
Import Py OS PyFacts IOFacts.
Local Open Scope io_scope.

Lemma quiet_run keep {A} (m : io A) :
  quiet keep m ->
  forall w, filter keep (trace (snd (m w))) = filter keep (trace w).
Proof. intros H w. exact (H w). Qed.

Ltac quiet_prim :=
  first
    [ apply quiet_ret | apply quiet_raise | apply quiet_diverge
    | apply quiet_time_time | apply quiet_time_sleep | apply quiet_select
    | apply quiet_os_read | apply quiet_tcgetattr | apply quiet_tcsetattr
    | apply quiet_fcntl | apply quiet_print | apply quiet_glob
    | apply quiet_tcflush; reflexivity
    | apply quiet_os_write; reflexivity
    | apply quiet_os_close; reflexivity
    | apply quiet_os_open; intros; reflexivity ].

Ltac quiet_tac :=
  repeat
    first
      [ quiet_prim
      | assumption
      | apply quiet_bind; [|intros]
      | apply quiet_try_except; [|intros]
      | apply quiet_try_finally
      | apply quiet_for_each; intros
      | match goal with
        | |- quiet _ (if ?b then _ else _) => destruct b
        | |- quiet _ (match ?x with _ => _ end) => destruct x
        end ].

Section AnyCall.
Variable keep : syscall -> bool.

Lemma quiet_read_response_loop fuel fd deadline buffer :
  quiet keep (GpsInit.read_response_loop fuel fd deadline buffer).
Proof.
  revert buffer. induction fuel as [|fuel IH]; intro buffer; simpl;
    quiet_tac; apply IH.
Qed.

Lemma quiet_read_response fd timeout :
  quiet keep (GpsInit.read_response fd timeout).
Proof.
  unfold GpsInit.read_response. quiet_tac.
  intro w. apply quiet_read_response_loop.
Qed.

Lemma quiet_sniff_loop fuel fd deadline captured :
  quiet keep (UsbGpsMonitor.sniff_loop fuel fd deadline captured).
Proof.
  revert captured. induction fuel as [|fuel IH]; intro captured; simpl;
    quiet_tac; apply IH.
Qed.

Lemma quiet_sniff_for_gps fd timeout :
  quiet keep (UsbGpsMonitor.sniff_for_gps fd timeout).
Proof.
  unfold UsbGpsMonitor.sniff_for_gps. quiet_tac.
  intro w. apply quiet_sniff_loop.
Qed.

Lemma quiet_send_command_loop fuel fd end_ reply :
  quiet keep (UsbGpsMonitor.send_command_loop fuel fd end_ reply).
Proof.
  revert reply. induction fuel as [|fuel IH]; intro reply; simpl;
    quiet_tac; apply IH.
Qed.
End AnyCall.

End PollingQuiet.

(* ================================================================== *)
(** * Sending a command *)
(* ================================================================== *)

Module SendingCommands.
Import Py OS Vocabulary PyFacts IOFacts PollingQuiet Exceptions.
Local Open Scope io_scope.

(** The bytes [p] are the ASCII characters of [cmd], in order, followed by
    carriage return and line feed. *)
Definition ascii_of_command (cmd : pystr) (p : pybytes) : Prop :=
  map Byte.to_N p = filter is_ascii cmd ++ CRLF.

Lemma ascii_byte_to_N (c : N) :
  is_ascii c = true -> map Byte.to_N (ascii_byte c) = [c].
Proof.
  intro H. unfold ascii_byte. destruct (Byte.of_N c) as [b|] eqn:E.
  - apply Byte.to_of_N in E. simpl. now rewrite E.
  - apply Byte.of_N_None_iff in E. unfold is_ascii in H.
    apply N.ltb_lt in H. lia.
Qed.

Lemma encode_ascii_ignore_to_N (s : pystr) :
  map Byte.to_N (encode_ascii_ignore s) = filter is_ascii s.
Proof.
  induction s as [|c s IH]; simpl; [reflexivity|].
  unfold encode_ascii_ignore in *. simpl. rewrite map_app, IH.
  destruct (is_ascii c) eqn:E; [|reflexivity].
  now rewrite ascii_byte_to_N.
Qed.

Lemma encode_ascii_strict_ignore (s : pystr) (p : pybytes) :
  encode_ascii_strict s = Some p -> p = encode_ascii_ignore s.
Proof.
  unfold encode_ascii_strict, encode_ascii_ignore.
  destruct (forallb is_ascii s) eqn:E; [|discriminate].
  intro H. injection H as <-.
  induction s as [|c s IH]; simpl in *; [reflexivity|].
  apply andb_true_iff in E as [Ec Es]. rewrite Ec, IH; auto.
Qed.

Lemma ascii_of_command_ignore (cmd : pystr) :
  ascii_of_command cmd (encode_ascii_ignore (cmd ++ CRLF)).
Proof.
  unfold ascii_of_command. rewrite encode_ascii_ignore_to_N, filter_app.
  reflexivity.
Qed.

(** The claim as the specification states it, for one way [send] of sending
    [cmd] on [fd] from the world [w]: a write of the ASCII characters of
    the command and CR LF is issued, and no encoding error is raised. *)
Definition sends_ascii_dropping (send : io unit) (fd : Z) (cmd : pystr)
  (w : world) : Prop :=
  (exists p rest,
      ascii_of_command cmd p
      /\ filter is_write (trace (snd (send w)))
         = filter is_write (trace w) ++ EvWrite fd p :: rest)
  /\ fst (send w) <> Raise UnicodeEncodeError.

(** What [send_commands] of [gps_init] writes for a list of commands. *)
Lemma send_commands_writes fd commands timeout w :
  exists k,
    filter is_write (trace (snd (GpsInit.send_commands fd commands timeout w)))
    = filter is_write (trace w)
        ++ map (fun cmd => EvWrite fd (encode_ascii_ignore (cmd ++ CRLF)))
             (firstn k commands)
    /\ (fst (GpsInit.send_commands fd commands timeout w) = Ret tt ->
        k = length commands).
Proof.
  unfold GpsInit.send_commands.
  revert w. induction commands as [|cmd commands IH]; intro w.
  - exists O. simpl. rewrite app_nil_r. repeat split.
  - cbn [for_each]. rewrite bind_run.
    set (body := (os_write fd (encode_ascii_ignore (cmd ++ CRLF)) ;;
                  _ <- GpsInit.read_response fd timeout ;; time_sleep 100)).
    assert (Hw : filter is_write (trace (snd (body w)))
                 = filter is_write (trace w)
                     ++ [EvWrite fd (encode_ascii_ignore (cmd ++ CRLF))]).
    { subst body. rewrite bind_run.
      pose proof (os_write_trace fd (encode_ascii_ignore (cmd ++ CRLF)) w) as Ht.
      destruct (os_write fd (encode_ascii_ignore (cmd ++ CRLF)) w)
        as [[[]|e|] w1]; simpl in Ht |- *;
        try (rewrite Ht, filter_app; reflexivity).
      assert (Hq : quiet is_write
                (_ <- GpsInit.read_response fd timeout ;; time_sleep 100)).
      { apply quiet_bind; intros;
          [apply quiet_read_response|apply quiet_time_sleep]. }
      rewrite (quiet_run _ _ Hq w1), Ht, filter_app. reflexivity. }
    destruct (body w) as [[[]|e|] w1] eqn:Eb; simpl in Hw.
    + destruct (IH w1) as (k & Hk & Hret).
      exists (S k). rewrite Hk, Hw, <- app_assoc. simpl. repeat split; auto.
    + exists 1%nat. simpl. rewrite ?firstn_O. repeat split; auto.
      discriminate.
    + exists 1%nat. simpl. rewrite ?firstn_O. repeat split; auto;
        discriminate.
Qed.

(** Only [OSError] escapes the read that the loops guard. *)
Lemma guarded_read_raises fd :
  raises (fun e => e = OSError)
    (chunk <- os_read fd 4096 ;; ret (Some chunk)).
Proof.
  apply raises_bind; [now apply raises_os_read|intros; apply raises_ret].
Qed.

Lemma raises_send_command_loop P fuel fd end_ reply :
  P OSError -> P KeyboardInterrupt ->
  raises P (UsbGpsMonitor.send_command_loop fuel fd end_ reply).
Proof.
  intros HO HK. revert reply.
  induction fuel as [|fuel IH]; intro reply; simpl.
  apply raises_bind; [apply raises_time_time|intros t].
  - destruct (t <? end_); raises_tac.
  - apply raises_bind; [apply raises_time_time|intros t].
    destruct (t <? end_); [|apply raises_ret].
    apply raises_bind; [now apply raises_select|intros ready].
    destruct (negb ready); [apply IH|].
    apply raises_bind.
    + apply raises_try_except; [|intros; apply raises_ret].
      intros w e He Hc. rewrite (guarded_read_raises fd w e He) in Hc.
      discriminate.
    + intros [chunk|]; [|apply raises_ret].
      destruct (is_empty chunk); [apply IH|].
      destruct (bytes_contains LF (reply ++ chunk)); [apply raises_ret|apply IH].
Qed.

(** With ASCII characters only, [send_command] of [usb_gps_monitor] issues
    one write, of the command and CR LF. *)
Lemma usb_send_command_ascii fd cmd timeout w :
  forallb is_ascii cmd = true ->
  filter is_write (trace (snd (UsbGpsMonitor.send_command fd cmd timeout w)))
  = filter is_write (trace w) ++ [EvWrite fd (encode_ascii_ignore (cmd ++ CRLF))]
  /\ fst (UsbGpsMonitor.send_command fd cmd timeout w) <> Raise UnicodeEncodeError.
Proof.
  intro Ha. unfold UsbGpsMonitor.send_command.
  destruct (encode_ascii_strict (cmd ++ CRLF)) as [p|] eqn:Ep.
  2:{ unfold encode_ascii_strict in Ep. rewrite forallb_app, Ha in Ep.
      discriminate. }
  apply encode_ascii_strict_ignore in Ep. subst p.
  set (p := encode_ascii_ignore (cmd ++ CRLF)).
  split.
  - rewrite bind_run. unfold try_except. rewrite bind_run.
    pose proof (os_write_trace fd p w) as Ht.
    destruct (os_write fd p w) as [[[]|e|] w1]; simpl in Ht;
      cbn [ret negb fst snd].
    + assert (Hq : quiet is_write
               (t <- time_time ;;
                _ <- (fun w => UsbGpsMonitor.send_command_loop
                                 (poll_fuel fd (t + timeout) w) fd
                                 (t + timeout) [] w) ;;
                ret tt)).
      { apply quiet_bind; intros; [apply quiet_time_time|].
        apply quiet_bind; intros; [|apply quiet_ret].
        intro w0. apply quiet_send_command_loop. }
      rewrite (quiet_run _ _ Hq w1), Ht, filter_app. reflexivity.
    + destruct (is_OSError e); simpl; rewrite Ht, filter_app; reflexivity.
    + rewrite Ht, filter_app. reflexivity.
  - intro E.
    assert (R : raises (fun e => e <> UnicodeEncodeError)
                  (written <- try_except (os_write fd p ;; ret true) is_OSError
                                (fun _ => ret false) ;;
                   if negb written then ret tt
                   else
                     t <- time_time ;;
                     _ <- (fun w => UsbGpsMonitor.send_command_loop
                                      (poll_fuel fd (t + timeout) w) fd
                                      (t + timeout) [] w) ;;
                     ret tt)).
    { apply raises_bind.
      - apply raises_try_except; [|intros; apply raises_ret].
        intros w0 e He Hc.
        assert (Rw : raises (fun e => e = OSError) (os_write fd p ;; ret true))
          by (apply raises_bind;
              [now apply raises_os_write|intros; apply raises_ret]).
        rewrite (Rw w0 e He) in Hc. discriminate.
      - intros written. destruct (negb written); [apply raises_ret|].
        apply raises_bind; [apply raises_time_time|intros t].
        apply raises_bind; [|intros; apply raises_ret].
        intros w0. apply raises_send_command_loop; discriminate. }
    exact (R w _ E eq_refl).
Qed.

Lemma usb_send_command_non_ascii fd cmd timeout w :
  forallb is_ascii cmd = false ->
  UsbGpsMonitor.send_command fd cmd timeout w = (Raise UnicodeEncodeError, w).
Proof.
  intro Ha. unfold UsbGpsMonitor.send_command, encode_ascii_strict.
  rewrite forallb_app, Ha. reflexivity.
Qed.

(** C8, as amended.  [send_commands] of [gps_init] writes, for each command
    in turn, its ASCII characters in order followed by CR LF, dropping the
    others, and raises no encoding error.  [send_command] of
    [usb_gps_monitor] writes the command followed by CR LF when every
    character of the command is ASCII; for any other command it raises
    [UnicodeEncodeError] and writes nothing. *)
Theorem send_writes_ascii_crlf :
  forall (fd : Z) (timeout : Z) (w : world),
    (forall commands,
        exists k,
          filter is_write
            (trace (snd (GpsInit.send_commands fd commands timeout w)))
          = filter is_write (trace w)
              ++ map (fun cmd => EvWrite fd (encode_ascii_ignore (cmd ++ CRLF)))
                   (firstn k commands)
          /\ (fst (GpsInit.send_commands fd commands timeout w) = Ret tt ->
              k = length commands)
          /\ fst (GpsInit.send_commands fd commands timeout w)
             <> Raise UnicodeEncodeError)
    /\ (forall cmd, ascii_of_command cmd (encode_ascii_ignore (cmd ++ CRLF)))
    /\ (forall cmd,
          sends_ascii_dropping (GpsInit.send_commands fd [cmd] timeout) fd cmd w)
    /\ (forall cmd, forallb is_ascii cmd = true ->
          filter is_write
            (trace (snd (UsbGpsMonitor.send_command fd cmd timeout w)))
          = filter is_write (trace w)
              ++ [EvWrite fd (encode_ascii_ignore (cmd ++ CRLF))]
          /\ fst (UsbGpsMonitor.send_command fd cmd timeout w)
             <> Raise UnicodeEncodeError)
    /\ (forall cmd, forallb is_ascii cmd = false ->
          UsbGpsMonitor.send_command fd cmd timeout w
          = (Raise UnicodeEncodeError, w)).
Proof.
  intros fd timeout w.
  assert (Hne : forall commands,
             fst (GpsInit.send_commands fd commands timeout w)
             <> Raise UnicodeEncodeError).
  { intros commands E.
    exact (raises_send_commands (fun e => e <> UnicodeEncodeError)
             fd commands timeout ltac:(discriminate) ltac:(discriminate)
             w _ E eq_refl). }
  split; [|split; [|split; [|split]]].
  - intro commands.
    destruct (send_commands_writes fd commands timeout w) as (k & H1 & H2).
    exists k. auto.
  - apply ascii_of_command_ignore.
  - intro cmd. split; [|apply Hne].
    exists (encode_ascii_ignore (cmd ++ CRLF)), [].
    split; [apply ascii_of_command_ignore|].
    unfold GpsInit.send_commands. cbn [for_each].
    set (body := (os_write fd (encode_ascii_ignore (cmd ++ CRLF)) ;;
                  _ <- GpsInit.read_response fd timeout ;; time_sleep 100)).
    assert (Hq : quiet is_write
              (_ <- GpsInit.read_response fd timeout ;; time_sleep 100)).
    { apply quiet_bind; intros;
        [apply quiet_read_response|apply quiet_time_sleep]. }
    rewrite bind_run. subst body. rewrite bind_run.
    pose proof (os_write_trace fd (encode_ascii_ignore (cmd ++ CRLF)) w) as Ht.
    destruct (os_write fd (encode_ascii_ignore (cmd ++ CRLF)) w)
      as [[[]|e|] w1]; simpl in Ht |- *;
      try (rewrite Ht, filter_app; reflexivity).
    specialize (Hq w1).
    destruct ((_ <- GpsInit.read_response fd timeout;; time_sleep 100) w1)
      as [[[]|e|] w2]; simpl in Hq |- *;
      rewrite Hq, Ht, filter_app; reflexivity.
  - intros cmd Ha. now apply usb_send_command_ascii.
  - intros cmd Ha. now apply usb_send_command_non_ascii.
Qed.

End SendingCommands.

Module SendingCommandsCases.
Import Py OS Vocabulary PyFacts IOFacts Scenarios SendingCommands.

(** C8 fails as stated: [send_command] of [usb_gps_monitor] raises on a
    command with a character outside ASCII and writes nothing. *)
Lemma send_command_non_ascii_counterexample :
  ~ sends_ascii_dropping
      (UsbGpsMonitor.send_command 3 (str "LOG " ++ [233%N]) 1500)
      3 (str "LOG " ++ [233%N]) (opened silent []).
Proof. intros [_ H]. apply H. reflexivity. Qed.

Lemma send_writes_ascii_crlf_witness :
  forallb is_ascii (str "UNLOGALL THISPORT") = true
  /\ filter is_write
       (trace (snd (UsbGpsMonitor.send_command 3 (str "UNLOGALL THISPORT")
                      1500 (opened silent []))))
     = [EvWrite 3 (bytes_lit "UNLOGALL THISPORT" ++ [CR; LF])].
Proof.
  assert (H : forallb is_ascii (str "UNLOGALL THISPORT") = true)
    by reflexivity.
  split; [exact H|].
  exact (proj1 (proj1 (proj2 (proj2 (proj2
           (send_writes_ascii_crlf 3 1500 (opened silent []))))) _ H)).
Defined.

End SendingCommandsCases.

(* ================================================================== *)
(** * The polling loops *)
(* ================================================================== *)

Module Polling.
Import Py OS Vocabulary PyFacts IOFacts.
Local Open Scope io_scope.

(** ** The two calls of an iteration *)

Lemma lookup_update {B} fd (v v0 : B) tab :
  lookup Z.eqb fd tab = Some v0 ->
  lookup Z.eqb fd (update fd v tab) = Some v.
Proof.
  induction tab as [|[k x] tab IH]; simpl; [discriminate|].
  destruct (Z.eqb fd k) eqn:E; simpl.
  - intros _. now rewrite Z.eqb_refl.
  - rewrite E. exact IH.
Qed.

Lemma block_until_spec {A} (t : Z) (a : A) w r w' :
  now w <= t -> block_until t a w = (r, w') ->
  fdtab w' = fdtab w /\ now w <= now w' <= t
  /\ (r = Ret a /\ now w' = t \/ r = Raise KeyboardInterrupt).
Proof.
  intros Ht. unfold block_until.
  destruct (interrupt_at w) as [ti|].
  - destruct (ti <=? t) eqn:E; intro H; injection H as <- <-; simpl.
    + apply Z.leb_le in E. repeat split; auto; lia.
    + repeat split; auto; lia.
  - intro H; injection H as <- <-; simpl. repeat split; auto; lia.
Qed.

Lemma select_spec fd slice w r w' :
  0 <= slice -> select_select fd slice w = (r, w') ->
  fdtab w' = fdtab w /\ now w <= now w' <= now w + slice
  /\ r <> Diverge
  /\ (r = Ret true ->
      exists e rest, fd_pending fd w = e :: rest /\ at_time e <= now w')
  /\ (r = Ret false -> now w' = now w + slice).
Proof.
  intros Hs. unfold select_select, fd_pending.
  destruct (get_fd fd w) as [f|].
  2:{ intro H; injection H as <- <-. repeat split; try lia; discriminate. }
  destruct (of_pending f) as [|e rest].
  - intro H. apply block_until_spec in H as (H1 & H2 & H3); [|lia].
    repeat split; try tauto; try lia.
    + destruct H3 as [[-> _]| ->]; discriminate.
    + intros ->. destruct H3 as [[H3 _]|H3]; discriminate.
    + intros ->. destruct H3 as [[_ H3]|H3]; [exact H3|discriminate].
  - destruct (at_time e <=? now w + slice) eqn:E.
    + apply Z.leb_le in E.
      intro H. apply block_until_spec in H as (H1 & H2 & H3); [|lia].
      repeat split; try tauto; try lia.
      * destruct H3 as [[-> _]| ->]; discriminate.
      * intros ->. exists e, rest. split; [reflexivity|].
        destruct H3 as [[_ H3]|H3]; [lia|discriminate].
      * intros ->. destruct H3 as [[H3 _]|H3]; discriminate.
    + intro H. apply block_until_spec in H as (H1 & H2 & H3); [|lia].
      repeat split; try tauto; try lia.
      * destruct H3 as [[-> _]| ->]; discriminate.
      * intros ->. destruct H3 as [[H3 _]|H3]; discriminate.
      * intros ->. destruct H3 as [[_ H3]|H3]; [exact H3|discriminate].
Qed.

Lemma os_read_arrived fd n w e rest :
  fd_pending fd w = e :: rest -> at_time e <= now w ->
  exists w',
    os_read fd n w
    = (match payload e with
       | Data chunk => Ret chunk
       | ReadFails => Raise OSError
       end, w')
    /\ now w' = now w /\ fd_pending fd w' = rest
    /\ interrupt_at w' = interrupt_at w.
Proof.
  unfold fd_pending, os_read. unfold get_fd at 1 2.
  destruct (lookup Z.eqb fd (fdtab w)) as [f|] eqn:El; [|discriminate].
  intros -> Ht. apply Z.leb_le in Ht. rewrite Ht.
  eexists. split; [destruct (payload e); reflexivity|].
  simpl. repeat split. unfold get_fd. simpl.
  erewrite lookup_update by exact El. reflexivity.
Qed.

(** ** The common shape of the three loops

    While the clock is before [deadline]: wait for at most [slice]; when
    the descriptor is readable read a chunk; skip an empty chunk; append a
    chunk to the buffer and stop when [stop buffer chunk] holds of the
    buffer before and the chunk.  A failing read ends a [guarded] loop and
    escapes from an unguarded one.  The answer tells whether [stop]
    ended the loop. *)
Fixpoint poll_loop (fuel : nat) (fd deadline slice : Z) (guarded : bool)
  (stop : pybytes -> pybytes -> bool) (buffer : pybytes)
  : io (bool * pybytes) :=
  fun w =>
    if now w <? deadline then
      match fuel with
      | O => (Diverge, w)
      | S fuel' =>
          match select_select fd slice w with
          | (Ret true, w1) =>
              match os_read fd 4096 w1 with
              | (Ret chunk, w2) =>
                  if is_empty chunk
                  then poll_loop fuel' fd deadline slice guarded stop buffer w2
                  else if stop buffer chunk
                       then (Ret (true, buffer ++ chunk), w2)
                       else poll_loop fuel' fd deadline slice guarded stop
                              (buffer ++ chunk) w2
              | (Raise e, w2) =>
                  if guarded && is_OSError e
                  then (Ret (false, buffer), w2) else (Raise e, w2)
              | (Diverge, w2) => (Diverge, w2)
              end
          | (Ret false, w1) =>
              poll_loop fuel' fd deadline slice guarded stop buffer w1
          | (Raise e, w1) => (Raise e, w1)
          | (Diverge, w1) => (Diverge, w1)
          end
      end
    else (Ret (false, buffer), w).

(** The bytes of a run of read results. *)
Definition bytes_of (evs : list event) : pybytes :=
  flat_map (fun e => match payload e with
                     | Data chunk => chunk
                     | ReadFails => []
                     end) evs.

(** [stop] held of no chunk of [evs], read in turn on top of [buffer]. *)
Fixpoint never_stopped (stop : pybytes -> pybytes -> bool) (buffer : pybytes)
  (evs : list event) : Prop :=
  match evs with
  | [] => True
  | e :: evs' =>
      match payload e with
      | Data chunk =>
          (chunk <> [] -> stop buffer chunk = false)
          /\ never_stopped stop (buffer ++ chunk) evs'
      | ReadFails => never_stopped stop buffer evs'
      end
  end.

Lemma bytes_of_app evs1 evs2 :
  bytes_of (evs1 ++ evs2) = bytes_of evs1 ++ bytes_of evs2.
Proof. unfold bytes_of. apply flat_map_app. Qed.

(** Why a loop ended, for an answer [r] in the world [w']: [stop] fired on
    the last chunk read, or the deadline passed, or a guarded read failed. *)
Inductive ending (deadline : Z) (guarded : bool)
  (stop : pybytes -> pybytes -> bool) (buffer : pybytes)
  (evs : list event) (w' : world) : outcome (bool * pybytes) -> Prop :=
| EndStop evs0 e chunk :
    evs = evs0 ++ [e] -> payload e = Data chunk -> chunk <> [] ->
    never_stopped stop buffer evs0 ->
    stop (buffer ++ bytes_of evs0) chunk = true ->
    ending deadline guarded stop buffer evs w'
      (Ret (true, buffer ++ bytes_of evs))
| EndDeadline :
    never_stopped stop buffer evs -> deadline <= now w' ->
    ending deadline guarded stop buffer evs w'
      (Ret (false, buffer ++ bytes_of evs))
| EndReadFails evs0 e :
    guarded = true -> evs = evs0 ++ [e] -> payload e = ReadFails ->
    never_stopped stop buffer evs0 ->
    ending deadline guarded stop buffer evs w'
      (Ret (false, buffer ++ bytes_of evs))
| EndRaise exc :
    never_stopped stop buffer evs ->
    ending deadline guarded stop buffer evs w' (Raise exc)
| EndDiverge :
    ending deadline guarded stop buffer evs w' Diverge.

Lemma ending_cons deadline guarded stop buffer e evs w' r chunk :
  payload e = Data chunk ->
  (chunk <> [] -> stop buffer chunk = false) ->
  ending deadline guarded stop (buffer ++ chunk) evs w' r ->
  ending deadline guarded stop buffer (e :: evs) w' r.
Proof.
  intros He Hs H.
  assert (Eb : forall l, buffer ++ bytes_of (e :: l)
                         = (buffer ++ chunk) ++ bytes_of l).
  { intro l. unfold bytes_of. simpl. rewrite He, app_assoc. reflexivity. }
  assert (Hn : forall l, never_stopped stop (buffer ++ chunk) l ->
                         never_stopped stop buffer (e :: l)).
  { intros l Hl. simpl. rewrite He. auto. }
  inversion H; subst.
  - rewrite <- Eb.
    apply EndStop with (evs0 := e :: evs0) (e := e0) (chunk := chunk0);
      auto.
    pose proof (Eb evs0) as E0. simpl in E0 |- *. rewrite E0. exact H4.
  - pose proof (Eb evs) as E0. rewrite <- E0. apply EndDeadline; auto.
  - pose proof (Eb (evs0 ++ [e0])) as E0. rewrite <- E0.
    apply EndReadFails with (evs0 := e :: evs0) (e := e0); auto.
  - apply EndRaise; auto.
  - apply EndDiverge.
Qed.

Lemma ending_skip deadline guarded stop buffer e evs w' r :
  payload e = Data [] ->
  ending deadline guarded stop buffer evs w' r ->
  ending deadline guarded stop buffer (e :: evs) w' r.
Proof.
  intros He H. eapply ending_cons; [exact He|congruence|].
  now rewrite app_nil_r.
Qed.

(** The loop, from the world [w]: what it read, how it ended, how long it
    took and that it had steps enough. *)
Lemma poll_loop_spec fuel fd deadline slice guarded stop :
  0 < slice ->
  forall buffer w r w',
    poll_loop fuel fd deadline slice guarded stop buffer w = (r, w') ->
    exists evs,
      fd_pending fd w = evs ++ fd_pending fd w'
      /\ ending deadline guarded stop buffer evs w' r
      /\ now w <= now w'
      /\ (now w' = now w \/ now w' < deadline + slice)
      /\ ((length (fd_pending fd w) + Z.to_nat (deadline - now w) <= fuel)%nat
          -> r <> Diverge).
Proof.
  intros Hs. induction fuel as [|fuel IH]; intros buffer w r w'; simpl.
  - destruct (now w <? deadline) eqn:Et; intro H; injection H as <- <-.
    + apply Z.ltb_lt in Et. exists []. simpl.
      repeat split; auto; try lia; try apply EndDiverge.
    + apply Z.ltb_ge in Et. exists []. simpl.
      repeat split; auto; try lia; try discriminate.
      rewrite <- (app_nil_r buffer) at 2. apply EndDeadline; simpl; auto.
  - destruct (now w <? deadline) eqn:Et.
    2:{ intro H; injection H as <- <-. apply Z.ltb_ge in Et.
        exists []. simpl. repeat split; auto; try lia; try discriminate.
        rewrite <- (app_nil_r buffer) at 2. apply EndDeadline; simpl; auto. }
    apply Z.ltb_lt in Et.
    destruct (select_select fd slice w) as [rs w1] eqn:Es.
    apply select_spec in Es as (Hf1 & Hn1 & Hd1 & Hready & Hidle); [|lia].
    assert (Hp1 : fd_pending fd w1 = fd_pending fd w)
      by (unfold fd_pending, get_fd; now rewrite Hf1).
    destruct rs as [[|]|e|].
    + (* readable *)
      destruct (Hready eq_refl) as (e & rest & Hpe & Hat).
      rewrite <- Hp1 in Hpe.
      destruct (os_read_arrived fd 4096 w1 e rest Hpe Hat)
        as (w2 & Er & Hn2 & Hp2 & _).
      rewrite Er.
      destruct (payload e) as [chunk|] eqn:Epay.
      * destruct (is_empty chunk) eqn:Ec.
        -- apply is_empty_true in Ec. subst chunk. intro H.
           apply IH in H as (evs & Hpend & Hend & Hle & Htime & Hfuel).
           exists (e :: evs). rewrite <- Hp1, Hpe, Hp2 in *.
           repeat split.
           ++ simpl. now rewrite <- Hpend.
           ++ now apply ending_skip.
           ++ lia.
           ++ lia.
           ++ intro Hf. apply Hfuel. simpl in Hf. lia.
        -- apply is_empty_false in Ec.
           destruct (stop buffer chunk) eqn:Estop.
           ++ intro H; injection H as <- <-.
              exists [e]. rewrite <- Hp1, Hpe, Hp2. repeat split; try lia.
              ** replace (buffer ++ chunk) with (buffer ++ bytes_of [e])
                   by (unfold bytes_of; simpl; rewrite Epay, app_nil_r;
                       reflexivity).
                 apply EndStop with (evs0 := []) (e := e) (chunk := chunk);
                   simpl; auto.
                 now rewrite app_nil_r.
              ** discriminate.
           ++ intro H.
              apply IH in H as (evs & Hpend & Hend & Hle & Htime & Hfuel).
              exists (e :: evs). rewrite <- Hp1, Hpe, Hp2 in *.
              repeat split.
              ** simpl. now rewrite <- Hpend.
              ** eapply ending_cons; eauto.
              ** lia.
              ** lia.
              ** intro Hf. apply Hfuel. simpl in Hf. lia.
      * destruct guarded; simpl; intro H; injection H as <- <-;
          exists [e]; rewrite <- Hp1, Hpe, Hp2; repeat split; try lia;
          try discriminate.
        -- replace (buffer) with (buffer ++ bytes_of [e]) at 2
             by (unfold bytes_of; simpl; rewrite Epay; apply app_nil_r).
           eapply EndReadFails with (evs0 := []); simpl; eauto.
        -- apply EndRaise. simpl. now rewrite Epay.
    + (* not readable within the slice *)
      specialize (Hidle eq_refl). intro H.
      apply IH in H as (evs & Hpend & Hend & Hle & Htime & Hfuel).
      exists evs. rewrite Hp1 in *. repeat split; auto; try lia.
      intro Hf. apply Hfuel. lia.
    + intro H; injection H as <- <-. exists []. rewrite Hp1.
      repeat split; try lia; try discriminate.
      apply EndRaise. exact I.
    + contradiction.
Qed.

(** ** What has arrived is read

    The wait of an iteration, to the minute. *)
Lemma select_run fd slice w r w' :
  select_select fd slice w = (r, w') ->
  fdtab w' = fdtab w
  /\ (r = Ret true ->
      exists e rest,
        fd_pending fd w = e :: rest /\ now w' = Z.max (now w) (at_time e))
  /\ (r = Ret false ->
      now w' = now w + slice
      /\ match fd_pending fd w with
         | [] => True
         | e :: _ => now w + slice < at_time e
         end).
Proof.
  unfold select_select, fd_pending.
  destruct (get_fd fd w) as [f|].
  2:{ intro H; injection H as <- <-.
      split; [reflexivity|split; intro; discriminate]. }
  assert (Hb : forall (t : Z) (a : bool),
             block_until t a w = (r, w') ->
             fdtab w' = fdtab w /\ (forall b, r = Ret b -> b = a /\ now w' = t)).
  { intros t a. unfold block_until.
    destruct (interrupt_at w) as [ti|]; [destruct (ti <=? t)|];
      intro H; injection H as <- <-; (split; [reflexivity|]);
      intros b E; try discriminate; injection E as <-; auto. }
  destruct (of_pending f) as [|e rest].
  - intro H. apply Hb in H as [H1 H2]. split; [exact H1|]. split.
    + intro E. destruct (H2 _ E) as [E' _]. discriminate.
    + intro E. destruct (H2 _ E) as [_ E']. auto.
  - destruct (at_time e <=? now w + slice) eqn:El.
    + intro H. apply Hb in H as [H1 H2]. split; [exact H1|]. split.
      * intro E. destruct (H2 _ E) as [_ E']. eauto.
      * intro E. destruct (H2 _ E) as [E' _]. discriminate.
    + apply Z.leb_gt in El.
      intro H. apply Hb in H as [H1 H2]. split; [exact H1|]. split.
      * intro E. destruct (H2 _ E) as [E' _]. discriminate.
      * intro E. destruct (H2 _ E) as [_ E']. auto.
Qed.

Lemma arrival_ordered_later e0 p evs0 e q :
  arrival_ordered (e0 :: p) -> p = evs0 ++ e :: q -> at_time e0 <= at_time e.
Proof.
  intros [H _] ->. rewrite Forall_forall in H. apply H.
  apply in_or_app. right. now left.
Qed.

Lemma arrival_ordered_first p evs0 e q :
  arrival_ordered p -> p = evs0 ++ e :: q ->
  match p with
  | [] => True
  | e0 :: _ => at_time e0 <= at_time e
  end.
Proof.
  intros H E. destruct p as [|e0 p]; [exact I|].
  destruct evs0 as [|e1 evs0]; simpl in E; injection E as -> E.
  - lia.
  - eapply arrival_ordered_later; eauto.
Qed.

Lemma not_before_ordered t e p :
  arrival_ordered (e :: p) -> t <= at_time e -> not_before t p.
Proof.
  intros [H _] Ht. unfold not_before. rewrite Forall_forall in *.
  intros x Hx. specialize (H x Hx). lia.
Qed.

Lemma not_before_first t p :
  arrival_ordered p ->
  match p with [] => True | e :: _ => t <= at_time e end ->
  not_before t p.
Proof.
  destruct p as [|e p]; intros Ho Ht; [constructor|].
  constructor; [exact Ht|]. eapply not_before_ordered; eauto.
Qed.

(** When the read results come in the order of their arrival: a loop that
    [stop] ended returns at the moment its last chunk arrived, or at once
    when the chunk was there already; and a loop that gave up, and was
    started before its deadline, leaves nothing unread that had arrived
    before the deadline, unless a failing read ended it. *)
Lemma poll_loop_arrivals fuel fd deadline slice guarded stop :
  0 <= slice ->
  forall buffer w r w',
    arrival_ordered (fd_pending fd w) ->
    poll_loop fuel fd deadline slice guarded stop buffer w = (r, w') ->
    (forall buf,
        r = Ret (true, buf) ->
        exists evs0 e,
          fd_pending fd w = evs0 ++ e :: fd_pending fd w'
          /\ now w' = Z.max (now w) (at_time e))
    /\ (forall buf,
          r = Ret (false, buf) ->
          now w < deadline \/ not_before deadline (fd_pending fd w) ->
          not_before deadline (fd_pending fd w')
          \/ (guarded = true
              /\ exists evs0 e,
                   fd_pending fd w = evs0 ++ e :: fd_pending fd w'
                   /\ payload e = ReadFails)).
Proof.
  intro Hs. induction fuel as [|fuel IH]; intros buffer w r w' Ho; simpl.
  - destruct (now w <? deadline) eqn:Et; intro H; injection H as <- <-.
    + split; intros buf E; discriminate.
    + apply Z.ltb_ge in Et. split; intros buf E; [discriminate|].
      intros [Hlt|Hnb]; [lia|now left].
  - destruct (now w <? deadline) eqn:Et.
    2:{ intro H; injection H as <- <-. apply Z.ltb_ge in Et.
        split; intros buf E; [discriminate|].
        intros [Hlt|Hnb]; [lia|now left]. }
    apply Z.ltb_lt in Et.
    destruct (select_select fd slice w) as [rs w1] eqn:Es.
    apply select_run in Es as (Hf1 & Hready & Hidle).
    assert (Hp1 : fd_pending fd w1 = fd_pending fd w)
      by (unfold fd_pending, get_fd; now rewrite Hf1).
    destruct rs as [[|]|e|].
    + (* readable *)
      destruct (Hready eq_refl) as (e & rest & Hpe & Hnow1).
      assert (Hpe1 : fd_pending fd w1 = e :: rest) by congruence.
      destruct (os_read_arrived fd 4096 w1 e rest Hpe1 ltac:(lia))
        as (w2 & Er & Hn2 & Hp2 & _).
      rewrite Er. rewrite Hpe in Ho.
      assert (Hcont : forall buffer0,
                 poll_loop fuel fd deadline slice guarded stop buffer0 w2
                 = (r, w') ->
                 (forall buf,
                     r = Ret (true, buf) ->
                     exists evs0 e1,
                       fd_pending fd w = evs0 ++ e1 :: fd_pending fd w'
                       /\ now w' = Z.max (now w) (at_time e1))
                 /\ (forall buf,
                       r = Ret (false, buf) ->
                       now w < deadline
                       \/ not_before deadline (fd_pending fd w) ->
                       not_before deadline (fd_pending fd w')
                       \/ (guarded = true
                           /\ exists evs0 e1,
                                fd_pending fd w
                                = evs0 ++ e1 :: fd_pending fd w'
                                /\ payload e1 = ReadFails))).
      { intros buffer0 H.
        assert (Ho2 : arrival_ordered (fd_pending fd w2))
          by (rewrite Hp2; exact (proj2 Ho)).
        destruct (IH buffer0 w2 r w' Ho2 H) as [IHt IHf]. split.
        - intros buf E. destruct (IHt buf E) as (evs0 & e1 & Hpend & Hn).
          exists (e :: evs0), e1. rewrite Hpe. rewrite Hp2 in Hpend.
          split; [simpl; now rewrite <- Hpend|].
          pose proof (arrival_ordered_later e rest evs0 e1 _ Ho Hpend). lia.
        - intros buf E _.
          assert (Hpre : now w2 < deadline
                         \/ not_before deadline (fd_pending fd w2)).
          { destruct (Z.lt_ge_cases (now w2) deadline) as [Hl|Hg];
              [now left|right].
            rewrite Hp2. eapply not_before_ordered; [exact Ho|]. lia. }
          destruct (IHf buf E Hpre) as [Hnb|(Hg & evs0 & e1 & Hpend & Hfail)];
            [now left|right].
          split; [exact Hg|]. exists (e :: evs0), e1.
          rewrite Hpe. rewrite Hp2 in Hpend.
          split; [simpl; now rewrite <- Hpend|exact Hfail]. }
      destruct (payload e) as [chunk|] eqn:Epay.
      * destruct (is_empty chunk); [apply Hcont|].
        destruct (stop buffer chunk); [|apply Hcont].
        intro H; injection H as <- <-. split; intros buf E; [|discriminate].
        exists [], e. rewrite Hpe, Hp2. split; [reflexivity|lia].
      * destruct guarded; simpl; intro H; injection H as <- <-;
          split; intros buf E; try discriminate.
        intros _. right. split; [reflexivity|].
        exists [], e. rewrite Hpe, Hp2. split; [reflexivity|exact Epay].
    + (* not readable within the slice *)
      destruct (Hidle eq_refl) as [Hn1 Hhead]. intro H.
      assert (Ho1 : arrival_ordered (fd_pending fd w1))
        by (rewrite Hp1; exact Ho).
      destruct (IH buffer w1 r w' Ho1 H) as [IHt IHf]. split.
      * intros buf E. destruct (IHt buf E) as (evs0 & e1 & Hpend & Hn).
        rewrite Hp1 in Hpend. exists evs0, e1. split; [exact Hpend|].
        pose proof (arrival_ordered_first _ evs0 e1 _ Ho Hpend) as Hfirst.
        destruct (fd_pending fd w) as [|e0 p0];
          [destruct evs0; discriminate|]. lia.
      * intros buf E _.
        assert (Hpre : now w1 < deadline
                       \/ not_before deadline (fd_pending fd w1)).
        { destruct (Z.lt_ge_cases (now w1) deadline) as [Hl|Hg];
            [now left|right].
          rewrite Hp1. apply not_before_first; [exact Ho|].
          destruct (fd_pending fd w) as [|e0 p0]; [exact I|lia]. }
        rewrite <- Hp1. exact (IHf buf E Hpre).
    + intro H; injection H as <- <-. split; intros buf E; discriminate.
    + intro H; injection H as <- <-. split; intros buf E; discriminate.
Qed.

End Polling.

Module PollingLoops.
Import Py OS Vocabulary PyFacts IOFacts Polling.
Local Open Scope io_scope.

Definition outcome_map {A B} (f : A -> B) (r : outcome A) : outcome B :=
  match r with
  | Ret a => Ret (f a)
  | Raise e => Raise e
  | Diverge => Diverge
  end.

(** [read_response] stops on a chunk that holds a line feed or a carriage
    return. *)
Definition read_response_stop (buffer chunk : pybytes) : bool :=
  bytes_contains LF chunk || bytes_contains CR chunk.

(** [send_command] stops when the reply holds a line feed. *)
Definition send_command_stop (reply chunk : pybytes) : bool :=
  bytes_contains LF (reply ++ chunk).

(** [sniff_for_gps] stops when a line of the buffer starts as a sentence. *)
Definition sniff_stop (captured chunk : pybytes) : bool :=
  UsbGpsMonitor.has_nmea_line (captured ++ chunk).

Ltac run_io := unfold bind, time_time, try_except, ret, diverge.

Lemma read_response_loop_poll fuel fd deadline buffer w :
  GpsInit.read_response_loop fuel fd deadline buffer w
  = (outcome_map snd
       (fst (poll_loop fuel fd deadline 100 false read_response_stop buffer w)),
     snd (poll_loop fuel fd deadline 100 false read_response_stop buffer w)).
Proof.
  revert buffer w. induction fuel as [|fuel IH]; intros buffer w; simpl;
    run_io; destruct (now w <? deadline); try reflexivity.
  destruct (select_select fd 100 w) as [[[|]|e|] w1]; simpl;
    try reflexivity; try apply IH.
  destruct (os_read fd 4096 w1) as [[chunk|e|] w2]; simpl; try reflexivity.
  destruct (is_empty chunk); [apply IH|].
  unfold read_response_stop.
  destruct (bytes_contains LF chunk || bytes_contains CR chunk);
    [reflexivity|apply IH].
Qed.

Lemma sniff_loop_poll fuel fd deadline captured w :
  UsbGpsMonitor.sniff_loop fuel fd deadline captured w
  = poll_loop fuel fd deadline 500 true sniff_stop captured w.
Proof.
  revert captured w. induction fuel as [|fuel IH]; intros captured w; simpl;
    run_io; destruct (now w <? deadline); try reflexivity.
  destruct (select_select fd 500 w) as [[[|]|e|] w1]; simpl;
    try reflexivity; try apply IH.
  destruct (os_read fd 4096 w1) as [[chunk|e|] w2]; simpl; try reflexivity.
  - destruct (is_empty chunk); [apply IH|].
    unfold sniff_stop.
    destruct (UsbGpsMonitor.has_nmea_line (captured ++ chunk));
      [reflexivity|apply IH].
  - destruct (is_OSError e); reflexivity.
Qed.

Lemma send_command_loop_poll fuel fd end_ reply w :
  UsbGpsMonitor.send_command_loop fuel fd end_ reply w
  = (outcome_map snd
       (fst (poll_loop fuel fd end_ 200 true send_command_stop reply w)),
     snd (poll_loop fuel fd end_ 200 true send_command_stop reply w)).
Proof.
  revert reply w. induction fuel as [|fuel IH]; intros reply w; simpl;
    run_io; destruct (now w <? end_); try reflexivity.
  destruct (select_select fd 200 w) as [[[|]|e|] w1]; simpl;
    try reflexivity; try apply IH.
  destruct (os_read fd 4096 w1) as [[chunk|e|] w2]; simpl; try reflexivity.
  - destruct (is_empty chunk); [apply IH|].
    unfold send_command_stop.
    destruct (bytes_contains LF (reply ++ chunk)); [reflexivity|apply IH].
  - destruct (is_OSError e); reflexivity.
Qed.

End PollingLoops.

(* ================================================================== *)
(** * Collecting a reply: where the loops stop *)
(* ================================================================== *)

Module ReplyCollection.
Import Py OS Vocabulary PyFacts IOFacts Scenarios Polling PollingLoops.
Local Open Scope io_scope.

(** A line terminator, as the specification has it. *)
Definition has_terminator (bs : pybytes) : bool :=
  bytes_contains LF bs || bytes_contains CR bs.

(** A loop that read [evs] and returned [buf] in the world [w'] collected
    until a line or the deadline, for the terminators [term]: [buf] is all
    that was read, and either the last chunk read brought the first
    terminator, or there is none and the deadline has passed. *)
Definition collected (term : pybytes -> bool) (deadline : Z)
  (evs : list event) (buf : pybytes) (w' : world) : Prop :=
  buf = bytes_of evs
  /\ ((exists evs0 e,
          evs = evs0 ++ [e]
          /\ term (bytes_of evs0) = false /\ term (bytes_of evs) = true)
      \/ (term buf = false /\ deadline <= now w')).

(** The same, for a loop that a failing read ends as well. *)
Definition collected_or_failed (term : pybytes -> bool) (deadline : Z)
  (evs : list event) (buf : pybytes) (w' : world) : Prop :=
  buf = bytes_of evs
  /\ ((exists evs0 e,
          evs = evs0 ++ [e]
          /\ term (bytes_of evs0) = false /\ term (bytes_of evs) = true)
      \/ (term buf = false /\ deadline <= now w')
      \/ (term buf = false
          /\ exists evs0 e, evs = evs0 ++ [e] /\ payload e = ReadFails)).

(** The claim of the specification for a reply loop on [fd] started in
    [w]. *)
Definition stops_at_line_or_deadline (loop : io pybytes) (fd deadline : Z)
  (w : world) : Prop :=
  forall buf w',
    loop w = (Ret buf, w') ->
    exists evs,
      fd_pending fd w = evs ++ fd_pending fd w'
      /\ collected has_terminator deadline evs buf w'.

(** The loop on [fd], started in [w], came back in [w'] at the moment the
    last chunk it read arrived, or at once when that chunk was there
    already. *)
Definition returned_on_arrival (fd : Z) (w w' : world) : Prop :=
  exists evs0 e,
    fd_pending fd w = evs0 ++ e :: fd_pending fd w'
    /\ now w' = Z.max (now w) (at_time e).

(** The last read of the loop failed. *)
Definition ended_by_failing_read (fd : Z) (w w' : world) : Prop :=
  exists evs0 e,
    fd_pending fd w = evs0 ++ e :: fd_pending fd w'
    /\ payload e = ReadFails.

Lemma bytes_contains_app b xs ys :
  bytes_contains b (xs ++ ys) = bytes_contains b xs || bytes_contains b ys.
Proof. apply existsb_app. Qed.

Lemma has_terminator_app xs ys :
  has_terminator (xs ++ ys) = has_terminator xs || has_terminator ys.
Proof.
  unfold has_terminator. rewrite !bytes_contains_app.
  destruct (bytes_contains LF xs), (bytes_contains LF ys),
    (bytes_contains CR xs), (bytes_contains CR ys); reflexivity.
Qed.

Lemma never_stopped_chunks buffer evs :
  never_stopped read_response_stop buffer evs ->
  has_terminator (bytes_of evs) = false.
Proof.
  revert buffer. induction evs as [|e evs IH]; intros buffer H; simpl in *.
  - reflexivity.
  - unfold bytes_of in *. simpl. destruct (payload e) as [chunk|].
    + destruct H as [H1 H2]. rewrite has_terminator_app.
      rewrite (IH _ H2), orb_false_r.
      destruct chunk as [|c chunk]; [reflexivity|].
      apply H1. discriminate.
    + simpl. eapply IH. exact H.
Qed.

Lemma never_stopped_buffer (P : pybytes -> bool) buffer evs :
  never_stopped (fun buf chunk => P (buf ++ chunk)) buffer evs ->
  P buffer = false -> P (buffer ++ bytes_of evs) = false.
Proof.
  revert buffer. induction evs as [|e evs IH]; intros buffer H HP; simpl in *.
  - now rewrite app_nil_r.
  - unfold bytes_of in *. simpl. destruct (payload e) as [chunk|].
    + destruct H as [H1 H2]. rewrite app_assoc. apply IH; [exact H2|].
      destruct chunk as [|c chunk]; [now rewrite app_nil_r|].
      apply H1. discriminate.
    + simpl. apply IH; assumption.
Qed.

(** What the loop of [read_response] returns. *)
Lemma read_response_loop_collects fd deadline w :
  stops_at_line_or_deadline
    (GpsInit.read_response_loop (poll_fuel fd deadline w) fd deadline [])
    fd deadline w.
Proof.
  intros buf w' E. rewrite read_response_loop_poll in E.
  destruct (poll_loop (poll_fuel fd deadline w) fd deadline 100 false
              read_response_stop [] w) as [r w1] eqn:Ep.
  simpl in E. injection E as Er <-.
  apply poll_loop_spec in Ep as (evs & Hpend & Hend & _); [|lia].
  exists evs. split; [exact Hpend|].
  inversion Hend; subst; simpl in Er; try discriminate;
    injection Er as <-; split; try reflexivity.
  - left. exists evs0, e. repeat split.
    + eapply never_stopped_chunks; eauto.
    + rewrite bytes_of_app, has_terminator_app.
      replace (bytes_of [e]) with chunk
        by (unfold bytes_of; simpl; rewrite H0, app_nil_r; reflexivity).
      unfold read_response_stop in H3. unfold has_terminator at 2.
      rewrite H3. apply orb_true_r.
  - right. split; [|assumption]. eapply never_stopped_chunks; eauto.
Qed.

(** What the reply loop of [send_command] returns. *)
Lemma send_command_loop_collects fd deadline w buf w' :
  UsbGpsMonitor.send_command_loop (poll_fuel fd deadline w) fd deadline [] w
  = (Ret buf, w') ->
  exists evs,
    fd_pending fd w = evs ++ fd_pending fd w'
    /\ collected_or_failed (bytes_contains LF) deadline evs buf w'.
Proof.
  intro E. rewrite send_command_loop_poll in E.
  destruct (poll_loop (poll_fuel fd deadline w) fd deadline 200 true
              send_command_stop [] w) as [r w1] eqn:Ep.
  simpl in E. injection E as Er <-.
  apply poll_loop_spec in Ep as (evs & Hpend & Hend & _); [|lia].
  exists evs. split; [exact Hpend|].
  assert (Hns : forall l, never_stopped send_command_stop [] l ->
                          bytes_contains LF (bytes_of l) = false).
  { intros l Hl.
    exact (never_stopped_buffer (bytes_contains LF) [] l Hl eq_refl). }
  inversion Hend; subst; simpl in Er; try discriminate;
    injection Er as <-; split; try reflexivity.
  - left. exists evs0, e. repeat split.
    + now apply Hns.
    + rewrite bytes_of_app.
      replace (bytes_of [e]) with chunk
        by (unfold bytes_of; simpl; rewrite H0, app_nil_r; reflexivity).
      exact H3.
  - right. left. split; [now apply Hns|assumption].
  - right. right. split.
    + rewrite bytes_of_app.
      replace (bytes_of [e]) with (@nil byte)
        by (unfold bytes_of; simpl; rewrite H1; reflexivity).
      rewrite app_nil_r. now apply Hns.
    + exists evs0, e. auto.
Qed.

(** With the steps [poll_fuel] grants, the loops end. *)
Lemma poll_loop_ends fd deadline slice guarded stop buffer w :
  0 < slice ->
  fst (poll_loop (poll_fuel fd deadline w) fd deadline slice guarded stop
         buffer w) <> Diverge.
Proof.
  intro Hs.
  destruct (poll_loop (poll_fuel fd deadline w) fd deadline slice guarded stop
              buffer w) as [r w'] eqn:Ep.
  apply poll_loop_spec in Ep as (evs & _ & _ & _ & _ & Hf); [|assumption].
  simpl. apply Hf. unfold poll_fuel. lia.
Qed.

(** How a loop that returned has ended. *)
Lemma ending_ret deadline guarded stop buffer evs w' b buf :
  ending deadline guarded stop buffer evs w' (Ret (b, buf)) ->
  buf = buffer ++ bytes_of evs
  /\ ((b = true
       /\ exists evs0 e chunk,
            evs = evs0 ++ [e] /\ payload e = Data chunk
            /\ never_stopped stop buffer evs0
            /\ stop (buffer ++ bytes_of evs0) chunk = true)
      \/ (b = false /\ never_stopped stop buffer evs)
      \/ (b = false /\ guarded = true
          /\ exists evs0 e,
               evs = evs0 ++ [e] /\ payload e = ReadFails
               /\ never_stopped stop buffer evs0)).
Proof.
  intro H. inversion H; subst; split; try reflexivity.
  - left. split; [reflexivity|]. eauto 10.
  - right. left. auto.
  - right. right. split; [reflexivity|]. split; [reflexivity|]. eauto 10.
Qed.

(** Whether [stop] ended the loop shows in the bytes returned. *)
Lemma read_response_stopped fuel fd deadline w b buf w' :
  poll_loop fuel fd deadline 100 false read_response_stop [] w
  = (Ret (b, buf), w') ->
  has_terminator buf = b.
Proof.
  intro Ep. apply poll_loop_spec in Ep as (evs & _ & Hend & _); [|lia].
  apply ending_ret in Hend as [-> Hcase]. simpl.
  destruct Hcase as [(-> & evs0 & e & chunk & -> & He & Hn & Hs)
                    |[(-> & Hn)|(_ & Hg & _)]].
  - rewrite bytes_of_app, has_terminator_app.
    replace (bytes_of [e]) with chunk
      by (unfold bytes_of; simpl; rewrite He, app_nil_r; reflexivity).
    unfold read_response_stop in Hs. unfold has_terminator at 2.
    rewrite Hs. apply orb_true_r.
  - eapply never_stopped_chunks; eauto.
  - discriminate.
Qed.

Lemma send_command_stopped fuel fd deadline w b buf w' :
  poll_loop fuel fd deadline 200 true send_command_stop [] w
  = (Ret (b, buf), w') ->
  bytes_contains LF buf = b.
Proof.
  intro Ep. apply poll_loop_spec in Ep as (evs & _ & Hend & _); [|lia].
  assert (Hns : forall l, never_stopped send_command_stop [] l ->
                          bytes_contains LF (bytes_of l) = false).
  { intros l Hl.
    exact (never_stopped_buffer (bytes_contains LF) [] l Hl eq_refl). }
  apply ending_ret in Hend as [-> Hcase]. simpl.
  destruct Hcase as [(-> & evs0 & e & chunk & -> & He & Hn & Hs)
                    |[(-> & Hn)|(-> & _ & evs0 & e & -> & He & Hn)]].
  - rewrite bytes_of_app.
    replace (bytes_of [e]) with chunk
      by (unfold bytes_of; simpl; rewrite He, app_nil_r; reflexivity).
    exact Hs.
  - now apply Hns.
  - rewrite bytes_of_app.
    replace (bytes_of [e]) with (@nil byte)
      by (unfold bytes_of; simpl; rewrite He; reflexivity).
    rewrite app_nil_r. now apply Hns.
Qed.

(** The loop of [read_response] keeps up with the line. *)
Lemma read_response_loop_keeps_up fd deadline w buf w' :
  arrival_ordered (fd_pending fd w) ->
  GpsInit.read_response_loop (poll_fuel fd deadline w) fd deadline [] w
  = (Ret buf, w') ->
  (has_terminator buf = true -> returned_on_arrival fd w w')
  /\ (has_terminator buf = false -> now w < deadline ->
      not_before deadline (fd_pending fd w')).
Proof.
  intros Ho E. rewrite read_response_loop_poll in E.
  destruct (poll_loop (poll_fuel fd deadline w) fd deadline 100 false
              read_response_stop [] w) as [r w1] eqn:Ep.
  destruct r as [[b buf0]|e|]; simpl in E; try discriminate.
  injection E as <- <-.
  pose proof (read_response_stopped _ _ _ _ _ _ _ Ep) as Hb.
  destruct (poll_loop_arrivals (poll_fuel fd deadline w) fd deadline 100
              false read_response_stop ltac:(lia) [] w _ _ Ho Ep)
    as [Ht Hf].
  split.
  - intro Hterm. apply (Ht buf0). congruence.
  - intros Hterm Hlt.
    destruct (Hf buf0 ltac:(congruence) (or_introl Hlt)) as [Hnb|[Hg _]];
      [exact Hnb|discriminate].
Qed.

(** The reply loop of [send_command] keeps up with the line. *)
Lemma send_command_loop_keeps_up fd deadline w buf w' :
  arrival_ordered (fd_pending fd w) ->
  UsbGpsMonitor.send_command_loop (poll_fuel fd deadline w) fd deadline [] w
  = (Ret buf, w') ->
  (bytes_contains LF buf = true -> returned_on_arrival fd w w')
  /\ (bytes_contains LF buf = false -> now w < deadline ->
      not_before deadline (fd_pending fd w')
      \/ ended_by_failing_read fd w w').
Proof.
  intros Ho E. rewrite send_command_loop_poll in E.
  destruct (poll_loop (poll_fuel fd deadline w) fd deadline 200 true
              send_command_stop [] w) as [r w1] eqn:Ep.
  destruct r as [[b buf0]|e|]; simpl in E; try discriminate.
  injection E as <- <-.
  pose proof (send_command_stopped _ _ _ _ _ _ _ Ep) as Hb.
  destruct (poll_loop_arrivals (poll_fuel fd deadline w) fd deadline 200
              true send_command_stop ltac:(lia) [] w _ _ Ho Ep)
    as [Ht Hf].
  split.
  - intro Hterm. apply (Ht buf0). congruence.
  - intros Hterm Hlt.
    destruct (Hf buf0 ltac:(congruence) (or_introl Hlt)) as [Hnb|[_ Hfail]];
      [now left|now right].
Qed.

(** C3, as amended.  The loop of [read_response] stops as soon as a chunk
    with a line feed or a carriage return has been read, and otherwise goes
    on until the deadline has passed.  The reply loop of [send_command]
    stops as soon as the reply holds a line feed, and otherwise goes on
    until the deadline has passed or a read fails; a carriage return alone
    does not stop it.  Both return all the bytes read, possibly none, and
    both end.  Both keep up with a line that delivers in the order of
    arrival: stopped by a terminator they return at the moment the chunk
    that brought it arrived, and giving up at a deadline that lay ahead
    they leave nothing unread that had arrived before it. *)
Theorem reply_loops_stop :
  forall (fd deadline : Z) (w : world),
    stops_at_line_or_deadline
      (GpsInit.read_response_loop (poll_fuel fd deadline w) fd deadline [])
      fd deadline w
    /\ (forall buf w',
          UsbGpsMonitor.send_command_loop (poll_fuel fd deadline w) fd
            deadline [] w = (Ret buf, w') ->
          exists evs,
            fd_pending fd w = evs ++ fd_pending fd w'
            /\ collected_or_failed (bytes_contains LF) deadline evs buf w')
    /\ fst (GpsInit.read_response_loop (poll_fuel fd deadline w) fd
              deadline [] w) <> Diverge
    /\ fst (UsbGpsMonitor.send_command_loop (poll_fuel fd deadline w) fd
              deadline [] w) <> Diverge
    /\ (arrival_ordered (fd_pending fd w) ->
        forall buf w',
          GpsInit.read_response_loop (poll_fuel fd deadline w) fd
            deadline [] w = (Ret buf, w') ->
          (has_terminator buf = true -> returned_on_arrival fd w w')
          /\ (has_terminator buf = false -> now w < deadline ->
              not_before deadline (fd_pending fd w')))
    /\ (arrival_ordered (fd_pending fd w) ->
        forall buf w',
          UsbGpsMonitor.send_command_loop (poll_fuel fd deadline w) fd
            deadline [] w = (Ret buf, w') ->
          (bytes_contains LF buf = true -> returned_on_arrival fd w w')
          /\ (bytes_contains LF buf = false -> now w < deadline ->
              not_before deadline (fd_pending fd w')
              \/ ended_by_failing_read fd w w')).
Proof.
  intros fd deadline w. split; [|split; [|split; [|split; [|split]]]].
  - apply read_response_loop_collects.
  - apply send_command_loop_collects.
  - rewrite read_response_loop_poll. cbn [fst].
    pose proof (poll_loop_ends fd deadline 100 false read_response_stop [] w
                  ltac:(lia)) as H. revert H.
    destruct (fst (poll_loop (poll_fuel fd deadline w) fd deadline 100 false
                     read_response_stop [] w)); simpl; congruence.
  - rewrite send_command_loop_poll. cbn [fst].
    pose proof (poll_loop_ends fd deadline 200 true send_command_stop [] w
                  ltac:(lia)) as H. revert H.
    destruct (fst (poll_loop (poll_fuel fd deadline w) fd deadline 200 true
                     send_command_stop [] w)); simpl; congruence.
  - intros Ho buf w'. now apply read_response_loop_keeps_up.
  - intros Ho buf w'. now apply send_command_loop_keeps_up.
Qed.

(** A reply that ends in a carriage return, followed by more bytes. *)
Definition cr_then_more : world :=
  opened silent [ chunk_at 0 (bytes_lit "OK" ++ [CR]);
                  chunk_at 10 (bytes_lit "X") ].

(** C3 fails as stated for [send_command]: after the carriage return it
    reads on, and returns at the deadline with both chunks. *)
Lemma send_command_cr_counterexample :
  ~ stops_at_line_or_deadline
      (UsbGpsMonitor.send_command_loop (poll_fuel 3 1500 cr_then_more)
         3 1500 [])
      3 1500 cr_then_more.
Proof.
  intro H.
  destruct (UsbGpsMonitor.send_command_loop (poll_fuel 3 1500 cr_then_more)
              3 1500 [] cr_then_more) as [r w'] eqn:E.
  vm_compute in E. injection E as <- <-.
  specialize (H _ _ eq_refl) as (evs & Hp & Hb & Hc).
  simpl in Hp. rewrite app_nil_r in Hp. subst evs.
  destruct Hc as [(evs0 & e & He & H0 & H1)|[H0 _]].
  - destruct evs0 as [|e1 [|e2 evs0]]; try discriminate.
    + injection He as <- _. vm_compute in H0. discriminate.
    + injection He as _ _ He. destruct evs0; discriminate.
  - vm_compute in H0. discriminate.
Qed.

End ReplyCollection.

Module ReplyCollectionCases.
Import Py OS Vocabulary PyFacts IOFacts Scenarios Polling PollingLoops
  ReplyCollection.

(** A receiver that acknowledges at once. *)
Definition acknowledged : world :=
  opened silent [ chunk_at 0 (bytes_lit "<OK" ++ [CR; LF]) ].

(** A reply that comes without its terminator; more follows long after the
    deadline. *)
Definition unfinished : world :=
  opened silent [ chunk_at 200 (bytes_lit "<OK");
                  chunk_at 5000 (bytes_lit "late" ++ [LF]) ].

Lemma reply_loops_stop_witness :
  (fst (GpsInit.read_response_loop (poll_fuel 3 1500 acknowledged)
          3 1500 [] acknowledged)
   = Ret (bytes_lit "<OK" ++ [CR; LF])
   /\ (exists evs,
         fd_pending 3 acknowledged
         = evs ++ fd_pending 3
                    (snd (GpsInit.read_response_loop
                            (poll_fuel 3 1500 acknowledged) 3 1500 []
                            acknowledged))
         /\ collected has_terminator 1500 evs (bytes_lit "<OK" ++ [CR; LF])
              (snd (GpsInit.read_response_loop
                      (poll_fuel 3 1500 acknowledged) 3 1500 []
                      acknowledged)))
   /\ returned_on_arrival 3 acknowledged
        (snd (GpsInit.read_response_loop (poll_fuel 3 1500 acknowledged)
                3 1500 [] acknowledged)))
  /\ (fst (GpsInit.read_response_loop (poll_fuel 3 1500 unfinished)
             3 1500 [] unfinished)
      = Ret (bytes_lit "<OK")
      /\ now (snd (GpsInit.read_response_loop (poll_fuel 3 1500 unfinished)
                     3 1500 [] unfinished)) = 1500
      /\ not_before 1500
           (fd_pending 3
              (snd (GpsInit.read_response_loop (poll_fuel 3 1500 unfinished)
                      3 1500 [] unfinished))))
  /\ (fst (UsbGpsMonitor.send_command_loop (poll_fuel 3 1500 acknowledged)
             3 1500 [] acknowledged)
      = Ret (bytes_lit "<OK" ++ [CR; LF])
      /\ exists evs,
           fd_pending 3 acknowledged
           = evs ++ fd_pending 3
                      (snd (UsbGpsMonitor.send_command_loop
                              (poll_fuel 3 1500 acknowledged) 3 1500 []
                              acknowledged))
           /\ collected_or_failed (bytes_contains LF) 1500 evs
                (bytes_lit "<OK" ++ [CR; LF])
                (snd (UsbGpsMonitor.send_command_loop
                        (poll_fuel 3 1500 acknowledged) 3 1500 []
                        acknowledged))).
Proof.
  assert (Ha : arrival_ordered (fd_pending 3 acknowledged))
    by (simpl; repeat constructor).
  assert (Hu : arrival_ordered (fd_pending 3 unfinished))
    by (simpl; repeat constructor; simpl; lia).
  split; [|split].
  - split; [vm_compute; reflexivity|]. split.
    + apply (proj1 (reply_loops_stop 3 1500 acknowledged)).
      vm_compute. reflexivity.
    + apply (proj1 (proj2 (proj2 (proj2 (proj2
                (reply_loops_stop 3 1500 acknowledged)))))
               Ha (bytes_lit "<OK" ++ [CR; LF])).
      * vm_compute. reflexivity.
      * reflexivity.
  - split; [vm_compute; reflexivity|]. split; [vm_compute; reflexivity|].
    apply (proj1 (proj2 (proj2 (proj2 (proj2
              (reply_loops_stop 3 1500 unfinished)))))
             Hu (bytes_lit "<OK")).
    + vm_compute. reflexivity.
    + reflexivity.
    + vm_compute. reflexivity.
  - split; [vm_compute; reflexivity|].
    apply (proj1 (proj2 (reply_loops_stop 3 1500 acknowledged))).
    vm_compute. reflexivity.
Defined.

End ReplyCollectionCases.

(* ================================================================== *)
(** * [read_response] returns in bounded time *)
(* ================================================================== *)

Module ResponseTime.
Import Py OS Vocabulary PyFacts IOFacts Scenarios Polling PollingLoops
  ReplyCollection.
Local Open Scope io_scope.

Definition response_text (buffer : pybytes) : pystr :=
  if is_empty buffer then [] else strip (decode_ascii_replace buffer).

Lemma read_response_run fd timeout w :
  GpsInit.read_response fd timeout w
  = (outcome_map response_text
       (fst (GpsInit.read_response_loop
               (poll_fuel fd (now w + timeout) w) fd (now w + timeout) [] w)),
     snd (GpsInit.read_response_loop
            (poll_fuel fd (now w + timeout) w) fd (now w + timeout) [] w)).
Proof.
  unfold GpsInit.read_response, bind, time_time. unfold response_text.
  destruct (GpsInit.read_response_loop (poll_fuel fd (now w + timeout) w) fd
              (now w + timeout) [] w) as [[buffer|e|] w1]; simpl;
    try reflexivity.
  destruct (is_empty buffer); reflexivity.
Qed.

(** C4.  Whatever the descriptor delivers, and when it delivers nothing,
    [read_response] ends, and the clock has then advanced by no more than
    the timeout and one poll slice of 100 ms. *)
Theorem read_response_bounded :
  forall (fd timeout : Z) (w : world),
    fst (GpsInit.read_response fd timeout w) <> Diverge
    /\ now w <= now (snd (GpsInit.read_response fd timeout w))
    /\ now (snd (GpsInit.read_response fd timeout w))
       <= now w + Z.max 0 (timeout + 100).
Proof.
  intros fd timeout w. rewrite read_response_run. cbn [fst snd].
  rewrite read_response_loop_poll. cbn [fst snd].
  destruct (poll_loop (poll_fuel fd (now w + timeout) w) fd (now w + timeout)
              100 false read_response_stop [] w) as [r w'] eqn:Ep.
  apply poll_loop_spec in Ep as (evs & _ & _ & Hle & Ht & Hf); [|lia].
  cbn [fst snd]. repeat split.
  - assert (Hr : r <> Diverge) by (apply Hf; unfold poll_fuel; lia).
    destruct r; simpl; congruence.
  - exact Hle.
  - lia.
Qed.

End ResponseTime.

(* ================================================================== *)
(** * Sniffing for sentences *)
(* ================================================================== *)

Module Sniffing.
Import Py OS Vocabulary PyFacts IOFacts Scenarios Polling PollingLoops
  ReplyCollection.
Local Open Scope io_scope.

Lemma sniff_for_gps_run fd timeout w :
  UsbGpsMonitor.sniff_for_gps fd timeout w
  = poll_loop (poll_fuel fd (now w + timeout) w) fd (now w + timeout) 500
      true sniff_stop [] w.
Proof.
  unfold UsbGpsMonitor.sniff_for_gps, bind, time_time.
  apply sniff_loop_poll.
Qed.





End Sniffing.

(* ================================================================== *)
(** * The streaming loop of [gps_run] *)
(* ================================================================== *)

Module Streaming.
Import Py OS Vocabulary PyFacts IOFacts Scenarios Polling.
Local Open Scope io_scope.

(** The lines a chunk contributes to the output: its non-empty lines,
    decoded, and with the filter on only those that start with [$] or
    [<]. *)
Definition emitted (nmea_only : bool) (data : pybytes) : list pystr :=
  filter (fun text =>
            negb nmea_only
            || str_startswith text (str "$") || str_startswith text (str "<"))
    (map decode_ascii_replace
       (filter (fun line => negb (is_empty line)) (bytes_splitlines data))).

(** The chunks of a run of read results. *)
Definition chunks_of (evs : list event) : list pybytes :=
  flat_map (fun e => match payload e with
                     | Data chunk => [chunk]
                     | ReadFails => []
                     end) evs.

Lemma emit_lines_run nmea_only lines w :
  exists w',
    for_each lines (GpsRun.emit_line nmea_only) w = (Ret tt, w')
    /\ stdout w' = stdout w
         ++ filter (fun text =>
                      negb nmea_only || str_startswith text (str "$")
                      || str_startswith text (str "<"))
              (map decode_ascii_replace
                 (filter (fun line => negb (is_empty line)) lines))
    /\ fdtab w' = fdtab w /\ now w' = now w.
Proof.
  revert w. induction lines as [|line lines IH]; intro w; simpl.
  - exists w. rewrite app_nil_r. auto.
  - unfold bind. unfold GpsRun.emit_line at 1.
    destruct (is_empty line) eqn:El; simpl.
    + apply IH.
    + destruct nmea_only; simpl.
      * destruct (str_startswith (decode_ascii_replace line) (str "$")
                  || str_startswith (decode_ascii_replace line) (str "<"))
          eqn:Es; simpl.
        -- destruct (IH (put_line (decode_ascii_replace line) w))
             as (w' & E & Hs & Hf & Hn).
           exists w'. rewrite E, Hs. simpl. rewrite <- app_assoc. auto.
        -- apply IH.
      * destruct (IH (put_line (decode_ascii_replace line) w))
          as (w' & E & Hs & Hf & Hn).
        exists w'. rewrite E, Hs. simpl. rewrite <- app_assoc. auto.
Qed.

Lemma block_until_stdout {A} t (a : A) w :
  stdout (snd (block_until t a w)) = stdout w.
Proof.
  unfold block_until. destruct (interrupt_at w) as [ti|]; [|reflexivity].
  destruct (ti <=? t); reflexivity.
Qed.

Lemma select_stdout fd slice w :
  stdout (snd (select_select fd slice w)) = stdout w.
Proof.
  unfold select_select. destruct (get_fd fd w) as [f|]; [|reflexivity].
  destruct (of_pending f) as [|e p]; [apply block_until_stdout|].
  destruct (at_time e <=? now w + slice); apply block_until_stdout.
Qed.

Lemma os_read_stdout fd n w : stdout (snd (os_read fd n w)) = stdout w.
Proof.
  unfold os_read. destruct (get_fd fd w) as [f|]; [|reflexivity].
  destruct (of_pending f) as [|e p].
  - destruct (of_nonblock f); reflexivity.
  - destruct (at_time e <=? now w).
    + destruct (payload e); reflexivity.
    + destruct (of_nonblock f); reflexivity.
Qed.

Lemma os_close_stdout fd w : stdout (snd (os_close fd w)) = stdout w.
Proof.
  unfold os_close. destruct (get_fd fd (log (EvClose fd) w)); reflexivity.
Qed.

Lemma stream_output_loop_step fuel fd nmea_only w :
  GpsRun.stream_output_loop (S fuel) fd nmea_only w
  = (ready <- select_select fd 1000 ;;
     if negb ready then GpsRun.stream_output_loop fuel fd nmea_only
     else
       data <- os_read fd 4096 ;;
       if is_empty data then GpsRun.stream_output_loop fuel fd nmea_only
       else
         for_each (bytes_splitlines data) (GpsRun.emit_line nmea_only) ;;
         GpsRun.stream_output_loop fuel fd nmea_only) w.
Proof. reflexivity. Qed.

(** The loop prints, chunk after chunk, the lines each chunk contributes. *)
Lemma stream_output_loop_prints fuel fd nmea_only :
  forall w r w',
    GpsRun.stream_output_loop fuel fd nmea_only w = (r, w') ->
    exists evs,
      fd_pending fd w = evs ++ fd_pending fd w'
      /\ stdout w' = stdout w ++ flat_map (emitted nmea_only) (chunks_of evs).
Proof.
  induction fuel as [|fuel IH]; intros w r w'.
  - simpl. intro H. injection H as <- <-.
    exists []. simpl. now rewrite app_nil_r.
  - rewrite stream_output_loop_step. unfold bind at 1.
    pose proof (select_stdout fd 1000 w) as Hso.
    destruct (select_select fd 1000 w) as [rs w1] eqn:Es. simpl in Hso.
    apply select_spec in Es as (Hf1 & Hn1 & Hd1 & Hready & Hidle); [|lia].
    assert (Hp1 : fd_pending fd w1 = fd_pending fd w)
      by (unfold fd_pending, get_fd; now rewrite Hf1).
    destruct rs as [[|]|e|]; cbn [negb].
    + destruct (Hready eq_refl) as (e & rest & Hpe & Hat).
      rewrite <- Hp1 in Hpe.
      destruct (os_read_arrived fd 4096 w1 e rest Hpe Hat)
        as (w2 & Er & Hn2 & Hp2 & _).
      pose proof (os_read_stdout fd 4096 w1) as Hro. rewrite Er in Hro.
      simpl in Hro.
      unfold bind at 1. rewrite Er.
      destruct (payload e) as [chunk|] eqn:Epay.
      * destruct (is_empty chunk) eqn:Ec.
        -- apply is_empty_true in Ec. subst chunk. intro H.
           apply IH in H as (evs & Hpend & Hout).
           exists (e :: evs). rewrite <- Hp1, Hpe. split.
           ++ simpl. f_equal. rewrite <- Hp2. exact Hpend.
           ++ rewrite Hout, Hro, Hso. unfold chunks_of. simpl.
              rewrite Epay. reflexivity.
        -- unfold bind at 1.
           destruct (emit_lines_run nmea_only (bytes_splitlines chunk) w2)
             as (w3 & Ee & Hs3 & Hf3 & Hn3).
           rewrite Ee.
           assert (Hp3 : fd_pending fd w3 = fd_pending fd w2)
             by (unfold fd_pending, get_fd; now rewrite Hf3).
           intro H. apply IH in H as (evs & Hpend & Hout).
           exists (e :: evs). rewrite <- Hp1, Hpe. split.
           ++ simpl. f_equal. rewrite <- Hp2, <- Hp3. exact Hpend.
           ++ rewrite Hout, Hs3, Hro, Hso. unfold chunks_of. simpl.
              rewrite Epay. simpl. rewrite <- app_assoc. reflexivity.
      * intro H. injection H as <- <-.
        exists [e]. rewrite <- Hp1, Hpe, Hp2. split; [reflexivity|].
        unfold chunks_of. simpl. rewrite Epay. simpl.
        rewrite app_nil_r. congruence.
    + intro H. apply IH in H as (evs & Hpend & Hout).
      exists evs. rewrite <- Hp1. split; [exact Hpend|]. now rewrite Hout, Hso.
    + intro H. injection H as <- <-.
      exists []. simpl. rewrite app_nil_r. auto.
    + contradiction.
Qed.

(** Printing the lines of a chunk touches neither the clock, the
    descriptors nor a pending interrupt. *)
Lemma emit_lines_keeps nmea_only lines w :
  exists w',
    for_each lines (GpsRun.emit_line nmea_only) w = (Ret tt, w')
    /\ fdtab w' = fdtab w /\ now w' = now w
    /\ interrupt_at w' = interrupt_at w.
Proof.
  revert w. induction lines as [|line lines IH]; intro w; simpl.
  - exists w. auto.
  - unfold bind. unfold GpsRun.emit_line at 1.
    destruct (is_empty line); simpl; [apply IH|].
    destruct (nmea_only
              && negb (str_startswith (decode_ascii_replace line) (str "$")
                       || str_startswith (decode_ascii_replace line) (str "<")));
      simpl; [apply IH|].
    destruct (IH (put_line (decode_ascii_replace line) w))
      as (w' & E & Hf & Hn & Hi).
    exists w'. rewrite E. auto.
Qed.

(** The wait of an iteration on an open descriptor, with an interrupt to
    come at [ti]: it returns before [ti], with a read result that has
    arrived or after the whole slice; or the interrupt is delivered, and
    then no read result was due before it. *)
Lemma select_interruptible fd slice f ti w r w' :
  0 <= slice ->
  get_fd fd w = Some f -> interrupt_at w = Some ti ->
  select_select fd slice w = (r, w') ->
  fdtab w' = fdtab w
  /\ ((exists ready,
          r = Ret ready /\ interrupt_at w' = Some ti
          /\ now w <= now w' < ti
          /\ (ready = true ->
              exists e rest, of_pending f = e :: rest /\ at_time e <= now w')
          /\ (ready = false -> now w' = now w + slice))
      \/ (r = Raise KeyboardInterrupt
          /\ (now w < ti ->
              match of_pending f with
              | [] => True
              | e :: _ => ti <= at_time e
              end))).
Proof.
  intros Hs Hf Hi. unfold select_select. rewrite Hf.
  destruct (of_pending f) as [|e rest].
  - unfold block_until. rewrite Hi.
    destruct (ti <=? now w + slice) eqn:Et; intro H; injection H as <- <-;
      (split; [reflexivity|]).
    + right. auto.
    + left. exists false. apply Z.leb_gt in Et. simpl.
      repeat split; try assumption; try lia; discriminate.
  - destruct (at_time e <=? now w + slice) eqn:Ea; unfold block_until;
      rewrite Hi.
    + destruct (ti <=? Z.max (now w) (at_time e)) eqn:Et; intro H;
        injection H as <- <-; (split; [reflexivity|]).
      * right. split; [reflexivity|]. apply Z.leb_le in Et. lia.
      * left. exists true. apply Z.leb_gt in Et. simpl.
        repeat split; try assumption; try lia; try discriminate.
        intros _. exists e, rest. split; [reflexivity|lia].
    + destruct (ti <=? now w + slice) eqn:Et; intro H;
        injection H as <- <-; (split; [reflexivity|]).
      * right. split; [reflexivity|]. apply Z.leb_le in Et.
        apply Z.leb_gt in Ea. lia.
      * left. exists false. apply Z.leb_gt in Et. simpl.
        repeat split; try assumption; try lia; discriminate.
Qed.

(** A read of a result that has arrived, on an open descriptor. *)
Lemma os_read_due fd n f e rest w :
  get_fd fd w = Some f -> of_pending f = e :: rest -> at_time e <= now w ->
  exists w',
    os_read fd n w
    = (match payload e with
       | Data chunk => Ret chunk
       | ReadFails => Raise OSError
       end, w')
    /\ now w' = now w
    /\ get_fd fd w' = Some (with_pending rest f)
    /\ interrupt_at w' = interrupt_at w.
Proof.
  intros Hf Hp Ht. unfold os_read. rewrite Hf, Hp.
  apply Z.leb_le in Ht. rewrite Ht.
  eexists. split; [destruct (payload e); reflexivity|].
  simpl. repeat split. unfold get_fd. simpl.
  apply lookup_update with (v0 := f). exact Hf.
Qed.

(** No read of the line fails. *)
Definition all_data (p : list event) : Prop :=
  Forall (fun e => payload e <> ReadFails) p.

(** The read results that arrive before [ti]. *)
Definition arrived_before (ti : Z) (p : list event) : list event :=
  filter (fun e => at_time e <? ti) p.

Lemma arrived_before_split ti evs rest :
  Forall (fun e => at_time e < ti) evs -> not_before ti rest ->
  arrived_before ti (evs ++ rest) = evs.
Proof.
  intros He Hr. unfold arrived_before. rewrite filter_app.
  assert (E1 : filter (fun e => at_time e <? ti) evs = evs).
  { induction He as [|e evs H _ IH]; [reflexivity|]. simpl.
    apply Z.ltb_lt in H. rewrite H. now rewrite IH. }
  assert (E2 : filter (fun e => at_time e <? ti) rest = []).
  { induction Hr as [|e rest H _ IH]; [reflexivity|]. simpl.
    apply Z.ltb_ge in H. now rewrite H. }
  rewrite E1, E2. apply app_nil_r.
Qed.

(** On an open line whose reads do not fail and deliver in the order of
    arrival, the loop runs until the interrupt: it has then read every
    result that arrived before it, and nothing else. *)
Lemma stream_output_loop_interrupted fd nmea_only ti :
  forall fuel w f,
    get_fd fd w = Some f ->
    all_data (of_pending f) -> arrival_ordered (of_pending f) ->
    interrupt_at w = Some ti -> now w < ti ->
    (length (of_pending f) + Z.to_nat (ti - now w) < fuel)%nat ->
    exists w' f',
      GpsRun.stream_output_loop fuel fd nmea_only w
      = (Raise KeyboardInterrupt, w')
      /\ get_fd fd w' = Some f'
      /\ exists evs,
           of_pending f = evs ++ of_pending f'
           /\ Forall (fun e => at_time e < ti) evs
           /\ not_before ti (of_pending f').
Proof.
  induction fuel as [|fuel IH]; intros w f Hf Hd Ho Hi Hn Hfuel; [lia|].
  rewrite stream_output_loop_step. unfold bind at 1.
  destruct (select_select fd 1000 w) as [rs w1] eqn:Es.
  apply (select_interruptible fd 1000 f ti) in Es
    as (Hf1 & [(ready & -> & Hi1 & Hn1 & Hready & Hidle) | (-> & Hhead)]);
    [| | lia | exact Hf | exact Hi].
  - assert (Hg1 : get_fd fd w1 = Some f)
      by (unfold get_fd in *; now rewrite Hf1).
    destruct ready; cbn [negb].
    + destruct (Hready eq_refl) as (e & rest & Hpe & Hat).
      destruct (os_read_due fd 4096 f e rest w1 Hg1 Hpe Hat)
        as (w2 & Er & Hn2 & Hg2 & Hi2).
      unfold bind at 1. rewrite Er.
      rewrite Hpe in Hd, Ho, Hfuel.
      assert (Hde : payload e <> ReadFails) by (now inversion Hd).
      assert (Hdr : all_data rest) by (now inversion Hd).
      destruct Ho as [_ Hor].
      destruct (payload e) as [chunk|] eqn:Epay; [|congruence].
      simpl in Hfuel.
      destruct (is_empty chunk) eqn:Ec.
      * destruct (IH w2 (with_pending rest f) Hg2 Hdr Hor) as
          (w' & f' & El & Hg' & evs & Hp' & Hlt & Hnb);
          [congruence | lia | simpl; lia |].
        exists w', f'. split; [exact El|]. split; [exact Hg'|].
        exists (e :: evs). simpl in Hp'. rewrite Hpe, Hp'.
        split; [reflexivity|]. split; [|exact Hnb].
        constructor; [lia|exact Hlt].
      * unfold bind at 1.
        destruct (emit_lines_keeps nmea_only (bytes_splitlines chunk) w2)
          as (w3 & Ee & Hf3 & Hn3 & Hi3).
        rewrite Ee.
        assert (Hg3 : get_fd fd w3 = Some (with_pending rest f))
          by (unfold get_fd in *; now rewrite Hf3).
        destruct (IH w3 (with_pending rest f) Hg3 Hdr Hor) as
          (w' & f' & El & Hg' & evs & Hp' & Hlt & Hnb);
          [congruence | lia | simpl; lia |].
        exists w', f'. split; [exact El|]. split; [exact Hg'|].
        exists (e :: evs). simpl in Hp'. rewrite Hpe, Hp'.
        split; [reflexivity|]. split; [|exact Hnb].
        constructor; [lia|exact Hlt].
    + specialize (Hidle eq_refl).
      destruct (IH w1 f Hg1 Hd Ho) as
        (w' & f' & El & Hg' & evs & Hp' & Hlt & Hnb);
        [congruence | lia | lia |].
      exists w', f'. split; [exact El|]. split; [exact Hg'|].
      exists evs. auto.
  - exists w1, f. split; [reflexivity|].
    split; [unfold get_fd in *; now rewrite Hf1|].
    exists []. split; [reflexivity|]. split; [constructor|].
    apply not_before_first; [exact Ho|]. apply Hhead. exact Hn.
Qed.

(** Hence the whole of [stream_output] on such a line: it returns, and it
    has printed the lines of exactly the chunks that arrived before the
    interrupt. *)
Lemma stream_output_interrupted fuel fd nmea_only ti w f :
  get_fd fd w = Some f ->
  all_data (of_pending f) -> arrival_ordered (of_pending f) ->
  interrupt_at w = Some ti -> now w < ti ->
  (length (of_pending f) + Z.to_nat (ti - now w) < fuel)%nat ->
  fst (GpsRun.stream_output fuel fd nmea_only w) = Ret tt
  /\ stdout (snd (GpsRun.stream_output fuel fd nmea_only w))
     = stdout w
       ++ flat_map (emitted nmea_only)
            (chunks_of (arrived_before ti (of_pending f))).
Proof.
  intros Hf Hd Ho Hi Hn Hfuel.
  destruct (stream_output_loop_interrupted fd nmea_only ti fuel w f
              Hf Hd Ho Hi Hn Hfuel)
    as (w1 & f1 & El & Hg1 & evs & Hp & Hlt & Hnb).
  destruct (stream_output_loop_prints fuel fd nmea_only w _ w1 El)
    as (evs' & Hpend & Hout).
  unfold fd_pending in Hpend. rewrite Hf, Hg1, Hp in Hpend.
  apply app_inv_tail in Hpend. subst evs'.
  rewrite Hp, (arrived_before_split ti evs _ Hlt Hnb).
  unfold GpsRun.stream_output, try_finally, try_except. rewrite El.
  cbn [is_KeyboardInterrupt ret].
  pose proof (os_close_stdout fd w1) as Hc.
  unfold os_close in *.
  assert (Hgl : get_fd fd (log (EvClose fd) w1) = Some f1) by exact Hg1.
  rewrite Hgl in *. simpl in *. split; [reflexivity|]. congruence.
Qed.

(** A line that has the given bytes ready to read, and a user who
    interrupts after two and a half seconds. *)
Definition interrupted_line (data : pybytes) : world :=
  {| now := 0;
     devices := [];
     fdtab := [(3, {| of_dev := silent; of_attrs := default_attrs;
                      of_nonblock := false;
                      of_pending := [chunk_at 0 data] |})];
     next_fd := 4;
     trace := [];
     stdout := [];
     interrupt_at := Some 2500 |}.

(** C9.  [stream_output] prints, for the chunks it reads and in the order
    it reads them, the non-empty lines of each chunk decoded as ASCII with
    substitution, and with the filter on only the lines that start with [$]
    or [<]; it prints nothing else, and the chunks it has read are the
    ones its loop has taken off the line.  On an open line whose reads do
    not fail and deliver in the order of arrival, it reads every chunk
    that arrives before the user interrupts: it then returns, having
    printed the lines of exactly those chunks.  Run on the two chunks of
    the scenario, it prints two lines without the filter and none with
    it. *)
Theorem stream_output_emits :
  forall (fuel : nat) (fd : Z) (nmea_only : bool) (w : world),
    (exists evs,
        fd_pending fd w
        = evs ++ fd_pending fd
                   (snd (GpsRun.stream_output_loop fuel fd nmea_only w))
        /\ stdout (snd (GpsRun.stream_output fuel fd nmea_only w))
           = stdout w ++ flat_map (emitted nmea_only) (chunks_of evs))
    /\ (forall f ti,
          get_fd fd w = Some f ->
          all_data (of_pending f) -> arrival_ordered (of_pending f) ->
          interrupt_at w = Some ti -> now w < ti ->
          (length (of_pending f) + Z.to_nat (ti - now w) < fuel)%nat ->
          fst (GpsRun.stream_output fuel fd nmea_only w) = Ret tt
          /\ stdout (snd (GpsRun.stream_output fuel fd nmea_only w))
             = stdout w
               ++ flat_map (emitted nmea_only)
                    (chunks_of (arrived_before ti (of_pending f))))
    /\ GpsRun.stream_output 5 3 false
         (interrupted_line (bytes_lit "$GPGGA,1" ++ [CR; LF]
                              ++ bytes_lit "$GPGSA,2" ++ [CR; LF]))
       = (Ret tt,
          {| now := 2500; devices := []; fdtab := []; next_fd := 4;
             trace := [EvClose 3];
             stdout := [str "$GPGGA,1"; str "$GPGSA,2"];
             interrupt_at := None |})
    /\ stdout (snd (GpsRun.stream_output 5 3 true
                      (interrupted_line (bytes_lit "NOTICE: x"))))
       = []
    /\ emitted false (bytes_lit "$GPGGA,1" ++ [CR; LF]
                        ++ bytes_lit "$GPGSA,2" ++ [CR; LF])
       = [str "$GPGGA,1"; str "$GPGSA,2"]
    /\ emitted true (bytes_lit "NOTICE: x") = [].
Proof.
  intros fuel fd nmea_only w.
  split; [|split; [|repeat split; vm_compute; reflexivity]].
  - destruct (GpsRun.stream_output_loop fuel fd nmea_only w) as [r w1] eqn:El.
    destruct (stream_output_loop_prints fuel fd nmea_only w r w1 El)
      as (evs & Hpend & Hout).
    exists evs. split; [exact Hpend|].
    unfold GpsRun.stream_output, try_finally, try_except. rewrite El.
    pose proof (os_close_stdout fd w1) as Hc.
    destruct r as [[]|e|]; cbn [fst snd].
    + destruct (os_close fd w1) as [[[]|e'|] w2]; simpl in *; congruence.
    + destruct (is_KeyboardInterrupt e); unfold ret;
        destruct (os_close fd w1) as [[[]|e'|] w2]; simpl in *; congruence.
    + exact Hout.
  - intros f ti. apply stream_output_interrupted.
Qed.

(** The run of the scenario, from the general statement. *)
Lemma stream_output_emits_witness :
  fst (GpsRun.stream_output 2502 3 false
         (interrupted_line (bytes_lit "$GPGGA,1" ++ [CR; LF]
                              ++ bytes_lit "$GPGSA,2" ++ [CR; LF])))
  = Ret tt
  /\ stdout (snd (GpsRun.stream_output 2502 3 false
                    (interrupted_line (bytes_lit "$GPGGA,1" ++ [CR; LF]
                                         ++ bytes_lit "$GPGSA,2" ++ [CR; LF]))))
     = [] ++ flat_map (emitted false)
               (chunks_of
                  (arrived_before 2500
                     [chunk_at 0 (bytes_lit "$GPGGA,1" ++ [CR; LF]
                                    ++ bytes_lit "$GPGSA,2" ++ [CR; LF])])).
Proof.
  refine (proj1 (proj2 (stream_output_emits 2502 3 false
                          (interrupted_line
                             (bytes_lit "$GPGGA,1" ++ [CR; LF]
                                ++ bytes_lit "$GPGSA,2" ++ [CR; LF]))))
            _ 2500 eq_refl _ _ eq_refl _ _).
  - repeat constructor; discriminate.
  - simpl. repeat constructor.
  - reflexivity.
  - simpl. lia.
Defined.

End Streaming.

(* ================================================================== *)
(** * Probing one candidate *)
(* ================================================================== *)

Module Probe.
Import Py OS Vocabulary PyFacts IOFacts Scenarios PollingQuiet Exceptions
  SendingCommands Polling PollingLoops Sniffing.
Local Open Scope io_scope.

(** The writes of one initialization sequence on [fd]. *)
Definition init_sequence (fd : Z) : list syscall :=
  [ EvWrite fd (bytes_lit "UNLOGALL THISPORT" ++ [CR; LF]);
    EvWrite fd (bytes_lit "LOG GPGGA ONTIME 1" ++ [CR; LF]);
    EvWrite fd (bytes_lit "LOG GPGSA ONTIME 1" ++ [CR; LF]);
    EvWrite fd (bytes_lit "LOG GPGSV ONTIME 1" ++ [CR; LF]);
    EvWrite fd (bytes_lit "LOG GPRMC ONTIME 1" ++ [CR; LF]) ].

Lemma init_sequence_commands fd :
  init_sequence fd
  = map (fun cmd : pystr => EvWrite fd (encode_ascii_ignore (cmd ++ CRLF)))
      UsbGpsMonitor.INIT_COMMANDS.
Proof. reflexivity. Qed.

(** What a run of [send_command] writes. *)
Lemma send_command_each_writes fd timeout (commands : list pystr) :
  forallb (forallb is_ascii) commands = true ->
  forall w,
  exists k,
    filter is_write
      (trace (snd (for_each commands
                     (fun cmd : pystr =>
                        UsbGpsMonitor.send_command fd cmd timeout) w)))
    = filter is_write (trace w)
        ++ map (fun cmd : pystr =>
                  EvWrite fd (encode_ascii_ignore (cmd ++ CRLF)))
             (firstn k commands)
    /\ (fst (for_each commands
               (fun cmd : pystr =>
                  UsbGpsMonitor.send_command fd cmd timeout) w)
        = Ret tt -> k = length commands).
Proof.
  induction commands as [|cmd commands IH]; intros Ha w.
  - exists O. simpl. now rewrite app_nil_r.
  - simpl in Ha. apply andb_true_iff in Ha as [Hc Hcs].
    cbn [for_each]. rewrite bind_run.
    destruct (usb_send_command_ascii fd cmd timeout w Hc) as [Hw _].
    destruct (UsbGpsMonitor.send_command fd cmd timeout w) as [[[]|e|] w1];
      cbn [fst snd] in Hw |- *.
    + destruct (IH Hcs w1) as (k & Hk & Hret).
      exists (S k). rewrite Hk, Hw, <- app_assoc. simpl. split; auto.
    + exists 1%nat. simpl. rewrite ?firstn_O. split; [exact Hw|discriminate].
    + exists 1%nat. simpl. rewrite ?firstn_O. split; [exact Hw|discriminate].
Qed.

Lemma initialize_receiver_writes fd w :
  exists k,
    filter is_write (trace (snd (UsbGpsMonitor.initialize_receiver fd w)))
    = filter is_write (trace w) ++ firstn k (init_sequence fd)
    /\ (fst (UsbGpsMonitor.initialize_receiver fd w) = Ret tt ->
        firstn k (init_sequence fd) = init_sequence fd).
Proof.
  unfold UsbGpsMonitor.initialize_receiver. rewrite bind_run.
  pose proof (quiet_run is_write _ (quiet_tcflush is_write fd eq_refl) w) as Hf.
  destruct (tcflush fd w) as [[[]|e|] w1]; cbn [fst snd] in Hf |- *;
    cbv beta.
  - destruct (send_command_each_writes fd 1500 UsbGpsMonitor.INIT_COMMANDS
                eq_refl w1) as (k & Hk & Hret).
    exists k. rewrite init_sequence_commands, firstn_map, Hk, Hf.
    split; [reflexivity|].
    intro Hr. rewrite (Hret Hr), firstn_all. reflexivity.
  - exists O. simpl. rewrite app_nil_r. split; [exact Hf|discriminate].
  - exists O. simpl. rewrite app_nil_r. split; [exact Hf|discriminate].
Qed.

(** What follows the two sniffs in [probe_candidate]: the sample is
    printed and the descriptor returned, or the descriptor is closed. *)
Definition conclude (fd : Z) (matched : bool) (sample : pybytes)
  : io (option Z) :=
  if matched then
    (if negb (is_empty sample) then
       let text := decode_ascii_replace sample in
       if negb (is_empty text) then
         print (str "--- Sample data ---") ;;
         for_each (str_splitlines text) (fun line =>
           if negb (is_empty (strip line)) then print line else ret tt) ;;
         print (str "--- End sample ---")
       else ret tt
     else ret tt) ;;
    ret (Some fd)
  else
    os_close fd ;;
    ret None.

Lemma probe_candidate_run port baud w :
  UsbGpsMonitor.probe_candidate port baud w
  = match UsbGpsMonitor.open_serial port baud w with
    | (Ret (Some fd), w0) =>
        match UsbGpsMonitor.sniff_for_gps fd 1500 w0 with
        | (Ret (true, sample), w1) => conclude fd true sample w1
        | (Ret (false, _), w1) =>
            match UsbGpsMonitor.initialize_receiver fd w1 with
            | (Ret _, w2) =>
                match UsbGpsMonitor.sniff_for_gps fd 4000 w2 with
                | (Ret (matched, sample), w3) => conclude fd matched sample w3
                | (Raise e, w3) => (Raise e, w3)
                | (Diverge, w3) => (Diverge, w3)
                end
            | (Raise e, w2) => (Raise e, w2)
            | (Diverge, w2) => (Diverge, w2)
            end
        | (Raise e, w1) => (Raise e, w1)
        | (Diverge, w1) => (Diverge, w1)
        end
    | (Ret None, w0) => (Ret None, w0)
    | (Raise e, w0) => (Raise e, w0)
    | (Diverge, w0) => (Diverge, w0)
    end.
Proof.
  unfold UsbGpsMonitor.probe_candidate, bind.
  destruct (UsbGpsMonitor.open_serial port baud w) as [[[fd|]|e|] w0];
    try reflexivity.
  destruct (UsbGpsMonitor.sniff_for_gps fd 1500 w0) as [[[[|] s]|e|] w1];
    try reflexivity.
  cbn [negb].
  destruct (UsbGpsMonitor.initialize_receiver fd w1) as [[[]|e|] w2];
    try reflexivity.
  destruct (UsbGpsMonitor.sniff_for_gps fd 4000 w2) as [[[m2 s2]|e|] w3];
    reflexivity.
Qed.

Lemma quiet_conclude keep fd matched sample :
  keep (EvClose fd) = false -> quiet keep (conclude fd matched sample).
Proof.
  intro Hk. unfold conclude.
  destruct matched.
  - apply quiet_bind; [|intros; apply quiet_ret].
    destruct (negb (is_empty sample)); [|apply quiet_ret].
    destruct (negb (is_empty (decode_ascii_replace sample)));
      [|apply quiet_ret].
    apply quiet_bind; [apply quiet_print|intros _].
    apply quiet_bind; [|intros _; apply quiet_print].
    apply quiet_for_each. intro line.
    destruct (negb (is_empty (strip line)));
      [apply quiet_print|apply quiet_ret].
  - apply quiet_bind; [now apply quiet_os_close|intros; apply quiet_ret].
Qed.

(** A matched probe returns the descriptor. *)
Lemma conclude_matched fd sample w :
  fst (conclude fd true sample w) = Ret (Some fd).
Proof.
  unfold conclude.
  assert (Hfe : forall lines w0,
             fst (for_each lines (fun line =>
                    if negb (is_empty (strip line))
                    then print line else ret tt) w0) = Ret tt).
  { induction lines as [|l lines IHl]; intro w0; simpl; [reflexivity|].
    unfold bind. destruct (negb (is_empty (strip l))); simpl; apply IHl. }
  destruct (negb (is_empty sample)); [|reflexivity].
  cbv zeta. destruct (negb (is_empty (decode_ascii_replace sample)));
    [|reflexivity].
  unfold bind at 1. unfold bind at 1. unfold print at 1. unfold bind at 1.
  match goal with
  | |- context [for_each ?ls ?body ?w0] =>
      specialize (Hfe ls w0); destruct (for_each ls body w0) as [r0 w1]
  end.
  simpl in Hfe. subst r0. reflexivity.
Qed.

Lemma quiet_usb_open_serial port baud :
  quiet is_write (UsbGpsMonitor.open_serial port baud).
Proof.
  unfold UsbGpsMonitor.open_serial, UsbGpsMonitor.configure_port.
  destruct (lookup Z.eqb baud UsbGpsMonitor.BAUD_MAP); quiet_tac.
Qed.

(** C1.  In the probe of one candidate whose device was opened as [fd]:
    when the passive sniff matches, the probe returns the descriptor and
    has written nothing; when it does not match, [initialize_receiver] runs
    once, so that what the probe has written is the initialization
    sequence, whole when [initialize_receiver] returns, and never more than
    one copy of it. *)
Theorem probe_initializes_iff_silent :
  forall (port : pystr) (baud : Z) (w : world) (fd : Z) (w0 : world)
         (matched : bool) (sample : pybytes) (w1 : world),
    UsbGpsMonitor.open_serial port baud w = (Ret (Some fd), w0) ->
    UsbGpsMonitor.sniff_for_gps fd 1500 w0 = (Ret (matched, sample), w1) ->
    (matched = true ->
     fst (UsbGpsMonitor.probe_candidate port baud w) = Ret (Some fd)
     /\ filter is_write (trace (snd (UsbGpsMonitor.probe_candidate port baud w)))
        = filter is_write (trace w))
    /\ (matched = false ->
        exists k,
          filter is_write
            (trace (snd (UsbGpsMonitor.probe_candidate port baud w)))
          = filter is_write (trace w) ++ firstn k (init_sequence fd)
          /\ (fst (UsbGpsMonitor.initialize_receiver fd w1) = Ret tt ->
              firstn k (init_sequence fd) = init_sequence fd)).
Proof.
  intros port baud w fd w0 matched sample w1 Hopen Hsniff.
  assert (H0 : filter is_write (trace w0) = filter is_write (trace w)).
  { pose proof (quiet_run is_write _ (quiet_usb_open_serial port baud) w) as H.
    now rewrite Hopen in H. }
  assert (H1 : filter is_write (trace w1) = filter is_write (trace w0)).
  { pose proof (quiet_run is_write _ (quiet_sniff_for_gps is_write fd 1500) w0)
      as H.
    now rewrite Hsniff in H. }
  rewrite probe_candidate_run, Hopen, Hsniff.
  split; intros ->.
  - split.
    + apply conclude_matched.
    + rewrite (quiet_run is_write _
                 (quiet_conclude is_write fd true sample eq_refl) w1).
      congruence.
  - destruct (initialize_receiver_writes fd w1) as (k & Hk & Hall).
    exists k. split; [|exact Hall].
    destruct (UsbGpsMonitor.initialize_receiver fd w1) as [[[]|e|] w2];
      cbn [fst snd] in Hk |- *; try (rewrite Hk; congruence).
    pose proof (quiet_run is_write _ (quiet_sniff_for_gps is_write fd 4000) w2)
      as H2.
    destruct (UsbGpsMonitor.sniff_for_gps fd 4000 w2) as [[[m2 s2]|e|] w3];
      cbn [fst snd] in H2 |- *; try (rewrite H2, Hk; congruence).
    rewrite (quiet_run is_write _
               (quiet_conclude is_write fd m2 s2 eq_refl) w3).
    rewrite H2, Hk. congruence.
Qed.

(** A receiver at 115200 baud that is silent until it is told to log, then
    acknowledges each command and starts sending sentences. *)
Definition silent_until_configured : device :=
  well_behaved (fun _ => [])
    (fun speed data t =>
       if speed =? B115200 then
         [ chunk_at (t + 20) (bytes_lit "<OK" ++ [CR; LF]) ]
         ++ (if list_eqb Byte.eqb data
                  (bytes_lit "LOG GPRMC ONTIME 1" ++ [CR; LF])
             then [ chunk_at (t + 1000)
                      (bytes_lit "$GPRMC,081836,A,3751.65,S" ++ [CR; LF]) ]
             else [])
       else []).

(** A receiver that sends sentences on its own at 115200 baud. *)
Definition talking : device :=
  well_behaved
    (fun speed =>
       if speed =? B115200
       then [ chunk_at 300 (bytes_lit "$GPGGA,092750.000,5321.6802,N"
                              ++ [CR; LF]) ]
       else [])
    (fun _ _ _ => []).

Definition usb1 : pystr := str "/dev/ttyUSB1".

Lemma probe_initializes_iff_silent_witness :
  fst (UsbGpsMonitor.probe_candidate usb1 115200
         (boot [(usb1, silent_until_configured)]))
  = Ret (Some 3)
  /\ exists k,
       filter is_write
         (trace (snd (UsbGpsMonitor.probe_candidate usb1 115200
                        (boot [(usb1, silent_until_configured)]))))
       = filter is_write (trace (boot [(usb1, silent_until_configured)]))
           ++ firstn k (init_sequence 3)
       /\ (fst (UsbGpsMonitor.initialize_receiver 3
                  (snd (UsbGpsMonitor.sniff_for_gps 3 1500
                          (snd (UsbGpsMonitor.open_serial usb1 115200
                                  (boot [(usb1, silent_until_configured)]))))))
           = Ret tt ->
           firstn k (init_sequence 3) = init_sequence 3).
Proof.
  split; [vm_compute; reflexivity|].
  apply (proj2 (probe_initializes_iff_silent usb1 115200
                  (boot [(usb1, silent_until_configured)]) 3
                  (snd (UsbGpsMonitor.open_serial usb1 115200
                          (boot [(usb1, silent_until_configured)])))
                  false []
                  (snd (UsbGpsMonitor.sniff_for_gps 3 1500
                          (snd (UsbGpsMonitor.open_serial usb1 115200
                                  (boot [(usb1, silent_until_configured)])))))
                  ltac:(vm_compute; reflexivity)
                  ltac:(vm_compute; reflexivity))).
  reflexivity.
Defined.

(** The two scenarios of the specification, run. *)
Example probe_talking_receiver_writes_nothing :
  fst (UsbGpsMonitor.probe_candidate usb1 115200 (boot [(usb1, talking)]))
  = Ret (Some 3)
  /\ filter is_write
       (trace (snd (UsbGpsMonitor.probe_candidate usb1 115200
                      (boot [(usb1, talking)])))) = [].
Proof. vm_compute. split; reflexivity. Qed.

Example probe_silent_receiver_initializes_once :
  fst (UsbGpsMonitor.probe_candidate usb1 115200
         (boot [(usb1, silent_until_configured)]))
  = Ret (Some 3)
  /\ filter is_write
       (trace (snd (UsbGpsMonitor.probe_candidate usb1 115200
                      (boot [(usb1, silent_until_configured)]))))
     = init_sequence 3.
Proof. vm_compute. split; reflexivity. Qed.

End Probe.

(* ================================================================== *)
(** * Discovery: the order of the search *)
(* ================================================================== *)

Module Discovery.
Import Py OS Vocabulary PyFacts IOFacts Scenarios PollingQuiet Exceptions
  BaudRates SendingCommands Probe.
Local Open Scope io_scope.

(** ** [sorted] *)

Definition str_le (a b : pystr) : Prop := str_leb a b = true.

Lemma str_leb_total a b : str_leb a b = false -> str_leb b a = true.
Proof.
  revert b. induction a as [|x a IH]; destruct b as [|y b]; simpl;
    try congruence.
  destruct (x <? y)%N eqn:Exy; [discriminate|].
  destruct (y <? x)%N eqn:Eyx; [reflexivity|].
  apply IH.
Qed.

Lemma insert_sorted_perm x l : Permutation (x :: l) (insert_sorted x l).
Proof.
  induction l as [|y l IH]; simpl; [reflexivity|].
  destruct (str_leb x y); [reflexivity|].
  rewrite perm_swap. now apply perm_skip.
Qed.

Lemma sorted_perm l : Permutation l (sorted l).
Proof.
  induction l as [|x l IH]; simpl; [reflexivity|].
  rewrite <- insert_sorted_perm. now apply perm_skip.
Qed.

Lemma insert_sorted_Sorted x l :
  Sorted str_le l -> Sorted str_le (insert_sorted x l).
Proof.
  induction l as [|y l IH]; intro Hs; simpl.
  - repeat constructor.
  - destruct (str_leb x y) eqn:E.
    + constructor; [exact Hs|]. constructor. exact E.
    + apply Sorted_inv in Hs as [Hs Hd].
      constructor; [now apply IH|].
      destruct l as [|z l]; simpl.
      * constructor. now apply str_leb_total.
      * destruct (str_leb x z).
        -- constructor. now apply str_leb_total.
        -- inversion Hd; subst. now constructor.
Qed.

Lemma sorted_Sorted l : Sorted str_le (sorted l).
Proof.
  induction l as [|x l IH]; simpl; [constructor|].
  now apply insert_sorted_Sorted.
Qed.

(** ** The candidates, in the order they are tried *)

Definition BAUDS : list Z := [115200; 57600; 38400; 19200; 9600; 4800].

(** [glob.glob(pattern)] in the world [w]. *)
Definition glob_in (w : world) (pattern : pystr) : list pystr :=
  filter (glob_match pattern) (map fst (devices w)).

Definition ports_of (w : world) : list pystr :=
  sorted (glob_in w (str "/dev/ttyUSB*"))
    ++ sorted (glob_in w (str "/dev/ttyACM*")).

Definition candidates (ports : list pystr) : list (pystr * Z) :=
  flat_map (fun port => map (pair port) BAUDS) ports.

(** The search over a list of candidates: probe each in turn and stop at
    the first that matches. *)
Fixpoint scan (cands : list (pystr * Z)) : io (option (pystr * Z * Z)) :=
  match cands with
  | [] => ret None
  | (port, baud) :: rest =>
      r <- UsbGpsMonitor.probe_candidate port baud ;;
      match r with
      | Some fd => ret (Some (port, baud, fd))
      | None => scan rest
      end
  end.

(** Every candidate of the list was probed in turn, from [w] to [w'], and
    none matched. *)
Inductive all_unmatched : world -> list (pystr * Z) -> world -> Prop :=
| unmatched_nil w : all_unmatched w [] w
| unmatched_cons w port baud w1 rest w' :
    UsbGpsMonitor.probe_candidate port baud w = (Ret None, w1) ->
    all_unmatched w1 rest w' ->
    all_unmatched w ((port, baud) :: rest) w'.

(** The paths of the [os.open] calls of a log. *)
Definition opened_paths (tr : list syscall) : list pystr :=
  flat_map (fun ev => match ev with EvOpen path _ => [path] | _ => [] end) tr.

Lemma iter_candidate_ports_run w :
  UsbGpsMonitor.iter_candidate_ports w = (Ret (ports_of w), w).
Proof.
  unfold UsbGpsMonitor.iter_candidate_ports, ports_of. simpl.
  unfold bind, glob_glob, ret. simpl. now rewrite app_nil_r.
Qed.

Lemma scan_app l1 l2 w :
  scan (l1 ++ l2) w
  = (r <- scan l1 ;;
     match r with
     | Some found => ret (Some found)
     | None => scan l2
     end) w.
Proof.
  revert w. induction l1 as [|[port baud] l1 IH]; intro w; simpl.
  - reflexivity.
  - unfold bind.
    destruct (UsbGpsMonitor.probe_candidate port baud w) as [[[fd|]|e|] w1];
      try reflexivity.
    rewrite IH. reflexivity.
Qed.

Lemma detect_bauds_scan port bauds w :
  UsbGpsMonitor.detect_bauds port bauds w = scan (map (pair port) bauds) w.
Proof.
  revert w. induction bauds as [|baud bauds IH]; intro w; simpl.
  - reflexivity.
  - unfold bind.
    destruct (UsbGpsMonitor.probe_candidate port baud w) as [[[fd|]|e|] w1];
      try reflexivity.
    apply IH.
Qed.

Lemma detect_ports_scan ports w :
  UsbGpsMonitor.detect_ports ports w = scan (candidates ports) w.
Proof.
  revert w. induction ports as [|port ports IH]; intro w.
  - reflexivity.
  - cbn [UsbGpsMonitor.detect_ports candidates flat_map].
    rewrite scan_app. unfold bind.
    rewrite detect_bauds_scan.
    change (map fst UsbGpsMonitor.BAUD_MAP) with BAUDS.
    destruct (scan (map (pair port) BAUDS) w) as [[[found|]|e|] w1];
      try reflexivity.
    apply IH.
Qed.

Lemma detect_gps_scan w :
  UsbGpsMonitor.detect_gps w = scan (candidates (ports_of w)) w.
Proof.
  unfold UsbGpsMonitor.detect_gps.
  rewrite (bind_ret_run _ _ _ _ _ (iter_candidate_ports_run w)).
  apply detect_ports_scan.
Qed.

(** ** One [os.open] for each candidate probed *)

Lemma quiet_usb_send_command fd cmd timeout :
  quiet is_open (UsbGpsMonitor.send_command fd cmd timeout).
Proof.
  unfold UsbGpsMonitor.send_command.
  destruct (encode_ascii_strict (cmd ++ CRLF)); [|apply quiet_raise].
  apply quiet_bind.
  - apply quiet_try_except; intros; [|apply quiet_ret].
    apply quiet_bind; intros; [now apply quiet_os_write|apply quiet_ret].
  - intros written. destruct (negb written); [apply quiet_ret|].
    apply quiet_bind; [apply quiet_time_time|intros t].
    apply quiet_bind; [|intros; apply quiet_ret].
    intro w. apply quiet_send_command_loop.
Qed.

Lemma quiet_initialize_receiver fd :
  quiet is_open (UsbGpsMonitor.initialize_receiver fd).
Proof.
  unfold UsbGpsMonitor.initialize_receiver.
  apply quiet_bind; [now apply quiet_tcflush|intros _].
  apply quiet_for_each. intro cmd. apply quiet_usb_send_command.
Qed.

Lemma opened_paths_filter tr :
  opened_paths (filter is_open tr) = opened_paths tr.
Proof.
  induction tr as [|ev tr IH]; simpl; [reflexivity|].
  destruct ev; simpl; rewrite ?IH; reflexivity.
Qed.

Lemma opened_paths_app tr1 tr2 :
  opened_paths (tr1 ++ tr2) = opened_paths tr1 ++ opened_paths tr2.
Proof. unfold opened_paths. apply flat_map_app. Qed.

Lemma probe_candidate_opens port baud w :
  In baud BAUDS ->
  opened_paths (trace (snd (UsbGpsMonitor.probe_candidate port baud w)))
  = opened_paths (trace w) ++ [port].
Proof.
  intro Hin.
  assert (Hs : In baud SUPPORTED_BAUDS).
  { unfold BAUDS, SUPPORTED_BAUDS in *. simpl in *. tauto. }
  destruct (usb_open_serial_opens port baud w Hs) as [r0 Ho].
  assert (Ho' : opened_paths
                  (trace (snd (UsbGpsMonitor.open_serial port baud w)))
                = opened_paths (trace w) ++ [port]).
  { rewrite <- opened_paths_filter, Ho, opened_paths_app, opened_paths_filter.
    reflexivity. }
  assert (Hq : forall {A} (m : io A) w0,
             quiet is_open m ->
             opened_paths (trace (snd (m w0))) = opened_paths (trace w0)).
  { intros A m w0 Hm. rewrite <- opened_paths_filter.
    rewrite (quiet_run is_open m Hm w0). apply opened_paths_filter. }
  rewrite probe_candidate_run.
  destruct (UsbGpsMonitor.open_serial port baud w) as [[[fd|]|e|] w0];
    cbn [fst snd] in Ho' |- *; try exact Ho'.
  pose proof (Hq _ _ w0 (quiet_sniff_for_gps is_open fd 1500)) as H1.
  destruct (UsbGpsMonitor.sniff_for_gps fd 1500 w0) as [[[[|] s]|e|] w1];
    cbn [fst snd] in H1 |- *; try congruence.
  - rewrite (Hq _ _ w1 (quiet_conclude is_open fd true s eq_refl)). congruence.
  - pose proof (Hq _ _ w1 (quiet_initialize_receiver fd)) as H2.
    destruct (UsbGpsMonitor.initialize_receiver fd w1) as [[[]|e|] w2];
      cbn [fst snd] in H2 |- *; try congruence.
    pose proof (Hq _ _ w2 (quiet_sniff_for_gps is_open fd 4000)) as H3.
    destruct (UsbGpsMonitor.sniff_for_gps fd 4000 w2) as [[[m2 s2]|e|] w3];
      cbn [fst snd] in H3 |- *; try congruence.
    rewrite (Hq _ _ w3 (quiet_conclude is_open fd m2 s2 eq_refl)). congruence.
Qed.

Lemma candidates_bauds ports port baud :
  In (port, baud) (candidates ports) -> In baud BAUDS.
Proof.
  unfold candidates. rewrite in_flat_map. intros (p & _ & H).
  apply in_map_iff in H as (b & E & Hb). now injection E as _ <-.
Qed.

(** ** The search returns the first match *)

Lemma scan_found cands :
  (forall port baud, In (port, baud) cands -> In baud BAUDS) ->
  forall w port baud fd w',
    scan cands w = (Ret (Some (port, baud, fd)), w') ->
    exists before after w1,
      cands = before ++ (port, baud) :: after
      /\ all_unmatched w before w1
      /\ UsbGpsMonitor.probe_candidate port baud w1 = (Ret (Some fd), w')
      /\ opened_paths (trace w')
         = opened_paths (trace w) ++ map fst (before ++ [(port, baud)]).
Proof.
  induction cands as [|[p b] cands IH]; intros Hb w port baud fd w'; simpl.
  - discriminate.
  - unfold bind.
    pose proof (probe_candidate_opens p b w (Hb p b (or_introl eq_refl))) as Ho.
    destruct (UsbGpsMonitor.probe_candidate p b w) as [[[fd0|]|e|] w1] eqn:Ep;
      cbn [fst snd] in Ho; try discriminate.
    + intro H. injection H as -> -> -> <-.
      exists [], cands, w.
      repeat split; auto; try constructor; try (simpl; exact Ho).
    + intro H. apply IH in H as (before & after & w2 & Ec & Hu & Hp & Hop).
      2:{ intros p' b' Hin. apply (Hb p' b'). now right. }
      exists ((p, b) :: before), after, w2.
      split; [simpl; now rewrite Ec|].
      split; [econstructor; eauto|].
      split; [exact Hp|].
      rewrite Hop, Ho, <- app_assoc. reflexivity.
Qed.

Lemma scan_exhausted cands w w' :
  scan cands w = (Ret None, w') <-> all_unmatched w cands w'.
Proof.
  revert w. induction cands as [|[p b] cands IH]; intro w; simpl.
  - split.
    + intro H. injection H as <-. constructor.
    + intro H. inversion H. reflexivity.
  - unfold bind. split.
    + destruct (UsbGpsMonitor.probe_candidate p b w) as [[[fd0|]|e|] w1] eqn:Ep;
        try discriminate.
      intro H. apply IH in H. econstructor; eauto.
    + intro H. inversion H; subst.
      match goal with
      | Hp : UsbGpsMonitor.probe_candidate p b w = _ |- _ => rewrite Hp
      end.
      now apply IH.
Qed.

(** C2.  [detect_gps] tries the device paths matching [/dev/ttyUSB*], in
    lexical order, then those matching [/dev/ttyACM*], in lexical order,
    and for each path the baud rates 115200, 57600, 38400, 19200, 9600 and
    4800 in this order.  It returns the first candidate whose probe
    matches: every candidate before it was probed without a match and no
    candidate after it was opened.  When every candidate has been probed
    without a match it returns [None]. *)
Theorem detect_gps_first_match :
  forall w : world,
    UsbGpsMonitor.iter_candidate_ports w = (Ret (ports_of w), w)
    /\ (forall pattern,
          Sorted str_le (sorted (glob_in w pattern))
          /\ Permutation (glob_in w pattern) (sorted (glob_in w pattern)))
    /\ map fst UsbGpsMonitor.BAUD_MAP = [115200; 57600; 38400; 19200; 9600; 4800]
    /\ (forall port baud fd w',
          UsbGpsMonitor.detect_gps w = (Ret (Some (port, baud, fd)), w') ->
          exists before after w1,
            candidates (ports_of w) = before ++ (port, baud) :: after
            /\ all_unmatched w before w1
            /\ UsbGpsMonitor.probe_candidate port baud w1 = (Ret (Some fd), w')
            /\ opened_paths (trace w')
               = opened_paths (trace w) ++ map fst (before ++ [(port, baud)]))
    /\ (forall w',
          UsbGpsMonitor.detect_gps w = (Ret None, w')
          <-> all_unmatched w (candidates (ports_of w)) w')
    /\ (ports_of w = [] -> UsbGpsMonitor.detect_gps w = (Ret None, w)).
Proof.
  intro w. split; [|split; [|split; [|split; [|split]]]].
  - apply iter_candidate_ports_run.
  - intro pattern. split; [apply sorted_Sorted|apply sorted_perm].
  - reflexivity.
  - intros port baud fd w' H. rewrite detect_gps_scan in H.
    eapply scan_found; [|exact H].
    intros p b. apply candidates_bauds.
  - intro w'. rewrite detect_gps_scan. apply scan_exhausted.
  - intro E. rewrite detect_gps_scan, E. reflexivity.
Qed.

End Discovery.

Module DiscoveryCases.
Import Py OS Vocabulary PyFacts IOFacts Scenarios Probe Discovery.

Definition acm0 : pystr := str "/dev/ttyACM0".

(** A silent receiver on [/dev/ttyUSB1] and a talking one on
    [/dev/ttyACM0]. *)
Definition two_ports : world := boot [(acm0, talking); (usb1, silent)].

Lemma detect_gps_first_match_witness :
  fst (UsbGpsMonitor.detect_gps two_ports) = Ret (Some (acm0, 115200, 9))
  /\ exists before after w1,
       candidates (ports_of two_ports) = before ++ (acm0, 115200) :: after
       /\ all_unmatched two_ports before w1
       /\ UsbGpsMonitor.probe_candidate acm0 115200 w1
          = (Ret (Some 9), snd (UsbGpsMonitor.detect_gps two_ports))
       /\ opened_paths (trace (snd (UsbGpsMonitor.detect_gps two_ports)))
          = opened_paths (trace two_ports)
              ++ map fst (before ++ [(acm0, 115200)]).
Proof.
  split; [vm_compute; reflexivity|].
  apply (proj1 (proj2 (proj2 (proj2 (detect_gps_first_match two_ports))))).
  vm_compute. reflexivity.
Defined.

(** No candidate path: nothing is detected and nothing has happened. *)
Example detect_gps_no_device :
  UsbGpsMonitor.detect_gps (boot []) = (Ret None, boot []).
Proof. reflexivity. Qed.

End DiscoveryCases.

(* ================================================================== *)
(** * Descriptors: opened and closed *)
(* ================================================================== *)

Module Descriptors.
Import Py OS Vocabulary PyFacts IOFacts Scenarios PollingQuiet Probe.
Local Open Scope io_scope.

(** The descriptors a log shows opened, and how often it shows [fd]
    closed. *)
Definition opened_fds (tr : list syscall) : list Z :=
  flat_map (fun ev => match ev with
                      | EvOpen _ (Some fd) => [fd]
                      | _ => []
                      end) tr.

Definition times_closed (fd : Z) (tr : list syscall) : nat :=
  length (filter (is_close_of fd) tr).

(** The descriptors still in the table. *)
Definition open_fds (w : world) : list Z := map fst (fdtab w).

Definition run_args : GpsRun.args :=
  {| GpsRun.port := GpsRun.DEFAULT_PORT; GpsRun.baud := GpsRun.DEFAULT_BAUD;
     GpsRun.timeout := GpsRun.DEFAULT_TIMEOUT; GpsRun.nmea_only := false;
     GpsRun.extra_commands := []; GpsRun.no_init := false |}.

Definition init_args : GpsInit.args :=
  {| GpsInit.port := GpsInit.DEFAULT_PORT; GpsInit.baud := GpsInit.DEFAULT_BAUD;
     GpsInit.timeout := GpsInit.DEFAULT_TIMEOUT; GpsInit.command_files := [];
     GpsInit.extra_commands := [str "UNLOGALL THISPORT"];
     GpsInit.list_only := false |}.

(** The user interrupts the scan while the first candidate is sniffed. *)
Definition interrupted_scan : world :=
  {| now := 0; devices := [(usb1, silent)]; fdtab := []; next_fd := 3;
     trace := []; stdout := []; interrupt_at := Some 700 |}.

Lemma opened_fds_filter tr : opened_fds (filter is_open tr) = opened_fds tr.
Proof.
  induction tr as [|ev tr IH]; simpl; [reflexivity|].
  destruct ev; simpl; rewrite ?IH; reflexivity.
Qed.

Lemma opened_fds_app tr1 tr2 :
  opened_fds (tr1 ++ tr2) = opened_fds tr1 ++ opened_fds tr2.
Proof. unfold opened_fds. apply flat_map_app. Qed.

Lemma quiet_opened_fds {A} (m : io A) w :
  quiet is_open m -> opened_fds (trace (snd (m w))) = opened_fds (trace w).
Proof.
  intro H. rewrite <- opened_fds_filter, (quiet_run is_open m H w).
  apply opened_fds_filter.
Qed.

Lemma quiet_times_closed fd {A} (m : io A) w :
  quiet (is_close_of fd) m ->
  times_closed fd (trace (snd (m w))) = times_closed fd (trace w).
Proof.
  intro H. unfold times_closed. now rewrite (quiet_run _ m H w).
Qed.

Lemma os_close_times_closed fd w :
  times_closed fd (trace (snd (os_close fd w))) = S (times_closed fd (trace w)).
Proof.
  unfold times_closed. rewrite os_close_trace, filter_app, length_app. simpl.
  rewrite Z.eqb_refl. simpl. lia.
Qed.

Lemma os_open_spec path w :
  (exists fd w', os_open path w = (Ret fd, w')
                 /\ trace w' = trace w ++ [EvOpen path (Some fd)])
  \/ (exists w', os_open path w = (Raise OSError, w')
                 /\ trace w' = trace w ++ [EvOpen path None]).
Proof.
  unfold os_open. destruct (lookup str_eqb path (devices w)) as [dev|].
  - destruct (dev_openable dev); [left|right]; eauto.
  - right. eauto.
Qed.

(** The streaming loop of [gps_run] closes its descriptor, once, however it
    is left. *)
Lemma stream_output_closes fuel fd nmea_only w :
  fst (GpsRun.stream_output fuel fd nmea_only w) <> Diverge ->
  times_closed fd (trace (snd (GpsRun.stream_output fuel fd nmea_only w)))
  = S (times_closed fd (trace w)).
Proof.
  assert (Hq : quiet (is_close_of fd)
                 (try_except (GpsRun.stream_output_loop fuel fd nmea_only)
                    is_KeyboardInterrupt (fun _ => ret tt))).
  { apply quiet_try_except; [|intros; apply quiet_ret].
    induction fuel as [|fuel IH]; simpl; [apply quiet_diverge|].
    apply quiet_bind; [apply quiet_select|intros ready].
    destruct (negb ready); [exact IH|].
    apply quiet_bind; [apply quiet_os_read|intros data].
    destruct (is_empty data); [exact IH|].
    apply quiet_bind; [|intros _; exact IH].
    apply quiet_for_each. intro line. unfold GpsRun.emit_line.
    destruct (is_empty line); [apply quiet_ret|].
    match goal with |- quiet _ (if ?b then _ else _) => destruct b end;
      [apply quiet_ret|apply quiet_print]. }
  unfold GpsRun.stream_output, try_finally.
  pose proof (quiet_times_closed fd _ w Hq) as Hc.
  destruct (try_except (GpsRun.stream_output_loop fuel fd nmea_only)
              is_KeyboardInterrupt (fun _ => ret tt) w) as [[[]|e|] w1];
    cbn [fst snd] in Hc |- *; intro Hd.
  - pose proof (os_close_times_closed fd w1) as Hx.
    destruct (os_close fd w1) as [[[]|e'|] w2]; cbn [snd] in *; congruence.
  - pose proof (os_close_times_closed fd w1) as Hx.
    destruct (os_close fd w1) as [[[]|e'|] w2]; cbn [snd] in *; congruence.
  - congruence.
Qed.

(** System calls end. *)
Definition ends {A} (m : io A) : Prop := forall w, fst (m w) <> Diverge.

Lemma ends_bind {A B} (m : io A) (k : A -> io B) :
  ends m -> (forall a, ends (k a)) -> ends (bind m k).
Proof.
  intros Hm Hk w. unfold bind. specialize (Hm w).
  destruct (m w) as [[a|e|] w1]; cbn [fst] in *;
    [apply Hk|discriminate|congruence].
Qed.

Lemma ends_termios_call {A} fd (k : open_file -> io A) :
  (forall f, ends (k f)) -> ends (termios_call fd k).
Proof.
  intros Hk w. unfold termios_call.
  destruct (get_fd fd w) as [f|]; [|discriminate].
  destruct (dev_termios_ok (of_dev f) (now w)); [apply Hk|discriminate].
Qed.

Lemma ends_gps_init_configure_port fd baud :
  ends (GpsInit.configure_port fd baud).
Proof.
  unfold GpsInit.configure_port.
  destruct (lookup Z.eqb baud GpsInit.baud_map); [|intro w; discriminate].
  apply ends_bind; [|intros _; apply ends_bind;
                     [|intros _; apply ends_bind; [|intros _]]].
  - apply ends_termios_call. intros f w. discriminate.
  - apply ends_termios_call. intros f w. discriminate.
  - intro w. unfold tcflush. apply ends_termios_call. intros f w'.
    discriminate.
  - intro w. unfold fcntl_clear_nonblock. destruct (get_fd fd w); discriminate.
Qed.

Lemma gps_init_open_serial_run port baud w :
  GpsInit.open_serial port baud w
  = match os_open port w with
    | (Ret fd, w0) =>
        match GpsInit.configure_port fd baud w0 with
        | (Ret _, w1) => (Ret fd, w1)
        | (Raise e, w1) =>
            if is_Exception e then
              match os_close fd w1 with
              | (Ret _, w2) => (Raise e, w2)
              | (Raise e', w2) => (Raise e', w2)
              | (Diverge, w2) => (Diverge, w2)
              end
            else (Raise e, w1)
        | (Diverge, w1) => (Diverge, w1)
        end
    | (Raise e, w0) => (Raise e, w0)
    | (Diverge, w0) => (Diverge, w0)
    end.
Proof.
  unfold GpsInit.open_serial, bind, try_except.
  destruct (os_open port w) as [[fd|e|] w0]; try reflexivity.
  destruct (GpsInit.configure_port fd baud w0) as [[[]|e|] w1];
    try reflexivity.
  destruct (is_Exception e); [|reflexivity].
  unfold raise. destruct (os_close fd w1) as [[[]|e'|] w2]; reflexivity.
Qed.

(** [open_serial] of [gps_init] closes the descriptor it opened, once,
    before it lets a failure of the configuration out. *)
Lemma gps_init_open_serial_releases port baud w :
  match fst (GpsInit.open_serial port baud w) with
  | Ret fd =>
      opened_fds (trace (snd (GpsInit.open_serial port baud w)))
      = opened_fds (trace w) ++ [fd]
      /\ times_closed fd (trace (snd (GpsInit.open_serial port baud w)))
         = times_closed fd (trace w)
  | Raise _ =>
      opened_fds (trace (snd (GpsInit.open_serial port baud w)))
      = opened_fds (trace w)
      \/ exists fd,
           opened_fds (trace (snd (GpsInit.open_serial port baud w)))
           = opened_fds (trace w) ++ [fd]
           /\ times_closed fd (trace (snd (GpsInit.open_serial port baud w)))
              = S (times_closed fd (trace w))
  | Diverge => False
  end.
Proof.
  rewrite gps_init_open_serial_run.
  destruct (os_open_spec port w) as [(fd & w0 & -> & Ht)|(w0 & -> & Ht)].
  2:{ cbn [fst snd]. left. rewrite Ht, opened_fds_app. simpl.
      now rewrite app_nil_r. }
  assert (Ho : opened_fds (trace w0) = opened_fds (trace w) ++ [fd])
    by (rewrite Ht, opened_fds_app; reflexivity).
  assert (Hc : times_closed fd (trace w0) = times_closed fd (trace w)).
  { unfold times_closed. rewrite Ht, filter_app. simpl.
    now rewrite app_nil_r. }
  assert (Hq : forall keep, keep (EvFlush fd) = false ->
                            quiet keep (GpsInit.configure_port fd baud)).
  { intros keep Hk. unfold GpsInit.configure_port.
    destruct (lookup Z.eqb baud GpsInit.baud_map); [|apply quiet_raise].
    apply quiet_bind; [apply quiet_tcgetattr|intros _].
    apply quiet_bind; [apply quiet_tcsetattr|intros _].
    apply quiet_bind; [now apply quiet_tcflush|intros _].
    apply quiet_fcntl. }
  assert (Hr : Exceptions.raises (fun e => is_Exception e = true)
                 (GpsInit.configure_port fd baud)).
  { unfold GpsInit.configure_port.
    destruct (lookup Z.eqb baud GpsInit.baud_map);
      [|now apply Exceptions.raises_raise].
    apply Exceptions.raises_bind;
      [now apply Exceptions.raises_tcgetattr|intros _].
    apply Exceptions.raises_bind;
      [now apply Exceptions.raises_tcsetattr|intros _].
    apply Exceptions.raises_bind;
      [now apply Exceptions.raises_tcflush|intros _].
    now apply Exceptions.raises_fcntl. }
  pose proof (quiet_opened_fds _ w0 (Hq is_open eq_refl)) as Ho1.
  pose proof (quiet_times_closed fd _ w0 (Hq (is_close_of fd) eq_refl)) as Hc1.
  pose proof (ends_gps_init_configure_port fd baud w0) as He.
  specialize (Hr w0).
  destruct (GpsInit.configure_port fd baud w0) as [[[]|e|] w1];
    cbn [fst snd] in *.
  - split; congruence.
  - rewrite (Hr e eq_refl).
    pose proof (os_close_times_closed fd w1) as Hx.
    pose proof (quiet_opened_fds _ w1 (quiet_os_close is_open fd eq_refl)) as Hy.
    destruct (os_close fd w1) as [[[]|e'|] w2] eqn:Ecl; cbn [fst snd] in *.
    + right. exists fd. split; congruence.
    + right. exists fd. split; congruence.
    + unfold os_close in Ecl.
      destruct (get_fd fd (log (EvClose fd) w1)); discriminate.
  - congruence.
Qed.

Lemma usb_open_serial_run port baud w :
  UsbGpsMonitor.open_serial port baud w
  = match lookup Z.eqb baud UsbGpsMonitor.BAUD_MAP with
    | None => (Ret None, w)
    | Some baud_const =>
        match os_open port w with
        | (Ret fd, w0) =>
            match UsbGpsMonitor.configure_port fd baud_const w0 with
            | (Ret _, w1) => (Ret (Some fd), w1)
            | (Raise e, w1) =>
                if is_termios_error e then
                  match os_close fd w1 with
                  | (Ret _, w2) => (Ret None, w2)
                  | (Raise e', w2) => (Raise e', w2)
                  | (Diverge, w2) => (Diverge, w2)
                  end
                else (Raise e, w1)
            | (Diverge, w1) => (Diverge, w1)
            end
        | (Raise e, w0) => if is_OSError e then (Ret None, w0) else (Raise e, w0)
        | (Diverge, w0) => (Diverge, w0)
        end
    end.
Proof.
  unfold UsbGpsMonitor.open_serial.
  destruct (lookup Z.eqb baud UsbGpsMonitor.BAUD_MAP) as [c|]; [|reflexivity].
  unfold bind, try_except.
  destruct (os_open port w) as [[fd|e|] w0]; try reflexivity.
  - cbn [ret].
    destruct (UsbGpsMonitor.configure_port fd c w0) as [[[]|e|] w1];
      try reflexivity;
      destruct (is_termios_error e); try reflexivity;
      destruct (os_close fd w1) as [[[]|e'|] w2]; reflexivity.
  - destruct (is_OSError e); reflexivity.
Qed.

Lemma quiet_usb_configure_port keep fd baud_const :
  keep (EvFlush fd) = false ->
  quiet keep (UsbGpsMonitor.configure_port fd baud_const).
Proof.
  intro Hk. unfold UsbGpsMonitor.configure_port.
  apply quiet_bind; [apply quiet_tcgetattr|intros _].
  apply quiet_bind; [now apply quiet_tcflush|intros _].
  apply quiet_tcsetattr.
Qed.

(** [open_serial] of [usb_gps_monitor]: the descriptor it returns is open
    and was not closed; when it returns none, a descriptor it opened was
    closed once. *)
Lemma usb_open_serial_descriptors port baud w :
  match fst (UsbGpsMonitor.open_serial port baud w) with
  | Ret (Some fd) =>
      opened_fds (trace (snd (UsbGpsMonitor.open_serial port baud w)))
      = opened_fds (trace w) ++ [fd]
      /\ times_closed fd (trace (snd (UsbGpsMonitor.open_serial port baud w)))
         = times_closed fd (trace w)
  | Ret None =>
      opened_fds (trace (snd (UsbGpsMonitor.open_serial port baud w)))
      = opened_fds (trace w)
      \/ exists fd,
           opened_fds (trace (snd (UsbGpsMonitor.open_serial port baud w)))
           = opened_fds (trace w) ++ [fd]
           /\ times_closed fd
                (trace (snd (UsbGpsMonitor.open_serial port baud w)))
              = S (times_closed fd (trace w))
  | _ => True
  end.
Proof.
  rewrite usb_open_serial_run.
  destruct (lookup Z.eqb baud UsbGpsMonitor.BAUD_MAP) as [c|];
    [|cbn [fst snd]; now left].
  destruct (os_open_spec port w) as [(fd & w0 & -> & Ht)|(w0 & -> & Ht)].
  2:{ cbn [fst snd is_OSError]. left. rewrite Ht, opened_fds_app. simpl.
      now rewrite app_nil_r. }
  assert (Ho : opened_fds (trace w0) = opened_fds (trace w) ++ [fd])
    by (rewrite Ht, opened_fds_app; reflexivity).
  assert (Hc : times_closed fd (trace w0) = times_closed fd (trace w)).
  { unfold times_closed. rewrite Ht, filter_app. simpl.
    now rewrite app_nil_r. }
  pose proof (quiet_opened_fds _ w0
                (quiet_usb_configure_port is_open fd c eq_refl)) as Ho1.
  pose proof (quiet_times_closed fd _ w0
                (quiet_usb_configure_port (is_close_of fd) fd c eq_refl))
    as Hc1.
  destruct (UsbGpsMonitor.configure_port fd c w0) as [[[]|e|] w1];
    cbn [fst snd] in *.
  - split; congruence.
  - destruct (is_termios_error e); [|exact I].
    pose proof (os_close_times_closed fd w1) as Hx.
    pose proof (quiet_opened_fds _ w1 (quiet_os_close is_open fd eq_refl)) as Hy.
    destruct (os_close fd w1) as [[[]|e'|] w2]; cbn [fst snd] in *;
      try exact I.
    right. exists fd. split; congruence.
  - exact I.
Qed.

Lemma quiet_usb_send_command_any keep fd cmd timeout :
  (forall data, keep (EvWrite fd data) = false) ->
  quiet keep (UsbGpsMonitor.send_command fd cmd timeout).
Proof.
  intro Hk. unfold UsbGpsMonitor.send_command.
  destruct (encode_ascii_strict (cmd ++ CRLF)); [|apply quiet_raise].
  apply quiet_bind.
  - apply quiet_try_except; intros; [|apply quiet_ret].
    apply quiet_bind; intros; [now apply quiet_os_write|apply quiet_ret].
  - intros written. destruct (negb written); [apply quiet_ret|].
    apply quiet_bind; [apply quiet_time_time|intros t].
    apply quiet_bind; [|intros; apply quiet_ret].
    intro w. apply quiet_send_command_loop.
Qed.

Lemma quiet_initialize_receiver_any keep fd :
  keep (EvFlush fd) = false ->
  (forall data, keep (EvWrite fd data) = false) ->
  quiet keep (UsbGpsMonitor.initialize_receiver fd).
Proof.
  intros Hf Hw. unfold UsbGpsMonitor.initialize_receiver.
  apply quiet_bind; [now apply quiet_tcflush|intros _].
  apply quiet_for_each. intro cmd. now apply quiet_usb_send_command_any.
Qed.

(** A candidate of [detect_gps] that does not match has its descriptor, if
    one was opened, closed once before the next candidate is tried. *)
Lemma unmatched_candidate_closed port baud w w' :
  UsbGpsMonitor.probe_candidate port baud w = (Ret None, w') ->
  opened_fds (trace w') = opened_fds (trace w)
  \/ exists fd,
       opened_fds (trace w') = opened_fds (trace w) ++ [fd]
       /\ times_closed fd (trace w') = S (times_closed fd (trace w)).
Proof.
  intro H. rewrite probe_candidate_run in H.
  pose proof (usb_open_serial_descriptors port baud w) as Hos.
  destruct (UsbGpsMonitor.open_serial port baud w) as [[[fd|]|e|] w0];
    cbn [fst snd] in Hos; try discriminate.
  2:{ injection H as <-. exact Hos. }
  destruct Hos as [Ho Hc].
  pose proof (quiet_opened_fds _ w0 (quiet_sniff_for_gps is_open fd 1500)) as Ho1.
  pose proof (quiet_times_closed fd _ w0
                (quiet_sniff_for_gps (is_close_of fd) fd 1500)) as Hc1.
  destruct (UsbGpsMonitor.sniff_for_gps fd 1500 w0) as [[[[|] s]|e|] w1];
    cbn [fst snd] in *; try discriminate.
  { pose proof (conclude_matched fd s w1) as Hm. rewrite H in Hm.
    discriminate. }
  pose proof (quiet_opened_fds _ w1
                (quiet_initialize_receiver_any is_open fd eq_refl
                   (fun _ => eq_refl))) as Ho2.
  pose proof (quiet_times_closed fd _ w1
                (quiet_initialize_receiver_any (is_close_of fd) fd eq_refl
                   (fun _ => eq_refl))) as Hc2.
  destruct (UsbGpsMonitor.initialize_receiver fd w1) as [[[]|e|] w2];
    cbn [fst snd] in *; try discriminate.
  pose proof (quiet_opened_fds _ w2 (quiet_sniff_for_gps is_open fd 4000)) as Ho3.
  pose proof (quiet_times_closed fd _ w2
                (quiet_sniff_for_gps (is_close_of fd) fd 4000)) as Hc3.
  destruct (UsbGpsMonitor.sniff_for_gps fd 4000 w2) as [[[[|] s2]|e|] w3];
    cbn [fst snd] in *; try discriminate.
  { pose proof (conclude_matched fd s2 w3) as Hm. rewrite H in Hm.
    discriminate. }
  unfold conclude in H. rewrite bind_run in H.
  pose proof (os_close_times_closed fd w3) as Hx.
  pose proof (quiet_opened_fds _ w3 (quiet_os_close is_open fd eq_refl)) as Hy.
  destruct (os_close fd w3) as [[[]|e|] w4]; cbn [fst snd] in *;
    try discriminate.
  injection H as <-. right. exists fd. split; congruence.
Qed.

(** C6 does not hold of the code.  With a receiver whose writes fail,
    [main] of [gps_run] leaves by an [OSError] out of [send_commands] with
    descriptor 3 opened, never closed and still open, where [main] of
    [gps_init], which sends in a [try] with a [finally], has closed it
    once.  Interrupted during a sniff, [detect_gps] leaves by
    [KeyboardInterrupt] with the descriptor of the candidate still open. *)
Theorem descriptor_left_open :
  (let r := GpsRun.main 10 run_args (boot [(usb1, unplugged)]) in
   fst r = Raise OSError
   /\ opened_fds (trace (snd r)) = [3]
   /\ times_closed 3 (trace (snd r)) = O
   /\ open_fds (snd r) = [3])
  /\ (let r := GpsInit.main (fun _ => None) [] init_args
                 (boot [(usb1, unplugged)]) in
      fst r = Raise OSError
      /\ opened_fds (trace (snd r)) = [3]
      /\ times_closed 3 (trace (snd r)) = 1%nat
      /\ open_fds (snd r) = [])
  /\ (let r := UsbGpsMonitor.detect_gps interrupted_scan in
      fst r = Raise KeyboardInterrupt
      /\ opened_fds (trace (snd r)) = [3]
      /\ times_closed 3 (trace (snd r)) = O
      /\ open_fds (snd r) = [3]).
Proof. vm_compute. repeat split. Qed.

End Descriptors.

(* ================================================================== *)
(** * Further properties: stripping and lines *)
(* ================================================================== *)

Module TextFacts.
Import Py OS Vocabulary PyFacts.

(** ** [strip] *)

Lemma lstrip_head s c t : lstrip s = c :: t -> isspace c = false.
Proof.
  induction s as [|d s IH]; simpl; [discriminate|].
  destruct (isspace d) eqn:E; [exact IH|].
  intro H. injection H as <- _. exact E.
Qed.

Lemma lstrip_fixed s c t : s = c :: t -> isspace c = false -> lstrip s = s.
Proof. intros -> H. simpl. now rewrite H. Qed.

Lemma lstrip_idem s : lstrip (lstrip s) = lstrip s.
Proof.
  destruct (lstrip s) as [|c t] eqn:E; [reflexivity|].
  eapply lstrip_fixed; [reflexivity|]. eapply lstrip_head. exact E.
Qed.

Lemma lstrip_snoc l c :
  isspace c = false -> lstrip (l ++ [c]) = lstrip l ++ [c].
Proof.
  intro H. induction l as [|d l IH]; simpl.
  - now rewrite H.
  - destruct (isspace d); [exact IH|reflexivity].
Qed.

Lemma rstrip_idem s : rstrip (rstrip s) = rstrip s.
Proof. unfold rstrip. now rewrite rev_involutive, lstrip_idem. Qed.

Lemma lstrip_rstrip_lstrip s : lstrip (rstrip (lstrip s)) = rstrip (lstrip s).
Proof.
  destruct (lstrip s) as [|c t] eqn:E; [reflexivity|].
  pose proof (lstrip_head _ _ _ E) as Hc.
  unfold rstrip. simpl rev. rewrite (lstrip_snoc _ _ Hc), rev_app_distr.
  simpl. now rewrite Hc.
Qed.

(** Stripping twice is stripping once. *)
Lemma strip_idem s : strip (strip s) = strip s.
Proof.
  unfold strip. rewrite lstrip_rstrip_lstrip. apply rstrip_idem.
Qed.

(** ** [splitlines] *)

Section Lines.
Context {A : Type}.
Variable is_break : A -> bool.
Variable is_cr : A -> bool.
Variable is_lf : A -> bool.

Lemma in_cons_first (c : A) ls line x :
  In line (cons_first c ls) -> In x line ->
  x = c \/ exists line', In line' ls /\ In x line'.
Proof.
  destruct ls as [|l ls]; simpl.
  - intros [<-|[]] [<-|[]]. now left.
  - intros [<-|Hl] Hx.
    + destruct Hx as [<-|Hx]; [now left|]. right. exists l. auto.
    + right. exists line. auto.
Qed.

(** The elements of a line are elements of the text, and none is a
    break. *)
Lemma splitlines_lines n :
  forall s, (length s <= n)%nat ->
  forall line x,
    In line (splitlines is_break is_cr is_lf s) -> In x line ->
    In x s /\ is_break x = false.
Proof.
  induction n as [|n IH]; intros s Hn line x.
  - destruct s; [simpl; tauto|simpl in Hn; lia].
  - destruct s as [|c rest]; [simpl; tauto|].
    simpl in Hn. simpl splitlines.
    destruct (is_cr c) eqn:Ecr.
    + destruct rest as [|d rest'].
      * intros [<-|[]] [].
      * destruct (is_lf d).
        -- intros [<-|Hl] Hx; [destruct Hx|].
           destruct (IH rest' ltac:(simpl in Hn; lia) line x Hl Hx) as [H1 H2].
           split; [right; right; exact H1|exact H2].
        -- intros [<-|Hl] Hx; [destruct Hx|].
           destruct (IH (d :: rest') ltac:(simpl in *; lia) line x Hl Hx)
             as [H1 H2].
           split; [right; exact H1|exact H2].
    + destruct (is_break c) eqn:Eb.
      * intros [<-|Hl] Hx; [destruct Hx|].
        destruct (IH rest ltac:(lia) line x Hl Hx) as [H1 H2].
        split; [right; exact H1|exact H2].
      * intros Hl Hx.
        destruct (in_cons_first _ _ _ _ Hl Hx) as [->|(line' & Hl' & Hx')].
        -- split; [now left|exact Eb].
        -- destruct (IH rest ltac:(lia) line' x Hl' Hx') as [H1 H2].
           split; [right; exact H1|exact H2].
Qed.
End Lines.

Lemma bytes_splitlines_lines data line b :
  In line (bytes_splitlines data) -> In b line ->
  In b data /\ b <> LF /\ b <> CR.
Proof.
  intros Hl Hb. unfold bytes_splitlines in Hl.
  destruct (splitlines_lines _ _ _ (length data) data (le_n _) line b Hl Hb)
    as [H1 H2].
  split; [exact H1|].
  apply orb_false_iff in H2 as [H2 H3].
  split; intros ->; [vm_compute in H2|vm_compute in H3]; discriminate.
Qed.

End TextFacts.

(* ================================================================== *)
(** * Further properties of the command files *)
(* ================================================================== *)

Module CommandFileFacts.
Import Py OS Vocabulary PyFacts TextFacts GpsInit.

(** What [parse_command_line] does with the line once the comment is
    gone. *)
Definition command_of (line : pystr) : option pystr :=
  if negb (str_startswith line [DASH]) then None
  else
    let first_quote := find QUOTE line in
    let last_quote := rfind QUOTE line in
    let command :=
      if negb (first_quote =? -1) && (first_quote <? last_quote)
      then strip (slice line (first_quote + 1) last_quote)
      else strip (skipn 1 line) in
    if is_empty command then None else Some command.

Lemma parse_command_line_unfold raw_line :
  parse_command_line raw_line
  = if negb (str_startswith (strip raw_line) [DASH]) then None
    else command_of (if str_contains HASH (strip raw_line)
                     then strip (before_first HASH (strip raw_line))
                     else strip raw_line).
Proof. reflexivity. Qed.

Lemma command_of_stripped line c :
  command_of line = Some c -> c <> [] /\ strip c = c.
Proof.
  unfold command_of. destruct (negb (str_startswith line [DASH]));
    [discriminate|].
  cbv zeta.
  destruct (negb (find QUOTE line =? -1) && (find QUOTE line <? rfind QUOTE line)).
  - destruct (is_empty _) eqn:E; [discriminate|].
    intro H. injection H as <-. split.
    + now apply is_empty_false.
    + apply strip_idem.
  - destruct (is_empty _) eqn:E; [discriminate|].
    intro H. injection H as <-. split.
    + now apply is_empty_false.
    + apply strip_idem.
Qed.

Lemma parse_command_line_stripped raw_line c :
  parse_command_line raw_line = Some c -> c <> [] /\ strip c = c.
Proof.
  rewrite parse_command_line_unfold.
  destruct (negb (str_startswith (strip raw_line) [DASH])); [discriminate|].
  apply command_of_stripped.
Qed.

Lemma parse_lines_in (lines : list pystr) (acc : list pystr) c :
  In c (fold_left
          (fun commands raw_line =>
             match parse_command_line raw_line with
             | Some command => commands ++ [command]
             | None => commands
             end) lines acc) ->
  In c acc \/ exists raw_line, In raw_line lines
                               /\ parse_command_line raw_line = Some c.
Proof.
  revert acc. induction lines as [|l lines IH]; intro acc; simpl.
  - auto.
  - intro H. apply IH in H as [H|(r & Hr & Hp)].
    + destruct (parse_command_line l) as [c'|] eqn:E.
      * apply in_app_or in H as [H|[<-|[]]]; [now left|].
        right. exists l. auto.
      * now left.
    + right. exists r. auto.
Qed.

(** X1.  Every command [parse_command_file] returns is non-empty and
    carries no white space at either end; a file that does not exist gives
    no command. *)
Theorem parse_command_file_stripped :
  forall (read_text : pystr -> option pystr) (path : pystr),
    (forall c, In c (parse_command_file read_text path) ->
               c <> [] /\ strip c = c)
    /\ (read_text path = None -> parse_command_file read_text path = []).
Proof.
  intros read_text path. unfold parse_command_file.
  destruct (read_text path) as [text|]; split.
  - intros c H. apply parse_lines_in in H as [[]|(r & _ & Hp)].
    eapply parse_command_line_stripped. exact Hp.
  - discriminate.
  - intros c [].
  - reflexivity.
Qed.

(** ** Comments *)

Lemma lstrip_app_spaces p x :
  forallb isspace p = true -> lstrip (p ++ x) = lstrip x.
Proof.
  induction p as [|c p IH]; simpl; [reflexivity|].
  intro H. apply andb_true_iff in H as [Hc Hp]. rewrite Hc. now apply IH.
Qed.

Lemma lstrip_app_text p x :
  forallb isspace p = false -> lstrip (p ++ x) = lstrip p ++ x.
Proof.
  induction p as [|c p IH]; simpl; [discriminate|].
  destruct (isspace c); simpl; [exact IH|reflexivity].
Qed.

Lemma lstrip_text_nonempty p : forallb isspace p = false -> lstrip p <> [].
Proof.
  induction p as [|c p IH]; simpl; [discriminate|].
  destruct (isspace c); simpl; [exact IH|discriminate].
Qed.

Lemma lstrip_suffix p : exists q, p = q ++ lstrip p.
Proof.
  induction p as [|c p [q IH]]; simpl.
  - exists []. reflexivity.
  - destruct (isspace c).
    + exists (c :: q). simpl. now rewrite <- IH.
    + exists []. reflexivity.
Qed.

(** Stripping on the right does not reach past a character that is no
    white space. *)
Lemma rstrip_keeps u c q :
  isspace c = false -> exists q', rstrip (u ++ c :: q) = u ++ c :: q'.
Proof.
  intro Hc. unfold rstrip.
  rewrite rev_app_distr. simpl rev. rewrite <- app_assoc. simpl app.
  destruct (lstrip_suffix (rev q)) as [d Hd].
  destruct (forallb isspace (rev q)) eqn:Es.
  - rewrite lstrip_app_spaces by exact Es. simpl. rewrite Hc.
    exists []. simpl. rewrite rev_involutive. reflexivity.
  - rewrite lstrip_app_text by exact Es.
    exists (rev (lstrip (rev q))).
    rewrite rev_app_distr. simpl.
    rewrite rev_involutive, <- app_assoc. reflexivity.
Qed.

Lemma before_first_app u q :
  str_contains HASH u = false -> before_first HASH (u ++ HASH :: q) = u.
Proof.
  unfold str_contains.
  induction u as [|c u IH]; cbn [existsb before_first app].
  - now rewrite N.eqb_refl.
  - intro H. apply orb_false_iff in H as [H1 H2].
    rewrite N.eqb_sym in H1. rewrite H1. now rewrite IH.
Qed.

Lemma str_contains_app c u v :
  str_contains c (u ++ v) = str_contains c u || str_contains c v.
Proof. apply existsb_app. Qed.

Lemma str_startswith_app u v c :
  u <> [] -> str_startswith (u ++ v) [c] = str_startswith u [c].
Proof. destruct u; [congruence|reflexivity]. Qed.

Lemma isspace_HASH : isspace HASH = false.
Proof. reflexivity. Qed.

Lemma str_contains_lstrip c p :
  str_contains c p = false -> str_contains c (lstrip p) = false.
Proof.
  destruct (lstrip_suffix p) as [q Hq]. intro H. rewrite Hq in H.
  rewrite str_contains_app in H. now apply orb_false_iff in H as [_ H].
Qed.

(** The line up to its first [#]. *)
Lemma parse_command_line_cut p q :
  str_contains HASH p = false ->
  parse_command_line (p ++ HASH :: q)
  = if forallb isspace p then None
    else if negb (str_startswith (lstrip p) [DASH]) then None
         else command_of (strip p).
Proof.
  intro Hp. rewrite parse_command_line_unfold.
  destruct (forallb isspace p) eqn:Es.
  - assert (E : exists q', strip (p ++ HASH :: q) = HASH :: q').
    { unfold strip. rewrite lstrip_app_spaces by exact Es.
      change (lstrip (HASH :: q)) with (HASH :: q).
      exact (rstrip_keeps [] HASH q isspace_HASH). }
    destruct E as [q' ->]. reflexivity.
  - assert (E : exists q', strip (p ++ HASH :: q) = lstrip p ++ HASH :: q').
    { unfold strip. rewrite lstrip_app_text by exact Es.
      exact (rstrip_keeps (lstrip p) HASH q isspace_HASH). }
    destruct E as [q' ->].
    rewrite str_startswith_app by (now apply lstrip_text_nonempty).
    destruct (negb (str_startswith (lstrip p) [DASH])); [reflexivity|].
    rewrite str_contains_app.
    change (str_contains HASH (HASH :: q')) with true.
    rewrite orb_true_r.
    rewrite before_first_app by (now apply str_contains_lstrip).
    unfold strip. now rewrite lstrip_idem.
Qed.

(** X2.  What follows the first [#] of a line has no influence on the
    command read from the line, inside quotes as well. *)
Theorem parse_command_line_comment :
  forall p q q' : pystr,
    str_contains HASH p = false ->
    parse_command_line (p ++ HASH :: q) = parse_command_line (p ++ HASH :: q').
Proof.
  intros p q q' Hp. now rewrite !parse_command_line_cut.
Qed.

Lemma parse_command_line_comment_witness :
  str_contains HASH (str "- LOG GPGGA ONTIME 1 ") = false
  /\ parse_command_line (str "- LOG GPGGA ONTIME 1 " ++ HASH :: str " 1 Hz")
     = parse_command_line (str "- LOG GPGGA ONTIME 1 " ++ HASH :: []).
Proof.
  assert (H : str_contains HASH (str "- LOG GPGGA ONTIME 1 ") = false)
    by reflexivity.
  split; [exact H|].
  exact (parse_command_line_comment _ (str " 1 Hz") [] H).
Defined.

(** ** Quoted commands *)

Lemma find_rev_last c s : find c (rev (s ++ [c])) = 0.
Proof. rewrite rev_app_distr. simpl. now rewrite N.eqb_refl. Qed.

Lemma rstrip_fixed s c : isspace c = false -> rstrip (s ++ [c]) = s ++ [c].
Proof.
  intro H. unfold rstrip. rewrite rev_app_distr. simpl. rewrite H.
  simpl. now rewrite rev_involutive.
Qed.

(** X3.  A list item [- "command"] whose command holds no [#] is read
    back as the command, stripped: the text between the first and the last
    quote of the line, so that quotes inside the command are kept. *)
Theorem parse_quoted_item_round_trip :
  forall cmd : pystr,
    str_contains HASH cmd = false ->
    strip cmd <> [] ->
    parse_command_line (str "- " ++ [QUOTE] ++ cmd ++ [QUOTE])
    = Some (strip cmd).
Proof.
  intros cmd Hh Hne.
  change (parse_command_line ((DASH :: 32%N :: QUOTE :: cmd) ++ [QUOTE])
          = Some (strip cmd)).
  set (raw := (DASH :: 32%N :: QUOTE :: cmd) ++ [QUOTE]).
  assert (Hs : strip raw = raw).
  { unfold strip, raw. change (lstrip ((DASH :: 32%N :: QUOTE :: cmd) ++ [QUOTE]))
      with ((DASH :: 32%N :: QUOTE :: cmd) ++ [QUOTE]).
    now apply rstrip_fixed. }
  rewrite parse_command_line_unfold, Hs.
  assert (Hc : str_contains HASH raw = false).
  { unfold raw. rewrite str_contains_app.
    change (str_contains HASH (DASH :: 32%N :: QUOTE :: cmd))
      with (str_contains HASH cmd).
    rewrite Hh. reflexivity. }
  rewrite Hc. unfold command_of.
  change (str_startswith raw [DASH]) with true. cbn [negb].
  assert (Hf : find QUOTE raw = 2) by reflexivity.
  assert (Hr : rfind QUOTE raw = Z.of_nat (length cmd) + 3).
  { unfold rfind, raw. rewrite find_rev_last.
    change (0 <? 0) with false. cbv iota.
    rewrite length_app. cbn [length]. lia. }
  cbv zeta. rewrite Hf, Hr.
  replace (negb (2 =? -1) && (2 <? Z.of_nat (length cmd) + 3)) with true
    by (symmetry; apply andb_true_iff; split; [reflexivity|apply Z.ltb_lt; lia]).
  assert (Hsl : slice raw (2 + 1) (Z.of_nat (length cmd) + 3) = cmd).
  { unfold slice, raw.
    replace (Z.to_nat (Z.of_nat (length cmd) + 3 - (2 + 1))) with (length cmd)
      by lia.
    change (Z.to_nat (2 + 1)) with 3%nat.
    change (skipn 3 ((DASH :: 32%N :: QUOTE :: cmd) ++ [QUOTE]))
      with (cmd ++ [QUOTE]).
    rewrite firstn_app, firstn_all, Nat.sub_diag. simpl.
    apply app_nil_r. }
  rewrite Hsl.
  destruct (is_empty (strip cmd)) eqn:E; [|reflexivity].
  apply is_empty_true in E. contradiction.
Qed.

Lemma parse_quoted_item_round_trip_witness :
  str_contains HASH (str " LOG BESTPOS ONTIME 1 ") = false
  /\ strip (str " LOG BESTPOS ONTIME 1 ") <> []
  /\ parse_command_line
       (str "- " ++ [QUOTE] ++ str " LOG BESTPOS ONTIME 1 " ++ [QUOTE])
     = Some (str "LOG BESTPOS ONTIME 1").
Proof.
  assert (H1 : str_contains HASH (str " LOG BESTPOS ONTIME 1 ") = false)
    by reflexivity.
  assert (H2 : strip (str " LOG BESTPOS ONTIME 1 ") <> []) by discriminate.
  split; [exact H1|split; [exact H2|]].
  exact (parse_quoted_item_round_trip _ H1 H2).
Defined.

End CommandFileFacts.

(* ================================================================== *)
(** * Where the lines of a buffer stand in it *)
(* ================================================================== *)

Module LineFacts.
Import Py OS Vocabulary PyFacts TextFacts.

Section Positions.
Context {A : Type}.
Variable is_break : A -> bool.
Variable is_cr : A -> bool.
Variable is_lf : A -> bool.
Hypothesis cr_breaks : forall c, is_cr c = true -> is_break c = true.
Hypothesis lf_breaks : forall c, is_lf c = true -> is_break c = true.

Lemma splitlines_nonempty s : s <> [] -> splitlines is_break is_cr is_lf s <> [].
Proof.
  destruct s as [|c rest]; [congruence|]. intros _. simpl.
  destruct (is_cr c).
  - destruct rest as [|d rest']; [discriminate|].
    destruct (is_lf d); discriminate.
  - destruct (is_break c); [discriminate|].
    destruct (splitlines is_break is_cr is_lf rest); discriminate.
Qed.

Lemma cons_first_app (c : A) ls ys :
  ls <> [] -> cons_first c (ls ++ ys) = cons_first c ls ++ ys.
Proof. destruct ls; [congruence|reflexivity]. Qed.

Lemma splitlines_cr_lf c d r :
  is_cr c = true -> is_lf d = true ->
  splitlines is_break is_cr is_lf (c :: d :: r)
  = [] :: splitlines is_break is_cr is_lf r.
Proof. intros H1 H2. simpl. now rewrite H1, H2. Qed.

Lemma splitlines_cr c d r :
  is_cr c = true -> is_lf d = false ->
  splitlines is_break is_cr is_lf (c :: d :: r)
  = [] :: splitlines is_break is_cr is_lf (d :: r).
Proof.
  intros H1 H2.
  change (splitlines is_break is_cr is_lf (c :: d :: r))
    with (if is_cr c
          then if is_lf d then [] :: splitlines is_break is_cr is_lf r
               else [] :: splitlines is_break is_cr is_lf (d :: r)
          else if is_break c
               then [] :: splitlines is_break is_cr is_lf (d :: r)
               else cons_first c (splitlines is_break is_cr is_lf (d :: r))).
  now rewrite H1, H2.
Qed.

Lemma splitlines_cr_end c :
  is_cr c = true -> splitlines is_break is_cr is_lf [c] = [[]].
Proof. intros H1. simpl. now rewrite H1. Qed.

Lemma splitlines_break c r :
  is_cr c = false -> is_break c = true ->
  splitlines is_break is_cr is_lf (c :: r)
  = [] :: splitlines is_break is_cr is_lf r.
Proof.
  intros H1 H2.
  change (splitlines is_break is_cr is_lf (c :: r))
    with (if is_cr c
          then match r with
               | d :: r' =>
                   if is_lf d then [] :: splitlines is_break is_cr is_lf r'
                   else [] :: splitlines is_break is_cr is_lf r
               | [] => [[]]
               end
          else if is_break c then [] :: splitlines is_break is_cr is_lf r
               else cons_first c (splitlines is_break is_cr is_lf r)).
  now rewrite H1, H2.
Qed.

Lemma splitlines_char c r :
  is_cr c = false -> is_break c = false ->
  splitlines is_break is_cr is_lf (c :: r)
  = cons_first c (splitlines is_break is_cr is_lf r).
Proof.
  intros H1 H2.
  change (splitlines is_break is_cr is_lf (c :: r))
    with (if is_cr c
          then match r with
               | d :: r' =>
                   if is_lf d then [] :: splitlines is_break is_cr is_lf r'
                   else [] :: splitlines is_break is_cr is_lf r
               | [] => [[]]
               end
          else if is_break c then [] :: splitlines is_break is_cr is_lf r
               else cons_first c (splitlines is_break is_cr is_lf r)).
  now rewrite H1, H2.
Qed.

(** A single break is a line of its own. *)
Lemma splitlines_one_break b :
  is_break b = true -> splitlines is_break is_cr is_lf [b] = [[]].
Proof.
  intro Hb. destruct (is_cr b) eqn:Ecr.
  - now apply splitlines_cr_end.
  - now rewrite splitlines_break.
Qed.

(** The text is split at a break independently on both sides, unless the
    break is a carriage return with a line feed behind it. *)
Lemma splitlines_at_break n :
  forall pre, (length pre <= n)%nat ->
  forall b x,
    is_break b = true ->
    (is_cr b = true -> forall d x', x = d :: x' -> is_lf d = false) ->
    splitlines is_break is_cr is_lf (pre ++ b :: x)
    = splitlines is_break is_cr is_lf (pre ++ [b])
      ++ splitlines is_break is_cr is_lf x.
Proof.
  assert (Hbase : forall b x,
             is_break b = true ->
             (is_cr b = true ->
              forall d x', x = d :: x' -> is_lf d = false) ->
             splitlines is_break is_cr is_lf (b :: x)
             = [] :: splitlines is_break is_cr is_lf x).
  { intros b x Hb Hx. destruct (is_cr b) eqn:Ecr.
    - destruct x as [|d x']; [now apply splitlines_cr_end|].
      apply splitlines_cr; [exact Ecr|]. exact (Hx eq_refl d x' eq_refl).
    - now apply splitlines_break. }
  induction n as [|n IH]; intros pre Hn b x Hb Hx.
  - destruct pre; [|simpl in Hn; lia]. cbn [app].
    rewrite (Hbase b x Hb Hx), (splitlines_one_break b Hb). reflexivity.
  - destruct pre as [|c p].
    + apply (IH []); auto. simpl. lia.
    + simpl in Hn. cbn [app].
      destruct (is_cr c) eqn:Ecr.
      * destruct p as [|d p']; cbn [app].
        -- destruct (is_lf b) eqn:Elf.
           ++ rewrite !(splitlines_cr_lf c b) by assumption. reflexivity.
           ++ rewrite !(splitlines_cr c b) by assumption.
              rewrite (Hbase b x Hb Hx), (splitlines_one_break b Hb).
              reflexivity.
        -- destruct (is_lf d) eqn:Elf.
           ++ rewrite !(splitlines_cr_lf c d) by assumption.
              rewrite (IH p' ltac:(simpl in Hn; lia) b x Hb Hx). reflexivity.
           ++ rewrite !(splitlines_cr c d) by assumption.
              pose proof (IH (d :: p') ltac:(simpl in *; lia) b x Hb Hx) as E.
              cbn [app] in E. rewrite E. reflexivity.
      * destruct (is_break c) eqn:Eb.
        -- rewrite !(splitlines_break c) by assumption.
           rewrite (IH p ltac:(lia) b x Hb Hx). reflexivity.
        -- rewrite !(splitlines_char c) by assumption.
           rewrite (IH p ltac:(lia) b x Hb Hx).
           apply cons_first_app. apply splitlines_nonempty.
           destruct p; discriminate.
Qed.

(** The first line opens the text; every other line stands right behind a
    break. *)
Lemma line_position n :
  forall s, (length s <= n)%nat ->
  forall l0 ls,
    splitlines is_break is_cr is_lf s = l0 :: ls ->
    (exists post, s = l0 ++ post)
    /\ (forall l, In l ls ->
          exists pre b post, s = pre ++ b :: l ++ post /\ is_break b = true).
Proof.
  induction n as [|n IH]; intros s Hn l0 ls.
  - destruct s; [discriminate|simpl in Hn; lia].
  - destruct s as [|c rest]; [discriminate|]. simpl in Hn.
    assert (Hafter : forall skipped rest0,
               (length rest0 <= n)%nat ->
               (exists b, skipped = [b] /\ is_break b = true)
               \/ (exists b0 b, skipped = [b0; b] /\ is_break b = true) ->
               forall l, In l (splitlines is_break is_cr is_lf rest0) ->
                 exists pre b post,
                   skipped ++ rest0 = pre ++ b :: l ++ post
                   /\ is_break b = true).
    { intros skipped rest0 Hlen Hsk l Hl.
      destruct (splitlines is_break is_cr is_lf rest0) as [|m0 ms] eqn:E; [destruct Hl|].
      destruct (IH rest0 Hlen m0 ms E) as [[post Hpost] Htail].
      destruct Hl as [<-|Hl].
      - destruct Hsk as [(b & -> & Hb)|(b0 & b & -> & Hb)].
        + exists [], b, post. rewrite Hpost at 1. auto.
        + exists [b0], b, post. rewrite Hpost at 1. auto.
      - destruct (Htail l Hl) as (pre & b & post' & E' & Hb).
        exists (skipped ++ pre), b, post'. rewrite <- app_assoc.
        rewrite E' at 1. auto. }
    simpl splitlines. destruct (is_cr c) eqn:Ecr.
    + destruct rest as [|d rest'].
      * intro H. injection H as <- <-. split; [exists [c]; reflexivity|].
        intros l [].
      * destruct (is_lf d) eqn:Elf.
        -- intro H. injection H as <- <-.
           split; [exists (c :: d :: rest'); reflexivity|].
           intros l Hl.
           apply (Hafter [c; d] rest' ltac:(simpl in Hn; lia)); [|exact Hl].
           right. exists c, d. auto.
        -- intro H. injection H as <- <-.
           split; [exists (c :: d :: rest'); reflexivity|].
           intros l Hl.
           apply (Hafter [c] (d :: rest') ltac:(simpl in *; lia)); [|exact Hl].
           left. exists c. auto.
    + destruct (is_break c) eqn:Eb.
      * intro H. injection H as <- <-.
        split; [exists (c :: rest); reflexivity|].
        intros l Hl. apply (Hafter [c] rest ltac:(lia)); [|exact Hl].
        left. exists c. auto.
      * destruct (splitlines is_break is_cr is_lf rest) as [|m0 ms] eqn:E; simpl.
        -- intro H. injection H as <- <-. split; [exists rest; reflexivity|].
           intros l [].
        -- intro H. injection H as <- <-.
           destruct (IH rest ltac:(lia) m0 ms E) as [[post Hpost] Htail].
           split; [exists post; simpl; now rewrite <- Hpost|].
           intros l Hl. destruct (Htail l Hl) as (pre & b & post' & E' & Hb).
           exists (c :: pre), b, post'. simpl. rewrite <- E'. auto.
Qed.
End Positions.

(** ** The lines of a byte buffer *)

Definition line_break (b : byte) : bool := Byte.eqb b LF || Byte.eqb b CR.

Lemma line_break_iff b : line_break b = true <-> b = LF \/ b = CR.
Proof.
  unfold line_break. rewrite orb_true_iff. split.
  - intros [H|H]; apply Byte.byte_dec_bl in H; auto.
  - intros [->| ->]; [left|right]; reflexivity.
Qed.

Lemma bytes_startswith_iff (s prefix : pybytes) :
  bytes_startswith s prefix = true <-> exists rest, s = prefix ++ rest.
Proof.
  unfold bytes_startswith. revert s.
  induction prefix as [|p prefix IH]; intro s; simpl.
  - split; eauto.
  - destruct s as [|c s'].
    + split; [discriminate|]. intros [rest H]. discriminate.
    + rewrite andb_true_iff, IH. split.
      * intros [H [rest ->]]. apply Byte.byte_dec_bl in H. subst.
        exists rest. reflexivity.
      * intros [rest H]. injection H as -> ->.
        split; [now apply Byte.byte_dec_lb|eauto].
Qed.

(** The inner loop of [sniff_for_gps]: the line starts with one of the
    prefixes. *)
Definition nmea_start (line : pybytes) : bool :=
  existsb (fun prefix => bytes_startswith line prefix)
    UsbGpsMonitor.NMEA_PREFIXES.

Lemma nmea_start_iff line :
  nmea_start line = true
  <-> exists prefix rest,
        In prefix UsbGpsMonitor.NMEA_PREFIXES /\ line = prefix ++ rest.
Proof.
  unfold nmea_start. rewrite existsb_exists. split.
  - intros (prefix & Hin & Hs). apply bytes_startswith_iff in Hs as [rest ->].
    eauto.
  - intros (prefix & rest & Hin & ->). exists prefix. split; [exact Hin|].
    apply bytes_startswith_iff. eauto.
Qed.

Lemma nmea_prefix_head prefix :
  In prefix UsbGpsMonitor.NMEA_PREFIXES ->
  exists t, prefix = "$"%byte :: t.
Proof.
  unfold UsbGpsMonitor.NMEA_PREFIXES. simpl.
  intros [<-|[<-|[<-|[<-|[<-|[]]]]]]; eexists; reflexivity.
Qed.

(** A buffer that starts with a prefix has a line that does. *)
Lemma has_nmea_line_start (prefix rest : pybytes) :
  In prefix UsbGpsMonitor.NMEA_PREFIXES ->
  UsbGpsMonitor.has_nmea_line (prefix ++ rest) = true.
Proof.
  unfold UsbGpsMonitor.NMEA_PREFIXES. simpl.
  intros [<-|[<-|[<-|[<-|[<-|[]]]]]];
    unfold UsbGpsMonitor.has_nmea_line, bytes_splitlines; simpl;
    destruct (splitlines _ _ _ rest); reflexivity.
Qed.

(** X4.  [sniff_for_gps] finds a sentence in the captured bytes exactly
    when one of the prefixes stands at the very start of them or right
    behind a line feed or a carriage return. *)
Theorem has_nmea_line_iff :
  forall captured : pybytes,
    UsbGpsMonitor.has_nmea_line captured = true
    <-> exists pre prefix rest,
          captured = pre ++ prefix ++ rest
          /\ In prefix UsbGpsMonitor.NMEA_PREFIXES
          /\ (pre = [] \/ exists pre' b, pre = pre' ++ [b]
                                         /\ (b = LF \/ b = CR)).
Proof.
  intro captured. split.
  - unfold UsbGpsMonitor.has_nmea_line. rewrite existsb_exists.
    intros (line & Hin & Hs).
    change (nmea_start line = true) in Hs.
    apply nmea_start_iff in Hs as (prefix & rest & Hp & ->).
    unfold bytes_splitlines in Hin.
    destruct (splitlines _ _ _ captured) as [|l0 ls] eqn:E; [destruct Hin|].
    destruct (line_position line_break (fun b => Byte.eqb b CR)
                (fun b => Byte.eqb b LF)
                ltac:(intros c H; unfold line_break; rewrite H; apply orb_true_r)
                ltac:(intros c H; unfold line_break; rewrite H; reflexivity)
                (length captured) captured (le_n _) l0 ls E)
      as [[post Hpost] Htail].
    destruct Hin as [->|Hin].
    + exists [], prefix, (rest ++ post). rewrite Hpost, <- app_assoc. auto.
    + destruct (Htail _ Hin) as (pre & b & post' & -> & Hb).
      exists (pre ++ [b]), prefix, (rest ++ post').
      rewrite <- !app_assoc. simpl. split; [reflexivity|].
      split; [exact Hp|]. right. exists pre, b. split; [reflexivity|].
      now apply line_break_iff.
  - intros (pre & prefix & rest & -> & Hp & [->|(pre' & b & -> & Hb)]).
    + exact (has_nmea_line_start prefix rest Hp).
    + rewrite <- app_assoc. cbn [app].
      unfold UsbGpsMonitor.has_nmea_line, bytes_splitlines.
      rewrite (splitlines_at_break _ _ _ (length pre') pre' (le_n _) b
                 (prefix ++ rest)).
      * rewrite existsb_app. apply orb_true_iff. right.
        exact (has_nmea_line_start prefix rest Hp).
      * now apply line_break_iff.
      * intros _ d x' E.
        destruct (nmea_prefix_head prefix Hp) as [t ->].
        injection E as <- _. reflexivity.
Qed.

End LineFacts.

(** * What the sniff reports *)

Module SniffMatch.
Import Py OS Vocabulary PyFacts IOFacts Scenarios Polling PollingLoops
  ReplyCollection Sniffing LineFacts.
Local Open Scope io_scope.










End SniffMatch.

(* ================================================================== *)
(** * Further properties of the streaming loops *)
(* ================================================================== *)

Module StreamingFacts.
Import Py OS Vocabulary PyFacts IOFacts Scenarios Polling TextFacts Streaming.
Local Open Scope io_scope.

(** What a line of the output looks like: it is not empty, it holds no
    line feed and no carriage return, and each of its characters is ASCII
    or the replacement character. *)
Definition printable_line (text : pystr) : Prop :=
  text <> []
  /\ forall c, In c text ->
       c <> 10%N /\ c <> 13%N /\ ((c < 128)%N \/ c = REPLACEMENT).

Definition sentence_like (text : pystr) : Prop :=
  exists rest, text = 36%N :: rest \/ text = 60%N :: rest.

Lemma to_N_LF b : Byte.to_N b = 10%N -> b = LF.
Proof.
  intro H. apply (f_equal Byte.of_N) in H. rewrite Byte.of_to_N in H.
  now injection H.
Qed.

Lemma to_N_CR b : Byte.to_N b = 13%N -> b = CR.
Proof.
  intro H. apply (f_equal Byte.of_N) in H. rewrite Byte.of_to_N in H.
  now injection H.
Qed.

Lemma str_startswith_one (text : pystr) (c : N) :
  str_startswith text [c] = true -> exists rest, text = c :: rest.
Proof.
  unfold str_startswith.
  destruct text as [|d rest]; cbn [startswith]; [discriminate|].
  intro H. apply andb_true_iff in H as [H _].
  apply N.eqb_eq in H. subst. eauto.
Qed.

Lemma emitted_lines nmea_only data text :
  In text (emitted nmea_only data) ->
  printable_line text /\ (nmea_only = true -> sentence_like text).
Proof.
  unfold emitted. rewrite filter_In, in_map_iff.
  intros [(line & <- & Hl) Hf]. apply filter_In in Hl as [Hl Hne].
  apply negb_true_iff, is_empty_false in Hne.
  split; [split|].
  - destruct line; [congruence|discriminate].
  - intros c Hc. unfold decode_ascii_replace in Hc.
    apply in_map_iff in Hc as (b & <- & Hb).
    destruct (bytes_splitlines_lines data line b Hl Hb) as (_ & Hlf & Hcr).
    destruct (Byte.to_N b <? 128)%N eqn:E.
    + apply N.ltb_lt in E. repeat split.
      * intro H. apply Hlf. now apply to_N_LF.
      * intro H. apply Hcr. now apply to_N_CR.
      * now left.
    + repeat split; try discriminate. now right.
  - intros ->. simpl in Hf. apply orb_true_iff in Hf as [Hf|Hf];
      apply str_startswith_one in Hf as [rest Hf]; exists rest; auto.
Qed.

Lemma stream_output_stdout fuel fd nmea_only w :
  exists evs,
    stdout (snd (GpsRun.stream_output fuel fd nmea_only w))
    = stdout w ++ flat_map (emitted nmea_only) (chunks_of evs).
Proof.
  destruct (GpsRun.stream_output_loop fuel fd nmea_only w) as [r w1] eqn:El.
  destruct (stream_output_loop_prints fuel fd nmea_only w r w1 El)
    as (evs & _ & Hout).
  exists evs.
  unfold GpsRun.stream_output, try_finally, try_except. rewrite El.
  pose proof (os_close_stdout fd w1) as Hc.
  destruct r as [[]|e|]; cbn [fst snd].
  - destruct (os_close fd w1) as [[[]|e'|] w2]; simpl in *; congruence.
  - destruct (is_KeyboardInterrupt e); unfold ret;
      destruct (os_close fd w1) as [[[]|e'|] w2]; simpl in *; congruence.
  - exact Hout.
Qed.

(** X5.  Whatever the receiver sends and however the run ends, every line
    [stream_output] prints is non-empty, holds neither a line feed nor a
    carriage return, consists of ASCII characters and replacement
    characters only and, with the filter on, starts with [$] or [<]. *)
Theorem stream_output_lines_printable :
  forall (fuel : nat) (fd : Z) (nmea_only : bool) (w : world),
    exists out,
      stdout (snd (GpsRun.stream_output fuel fd nmea_only w)) = stdout w ++ out
      /\ forall text, In text out ->
           printable_line text /\ (nmea_only = true -> sentence_like text).
Proof.
  intros fuel fd nmea_only w.
  destruct (stream_output_stdout fuel fd nmea_only w) as [evs Hout].
  eexists. split; [exact Hout|].
  intros text Hin. apply in_flat_map in Hin as (data & _ & Hin).
  now apply emitted_lines in Hin.
Qed.

(** ** The two streaming loops *)

Lemma for_each_ext {A} (xs : list A) (f g : A -> io unit) w :
  (forall x w0, f x w0 = g x w0) -> for_each xs f w = for_each xs g w.
Proof.
  intro H. revert w. induction xs as [|x xs IH]; intro w; simpl.
  - reflexivity.
  - unfold bind. rewrite H. destruct (g x w) as [[[]|e|] w1]; auto.
Qed.

Lemma stream_loops_agree fuel fd w :
  UsbGpsMonitor.stream_sentences_loop fuel fd w
  = GpsRun.stream_output_loop fuel fd false w.
Proof.
  revert w. induction fuel as [|fuel IH]; intro w; [reflexivity|].
  simpl. unfold bind.
  destruct (select_select fd 1000 w) as [[ready|e|] w1]; try reflexivity.
  destruct (negb ready); [apply IH|].
  destruct (os_read fd 4096 w1) as [[data|e|] w2]; try reflexivity.
  destruct (is_empty data); [apply IH|].
  rewrite (for_each_ext (bytes_splitlines data) _ (GpsRun.emit_line false)).
  - destruct (for_each (bytes_splitlines data) (GpsRun.emit_line false) w2)
      as [[[]|e|] w3]; try reflexivity. apply IH.
  - intros line w0. unfold GpsRun.emit_line.
    destruct (is_empty line); reflexivity.
Qed.

(** X6.  [stream_sentences] of [usb_gps_monitor] is [stream_output] of
    [gps_run] with the filter off, run after the descriptor has been made
    blocking: the same calls, the same lines printed, the same way out. *)
Theorem stream_sentences_is_stream_output :
  forall (fuel : nat) (fd : Z) (w : world),
    UsbGpsMonitor.stream_sentences fuel fd w
    = (UsbGpsMonitor.make_blocking fd ;; GpsRun.stream_output fuel fd false) w.
Proof.
  intros fuel fd w.
  unfold UsbGpsMonitor.stream_sentences, GpsRun.stream_output, bind.
  destruct (UsbGpsMonitor.make_blocking fd w) as [[[]|e|] w1]; try reflexivity.
  unfold try_finally, try_except. now rewrite stream_loops_agree.
Qed.

End StreamingFacts.

(* ================================================================== *)
(** * The descriptor table *)
(* ================================================================== *)

Module TableFacts.
Import Py OS Vocabulary PyFacts IOFacts Scenarios Polling PollingLoops.
Local Open Scope io_scope.

(** [fd] is the newest entry of the table, on top of the entries [tab]. *)
Definition on_top (fd : Z) (tab : list (Z * open_file)) (w : world) : Prop :=
  exists f, fdtab w = (fd, f) :: tab.

Definition stays (fd : Z) (tab : list (Z * open_file)) (w w' : world)
  : Prop :=
  on_top fd tab w -> on_top fd tab w'.

(** [steady fd tab m]: [m] leaves [fd] where it is in the table, and the
    entries below it as they are. *)
Definition steady (fd : Z) (tab : list (Z * open_file)) {A} (m : io A)
  : Prop :=
  keeps (stays fd tab) m.

Lemma stays_refl fd tab w : stays fd tab w w.
Proof. intro H. exact H. Qed.

Lemma stays_trans fd tab w1 w2 w3 :
  stays fd tab w1 w2 -> stays fd tab w2 w3 -> stays fd tab w1 w3.
Proof. unfold stays. auto. Qed.

Lemma update_top {B} fd (v f : B) tab :
  update fd v ((fd, f) :: tab) = (fd, v) :: tab.
Proof. simpl. now rewrite Z.eqb_refl. Qed.

Lemma remove_top {B} fd (f : B) tab : remove fd ((fd, f) :: tab) = tab.
Proof. simpl. now rewrite Z.eqb_refl. Qed.

Lemma get_fd_top fd f tab w : fdtab w = (fd, f) :: tab -> get_fd fd w = Some f.
Proof. intro H. unfold get_fd. rewrite H. simpl. now rewrite Z.eqb_refl. Qed.

Section Steady.
Variable fd : Z.
Variable tab : list (Z * open_file).

(** A call that leaves the table alone or rewrites the entry of [fd]. *)
Definition touches_only {A} (m : io A) : Prop :=
  forall w, fdtab (snd (m w)) = fdtab w
            \/ exists v, fdtab (snd (m w)) = update fd v (fdtab w).

Lemma steady_touches {A} (m : io A) : touches_only m -> steady fd tab m.
Proof.
  intros H w [f Hf]. unfold on_top.
  destruct (H w) as [E|[v E]]; rewrite E, Hf.
  - exists f. reflexivity.
  - exists v. apply update_top.
Qed.

Lemma block_until_fdtab {A} t (a : A) w :
  fdtab (snd (block_until t a w)) = fdtab w.
Proof.
  unfold block_until. destruct (interrupt_at w) as [ti|]; [|reflexivity].
  destruct (ti <=? t); reflexivity.
Qed.

Lemma steady_time_time : steady fd tab time_time.
Proof. apply steady_touches. intro w. now left. Qed.

Lemma steady_print line : steady fd tab (print line).
Proof. apply steady_touches. intro w. now left. Qed.

Lemma steady_time_sleep d : steady fd tab (time_sleep d).
Proof. apply steady_touches. intro w. left. apply block_until_fdtab. Qed.

Lemma steady_select fd' timeout : steady fd tab (select_select fd' timeout).
Proof.
  apply steady_touches. intro w. left. unfold select_select.
  destruct (get_fd fd' w) as [f|]; [|reflexivity].
  destruct (of_pending f) as [|e p]; [apply block_until_fdtab|].
  destruct (at_time e <=? now w + timeout); apply block_until_fdtab.
Qed.

Lemma steady_os_read n : steady fd tab (os_read fd n).
Proof.
  apply steady_touches. intro w. unfold os_read.
  destruct (get_fd fd w) as [f|]; [|now left].
  destruct (of_pending f) as [|e p].
  - destruct (of_nonblock f); now left.
  - destruct (at_time e <=? now w).
    + destruct (payload e); right; eexists; reflexivity.
    + destruct (of_nonblock f); now left.
Qed.

Lemma steady_os_write data : steady fd tab (os_write fd data).
Proof.
  apply steady_touches. intro w. unfold os_write.
  destruct (get_fd fd (log (EvWrite fd data) w)) as [f|]; [|now left].
  destruct (dev_write_ok (of_dev f) (now (log (EvWrite fd data) w)));
    [right; eexists; reflexivity|now left].
Qed.

Lemma touches_termios_call {A} (k : open_file -> io A) :
  (forall f, touches_only (k f)) -> touches_only (termios_call fd k).
Proof.
  intros Hk w. unfold termios_call.
  destruct (get_fd fd w) as [f|]; [|now left].
  destruct (dev_termios_ok (of_dev f) (now w)); [apply Hk|now left].
Qed.

Lemma steady_tcgetattr : steady fd tab (tcgetattr fd).
Proof.
  apply steady_touches, touches_termios_call. intros f w. now left.
Qed.

Lemma steady_tcsetattr attrs : steady fd tab (tcsetattr fd attrs).
Proof.
  apply steady_touches, touches_termios_call. intros f w.
  right. eexists. reflexivity.
Qed.

Lemma steady_tcflush : steady fd tab (tcflush fd).
Proof.
  apply steady_touches. intro w. unfold tcflush.
  assert (H : touches_only
                (termios_call fd
                   (fun f w0 =>
                      (Ret tt,
                       set_fdtab
                         (update fd
                            (with_pending
                               (drop_arrived (now w0) (of_pending f)) f)
                            (fdtab w0)) w0)))).
  { apply touches_termios_call. intros f w0. right. eexists. reflexivity. }
  exact (H (log (EvFlush fd) w)).
Qed.

Lemma steady_fcntl : steady fd tab (fcntl_clear_nonblock fd).
Proof.
  apply steady_touches. intro w. unfold fcntl_clear_nonblock.
  destruct (get_fd fd w) as [f|]; [right; eexists; reflexivity|now left].
Qed.

Lemma steady_ret {A} (a : A) : steady fd tab (ret a).
Proof. apply keeps_ret, stays_refl. Qed.

Lemma steady_raise {A} e : steady fd tab (@raise A e).
Proof. apply keeps_raise, stays_refl. Qed.

Lemma steady_diverge {A} : steady fd tab (@diverge A).
Proof. apply keeps_diverge, stays_refl. Qed.

Lemma steady_bind {A B} (m : io A) (k : A -> io B) :
  steady fd tab m -> (forall a, steady fd tab (k a)) ->
  steady fd tab (bind m k).
Proof. apply keeps_bind, stays_trans. Qed.

Lemma steady_try_except {A} (m : io A) catches (handler : exn -> io A) :
  steady fd tab m -> (forall e, steady fd tab (handler e)) ->
  steady fd tab (try_except m catches handler).
Proof. apply keeps_try_except, stays_trans. Qed.

Lemma steady_for_each {A} (xs : list A) (body : A -> io unit) :
  (forall x, steady fd tab (body x)) -> steady fd tab (for_each xs body).
Proof. apply keeps_for_each; [apply stays_refl|apply stays_trans]. Qed.
End Steady.

Ltac steady_prim :=
  first
    [ apply steady_ret | apply steady_raise | apply steady_diverge
    | apply steady_time_time | apply steady_time_sleep | apply steady_select
    | apply steady_os_read | apply steady_os_write | apply steady_tcgetattr
    | apply steady_tcsetattr | apply steady_tcflush | apply steady_fcntl
    | apply steady_print ].

Ltac steady_tac :=
  repeat
    first
      [ steady_prim
      | assumption
      | apply steady_bind; [|intros]
      | apply steady_try_except; [|intros]
      | apply steady_for_each; intros
      | match goal with
        | |- steady _ _ (if ?b then _ else _) => destruct b
        | |- steady _ _ (match ?x with _ => _ end) => destruct x
        end ].

Section SteadyPrograms.
Variable fd : Z.
Variable tab : list (Z * open_file).

Lemma steady_read_response_loop fuel deadline buffer :
  steady fd tab (GpsInit.read_response_loop fuel fd deadline buffer).
Proof.
  revert buffer. induction fuel as [|fuel IH]; intro buffer; simpl;
    steady_tac; apply IH.
Qed.

Lemma steady_read_response timeout :
  steady fd tab (GpsInit.read_response fd timeout).
Proof.
  unfold GpsInit.read_response. steady_tac.
  intro w. apply steady_read_response_loop.
Qed.

Lemma steady_send_commands commands timeout :
  steady fd tab (GpsInit.send_commands fd commands timeout).
Proof.
  unfold GpsInit.send_commands. apply steady_for_each. intro cmd.
  apply steady_bind; [apply steady_os_write|intros _].
  apply steady_bind; [apply steady_read_response|intros _].
  apply steady_time_sleep.
Qed.

Lemma steady_gps_init_configure_port baud :
  steady fd tab (GpsInit.configure_port fd baud).
Proof. unfold GpsInit.configure_port. steady_tac. Qed.

Lemma steady_usb_configure_port baud_const :
  steady fd tab (UsbGpsMonitor.configure_port fd baud_const).
Proof. unfold UsbGpsMonitor.configure_port. steady_tac. Qed.

Lemma steady_sniff_loop fuel deadline captured :
  steady fd tab (UsbGpsMonitor.sniff_loop fuel fd deadline captured).
Proof.
  revert captured. induction fuel as [|fuel IH]; intro captured; simpl;
    steady_tac; apply IH.
Qed.

Lemma steady_sniff_for_gps timeout :
  steady fd tab (UsbGpsMonitor.sniff_for_gps fd timeout).
Proof.
  unfold UsbGpsMonitor.sniff_for_gps. steady_tac.
  intro w. apply steady_sniff_loop.
Qed.

Lemma steady_send_command_loop fuel end_ reply :
  steady fd tab (UsbGpsMonitor.send_command_loop fuel fd end_ reply).
Proof.
  revert reply. induction fuel as [|fuel IH]; intro reply; simpl;
    steady_tac; apply IH.
Qed.

Lemma steady_usb_send_command cmd timeout :
  steady fd tab (UsbGpsMonitor.send_command fd cmd timeout).
Proof.
  unfold UsbGpsMonitor.send_command. steady_tac.
  intro w. apply steady_send_command_loop.
Qed.

Lemma steady_initialize_receiver :
  steady fd tab (UsbGpsMonitor.initialize_receiver fd).
Proof.
  unfold UsbGpsMonitor.initialize_receiver.
  apply steady_bind; [apply steady_tcflush|intros _].
  apply steady_for_each. intro cmd. apply steady_usb_send_command.
Qed.
End SteadyPrograms.

(** Closing the newest descriptor gives the table below it back. *)
Lemma os_close_top fd tab w :
  on_top fd tab w ->
  exists w', os_close fd w = (Ret tt, w') /\ fdtab w' = tab.
Proof.
  intros [f Hf]. unfold os_close.
  rewrite (get_fd_top fd f tab (log (EvClose fd) w) Hf).
  eexists. split; [reflexivity|]. simpl. rewrite Hf. apply remove_top.
Qed.

Lemma steady_run fd tab {A} (m : io A) w :
  steady fd tab m -> on_top fd tab w -> on_top fd tab (snd (m w)).
Proof. intros H Hw. exact (H w Hw). Qed.

End TableFacts.

(* ================================================================== *)
(** * The tools come to an end *)
(* ================================================================== *)

Module Termination.
Import Py OS Vocabulary PyFacts IOFacts Scenarios Polling PollingLoops
  ReplyCollection ResponseTime Sniffing Descriptors.
Local Open Scope io_scope.

Lemma ends_ret {A} (a : A) : ends (ret a).
Proof. intro w. discriminate. Qed.

Lemma ends_raise {A} e : ends (@raise A e).
Proof. intro w. discriminate. Qed.

Lemma ends_try_except {A} (m : io A) catches (handler : exn -> io A) :
  ends m -> (forall e, ends (handler e)) -> ends (try_except m catches handler).
Proof.
  intros Hm Hh w. unfold try_except. specialize (Hm w).
  destruct (m w) as [[a|e|] w1]; cbn [fst] in *;
    [discriminate| |congruence].
  destruct (catches e); [apply Hh|discriminate].
Qed.

Lemma ends_try_finally {A} (m : io A) (cleanup : io unit) :
  ends m -> ends cleanup -> ends (try_finally m cleanup).
Proof.
  intros Hm Hc w. unfold try_finally. specialize (Hm w).
  destruct (m w) as [[a|e|] w1]; cbn [fst] in *; try congruence;
    specialize (Hc w1); destruct (cleanup w1) as [[[]|e'|] w2];
    cbn [fst] in *; congruence.
Qed.

Lemma ends_for_each {A} (xs : list A) (body : A -> io unit) :
  (forall x, ends (body x)) -> ends (for_each xs body).
Proof.
  intro Hb. induction xs as [|x xs IH]; simpl.
  - apply ends_ret.
  - apply ends_bind; auto.
Qed.

Lemma ends_block_until {A} t (a : A) : ends (block_until t a).
Proof.
  intro w. unfold block_until. destruct (interrupt_at w) as [ti|];
    [destruct (ti <=? t)|]; discriminate.
Qed.

Lemma ends_time_time : ends time_time.
Proof. intro w. discriminate. Qed.

Lemma ends_print line : ends (print line).
Proof. intro w. discriminate. Qed.

Lemma ends_glob pattern : ends (glob_glob pattern).
Proof. intro w. discriminate. Qed.

Lemma ends_time_sleep d : ends (time_sleep d).
Proof. intro w. apply ends_block_until. Qed.

Lemma ends_os_write fd data : ends (os_write fd data).
Proof.
  intro w. unfold os_write.
  destruct (get_fd fd (log (EvWrite fd data) w)) as [f|]; [|discriminate].
  destruct (dev_write_ok (of_dev f) (now (log (EvWrite fd data) w)));
    discriminate.
Qed.

Lemma ends_os_close fd : ends (os_close fd).
Proof.
  intro w. unfold os_close.
  destruct (get_fd fd (log (EvClose fd) w)); discriminate.
Qed.

Lemma ends_os_open path : ends (os_open path).
Proof.
  intro w. unfold os_open.
  destruct (lookup str_eqb path (devices w)) as [dev|]; [|discriminate].
  destruct (dev_openable dev); discriminate.
Qed.

Lemma ends_tcflush fd : ends (tcflush fd).
Proof.
  intro w. unfold tcflush. apply ends_termios_call. intros f w'.
  discriminate.
Qed.

Lemma ends_fcntl fd : ends (fcntl_clear_nonblock fd).
Proof.
  intro w. unfold fcntl_clear_nonblock. destruct (get_fd fd w); discriminate.
Qed.

Lemma ends_read_response fd timeout : ends (GpsInit.read_response fd timeout).
Proof.
  intro w. rewrite read_response_run. cbn [fst].
  rewrite read_response_loop_poll. cbn [fst].
  pose proof (poll_loop_ends fd (now w + timeout) 100 false read_response_stop
                [] w ltac:(lia)) as H.
  destruct (fst (poll_loop _ _ _ _ _ _ _ _)); simpl; congruence.
Qed.

Lemma ends_send_commands fd commands timeout :
  ends (GpsInit.send_commands fd commands timeout).
Proof.
  unfold GpsInit.send_commands. apply ends_for_each. intro cmd.
  apply ends_bind; [apply ends_os_write|intros _].
  apply ends_bind; [apply ends_read_response|intros _].
  apply ends_time_sleep.
Qed.

Lemma ends_sniff_for_gps fd timeout :
  ends (UsbGpsMonitor.sniff_for_gps fd timeout).
Proof.
  intro w. rewrite sniff_for_gps_run. apply poll_loop_ends. lia.
Qed.

Lemma ends_usb_send_command fd cmd timeout :
  ends (UsbGpsMonitor.send_command fd cmd timeout).
Proof.
  unfold UsbGpsMonitor.send_command.
  destruct (encode_ascii_strict (cmd ++ CRLF)); [|apply ends_raise].
  apply ends_bind.
  - apply ends_try_except; [|intros; apply ends_ret].
    apply ends_bind; [apply ends_os_write|intros; apply ends_ret].
  - intros written. destruct (negb written); [apply ends_ret|].
    apply ends_bind; [apply ends_time_time|intros t].
    apply ends_bind; [|intros; apply ends_ret].
    intro w. rewrite send_command_loop_poll. cbn [fst].
    pose proof (poll_loop_ends fd (t + timeout) 200 true send_command_stop
                  [] w ltac:(lia)) as H.
    destruct (fst (poll_loop _ _ _ _ _ _ _ _)); simpl; congruence.
Qed.

Lemma ends_initialize_receiver fd : ends (UsbGpsMonitor.initialize_receiver fd).
Proof.
  unfold UsbGpsMonitor.initialize_receiver.
  apply ends_bind; [apply ends_tcflush|intros _].
  apply ends_for_each. intro cmd. apply ends_usb_send_command.
Qed.

Lemma ends_usb_configure_port fd baud_const :
  ends (UsbGpsMonitor.configure_port fd baud_const).
Proof.
  unfold UsbGpsMonitor.configure_port.
  apply ends_bind; [|intros _; apply ends_bind; [apply ends_tcflush|intros _]].
  - apply ends_termios_call. intros f w. discriminate.
  - apply ends_termios_call. intros f w. discriminate.
Qed.

End Termination.

(* ================================================================== *)
(** * What [open_serial] leaves behind *)
(* ================================================================== *)

Module Opening.
Import Py OS Vocabulary PyFacts IOFacts Scenarios BaudRates TableFacts
  Probe Descriptors.
Local Open Scope io_scope.

(** The line settings [configure_port] of [gps_init] asks for. *)
Definition gps_init_settings (baud_const : Z) : termios_attrs :=
  {| iflag := IGNPAR; oflag := 0;
     cflag := Z.lor (Z.lor CS8 CLOCAL) CREAD; lflag := 0;
     ispeed := baud_const; ospeed := baud_const; VMIN := 0; VTIME := 20 |}.

(** The line settings [configure_port] of [usb_gps_monitor] asks for. *)
Definition usb_settings (baud_const : Z) : termios_attrs :=
  {| iflag := 0; oflag := 0;
     cflag := Z.lor (Z.lor CS8 CLOCAL) CREAD; lflag := 0;
     ispeed := baud_const; ospeed := baud_const; VMIN := 0; VTIME := 1 |}.

Lemma os_open_run path w :
  match lookup str_eqb path (devices w) with
  | Some dev =>
      if dev_openable dev then
        exists w0,
          os_open path w = (Ret (next_fd w), w0)
          /\ fdtab w0 = (next_fd w,
                         {| of_dev := dev; of_attrs := default_attrs;
                            of_nonblock := true; of_pending := [] |})
                        :: fdtab w
          /\ now w0 = now w
          /\ trace w0 = trace w ++ [EvOpen path (Some (next_fd w))]
      else os_open path w = (Raise OSError, log (EvOpen path None) w)
  | None => os_open path w = (Raise OSError, log (EvOpen path None) w)
  end.
Proof.
  unfold os_open. destruct (lookup str_eqb path (devices w)) as [dev|];
    [|reflexivity].
  destruct (dev_openable dev); [|reflexivity].
  eexists. split; [reflexivity|]. simpl. auto.
Qed.

Lemma termios_call_top {A} fd f tab (k : open_file -> io A) w :
  fdtab w = (fd, f) :: tab ->
  termios_call fd k w
  = if dev_termios_ok (of_dev f) (now w) then k f w
    else (Raise TermiosError, w).
Proof.
  intro Hf. unfold termios_call. now rewrite (get_fd_top fd f tab w Hf).
Qed.

Lemma tcsetattr_top fd f tab attrs w :
  fdtab w = (fd, f) :: tab ->
  dev_termios_ok (of_dev f) (now w) = true ->
  exists w',
    tcsetattr fd attrs w = (Ret tt, w')
    /\ fdtab w' = (fd, {| of_dev := of_dev f; of_attrs := attrs;
                          of_nonblock := of_nonblock f;
                          of_pending := dev_feed (of_dev f) (ospeed attrs) |})
                  :: tab
    /\ now w' = now w /\ trace w' = trace w.
Proof.
  intros Hf Hok. unfold tcsetattr. rewrite (termios_call_top fd f tab _ w Hf).
  rewrite Hok. eexists. split; [reflexivity|]. simpl. rewrite Hf, update_top.
  auto.
Qed.

Lemma tcflush_top fd f tab w :
  fdtab w = (fd, f) :: tab ->
  dev_termios_ok (of_dev f) (now w) = true ->
  exists w',
    tcflush fd w = (Ret tt, w')
    /\ fdtab w' = (fd, with_pending (drop_arrived (now w) (of_pending f)) f)
                  :: tab
    /\ now w' = now w /\ trace w' = trace w ++ [EvFlush fd].
Proof.
  intros Hf Hok. unfold tcflush.
  rewrite (termios_call_top fd f tab _ (log (EvFlush fd) w) Hf).
  change (now (log (EvFlush fd) w)) with (now w). rewrite Hok.
  eexists. split; [reflexivity|]. simpl. rewrite Hf, update_top. auto.
Qed.

Lemma fcntl_top fd f tab w :
  fdtab w = (fd, f) :: tab ->
  exists w',
    fcntl_clear_nonblock fd w = (Ret tt, w')
    /\ fdtab w' = (fd, with_nonblock false f) :: tab
    /\ now w' = now w /\ trace w' = trace w.
Proof.
  intros Hf. unfold fcntl_clear_nonblock. rewrite (get_fd_top fd f tab w Hf).
  eexists. split; [reflexivity|]. simpl. rewrite Hf, update_top. auto.
Qed.

(** [configure_port] of [gps_init] on the newest descriptor. *)
Lemma gps_init_configure_port_run fd baud f tab w :
  fdtab w = (fd, f) :: tab ->
  match lookup Z.eqb baud GpsInit.baud_map with
  | None => GpsInit.configure_port fd baud w = (Raise (ValueError baud), w)
  | Some c =>
      if dev_termios_ok (of_dev f) (now w) then
        exists w',
          GpsInit.configure_port fd baud w = (Ret tt, w')
          /\ fdtab w'
             = (fd, {| of_dev := of_dev f; of_attrs := gps_init_settings c;
                       of_nonblock := false;
                       of_pending :=
                         drop_arrived (now w) (dev_feed (of_dev f) c) |})
               :: tab
          /\ now w' = now w /\ trace w' = trace w ++ [EvFlush fd]
      else GpsInit.configure_port fd baud w = (Raise TermiosError, w)
  end.
Proof.
  intro Hf. unfold GpsInit.configure_port.
  destruct (lookup Z.eqb baud GpsInit.baud_map) as [c|]; [|reflexivity].
  destruct (dev_termios_ok (of_dev f) (now w)) eqn:Eok.
  - rewrite bind_run. unfold tcgetattr.
    rewrite (termios_call_top fd f tab _ w Hf), Eok. cbn [ret].
    rewrite bind_run.
    destruct (tcsetattr_top fd f tab (gps_init_settings c) w Hf Eok)
      as (w1 & E1 & Hf1 & Hn1 & Ht1).
    unfold gps_init_settings in E1. rewrite E1.
    rewrite bind_run.
    destruct (tcflush_top fd _ tab w1 Hf1 ltac:(rewrite Hn1; exact Eok))
      as (w2 & E2 & Hf2 & Hn2 & Ht2).
    rewrite E2.
    destruct (fcntl_top fd _ tab w2 Hf2) as (w3 & E3 & Hf3 & Hn3 & Ht3).
    exists w3. split; [exact E3|]. rewrite Hf3, Hn3, Hn2, Hn1, Ht3, Ht2, Ht1.
    auto.
  - rewrite bind_run. unfold tcgetattr.
    now rewrite (termios_call_top fd f tab _ w Hf), Eok.
Qed.

(** [configure_port] of [usb_gps_monitor] on the newest descriptor. *)
Lemma usb_configure_port_run fd c f tab w :
  fdtab w = (fd, f) :: tab ->
  if dev_termios_ok (of_dev f) (now w) then
    exists w',
      UsbGpsMonitor.configure_port fd c w = (Ret tt, w')
      /\ fdtab w'
         = (fd, {| of_dev := of_dev f; of_attrs := usb_settings c;
                   of_nonblock := of_nonblock f;
                   of_pending := dev_feed (of_dev f) c |})
           :: tab
      /\ now w' = now w /\ trace w' = trace w ++ [EvFlush fd]
  else UsbGpsMonitor.configure_port fd c w = (Raise TermiosError, w).
Proof.
  intro Hf. unfold UsbGpsMonitor.configure_port.
  destruct (dev_termios_ok (of_dev f) (now w)) eqn:Eok.
  - rewrite bind_run. unfold tcgetattr.
    rewrite (termios_call_top fd f tab _ w Hf), Eok. cbn [ret].
    rewrite bind_run.
    destruct (tcflush_top fd f tab w Hf Eok) as (w1 & E1 & Hf1 & Hn1 & Ht1).
    rewrite E1.
    destruct (tcsetattr_top fd _ tab (usb_settings c) w1 Hf1
                ltac:(rewrite Hn1; exact Eok))
      as (w2 & E2 & Hf2 & Hn2 & Ht2).
    unfold usb_settings in E2. exists w2. split; [exact E2|].
    rewrite Hf2, Hn2, Hn1, Ht2, Ht1. auto.
  - rewrite bind_run. unfold tcgetattr.
    now rewrite (termios_call_top fd f tab _ w Hf), Eok.
Qed.

Lemma gps_init_open_serial_top :
  forall (port : pystr) (baud : Z) (w : world),
    match GpsInit.open_serial port baud w with
    | (Ret fd, w') =>
        fd = next_fd w
        /\ exists dev c,
             lookup str_eqb port (devices w) = Some dev
             /\ lookup Z.eqb baud GpsInit.baud_map = Some c
             /\ fdtab w'
                = (fd, {| of_dev := dev; of_attrs := gps_init_settings c;
                          of_nonblock := false;
                          of_pending :=
                            drop_arrived (now w) (dev_feed dev c) |})
                  :: fdtab w
    | (Raise e, w') =>
        fdtab w' = fdtab w
        /\ (e = OSError \/ e = TermiosError \/ e = ValueError baud)
    | (Diverge, _) => False
    end.
Proof.
  intros port baud w. rewrite gps_init_open_serial_run.
  pose proof (os_open_run port w) as Ho.
  destruct (lookup str_eqb port (devices w)) as [dev|];
    [destruct (dev_openable dev)|]; try (rewrite Ho; simpl; auto).
  destruct Ho as (w0 & -> & Hf0 & Hn0 & Ht0).
  pose proof (gps_init_configure_port_run (next_fd w) baud _ _ w0 Hf0) as Hc.
  destruct (lookup Z.eqb baud GpsInit.baud_map) as [c|].
  - cbn [of_dev] in Hc. destruct (dev_termios_ok dev (now w0)).
    + destruct Hc as (w1 & -> & Hf1 & Hn1 & Ht1).
      split; [reflexivity|]. exists dev, c. rewrite Hf1, Hn0. auto.
    + rewrite Hc. cbn [is_Exception].
      destruct (os_close_top (next_fd w) (fdtab w) w0 (ex_intro _ _ Hf0))
        as (w2 & -> & Hf2). auto.
  - rewrite Hc. cbn [is_Exception].
    destruct (os_close_top (next_fd w) (fdtab w) w0 (ex_intro _ _ Hf0))
      as (w2 & -> & Hf2). auto.
Qed.

(** X7.  [open_serial] of [gps_init] either returns the descriptor it
    opened, newest in the table, on the device of the path, blocking, with
    the settings of [configure_port] at the speed of the baud rate and with
    what had arrived before the flush dropped; or it raises [OSError],
    [termios.error] or [ValueError] of the baud rate and leaves the table
    as it found it. *)
Theorem gps_init_open_serial_configured :
  forall (port : pystr) (baud : Z) (w : world),
    match GpsInit.open_serial port baud w with
    | (Ret fd, w') =>
        fd = next_fd w
        /\ exists dev c,
             lookup str_eqb port (devices w) = Some dev
             /\ lookup Z.eqb baud GpsInit.baud_map = Some c
             /\ fdtab w'
                = (fd, {| of_dev := dev; of_attrs := gps_init_settings c;
                          of_nonblock := false;
                          of_pending :=
                            drop_arrived (now w) (dev_feed dev c) |})
                  :: fdtab w
    | (Raise e, w') =>
        fdtab w' = fdtab w
        /\ (e = OSError \/ e = TermiosError \/ e = ValueError baud)
    | (Diverge, _) => False
    end.
Proof. exact gps_init_open_serial_top. Qed.

(** X8.  With a baud rate that is not supported, [open_serial] of
    [gps_init] still opens the device: the log shows the [os.open] and the
    [os.close] of the descriptor, and [ValueError] comes after them. *)
Theorem gps_init_open_serial_unsupported :
  forall (port : pystr) (baud : Z) (dev : device) (w : world),
    ~ In baud SUPPORTED_BAUDS ->
    lookup str_eqb port (devices w) = Some dev ->
    dev_openable dev = true ->
    exists w',
      GpsInit.open_serial port baud w = (Raise (ValueError baud), w')
      /\ trace w' = trace w ++ [EvOpen port (Some (next_fd w));
                                EvClose (next_fd w)]
      /\ fdtab w' = fdtab w.
Proof.
  intros port baud dev w Hb Hd Ho. rewrite gps_init_open_serial_run.
  pose proof (os_open_run port w) as Hr. rewrite Hd, Ho in Hr.
  destruct Hr as (w0 & -> & Hf0 & Hn0 & Ht0).
  pose proof (gps_init_configure_port_run (next_fd w) baud _ _ w0 Hf0) as Hc.
  apply gps_init_baud_map_supported in Hb. rewrite Hb in Hc. rewrite Hc.
  cbn [is_Exception].
  pose proof (os_close_trace (next_fd w) w0) as Htr.
  destruct (os_close_top (next_fd w) (fdtab w) w0 (ex_intro _ _ Hf0))
    as (w2 & E2 & Hf2).
  rewrite E2 in Htr |- *. cbn [snd] in Htr.
  exists w2. split; [reflexivity|]. split; [|exact Hf2].
  rewrite Htr, Ht0, <- app_assoc. reflexivity.
Qed.

Lemma gps_init_open_serial_unsupported_witness :
  ~ In 14400 SUPPORTED_BAUDS
  /\ exists w',
       GpsInit.open_serial usb1 14400 (boot [(usb1, silent)])
       = (Raise (ValueError 14400), w')
       /\ trace w' = [EvOpen usb1 (Some 3); EvClose 3]
       /\ fdtab w' = [].
Proof.
  assert (H : ~ In 14400 SUPPORTED_BAUDS).
  { unfold SUPPORTED_BAUDS. simpl. intuition discriminate. }
  split; [exact H|].
  exact (gps_init_open_serial_unsupported usb1 14400 silent
           (boot [(usb1, silent)]) H eq_refl eq_refl).
Defined.

Lemma usb_open_serial_top :
  forall (port : pystr) (baud : Z) (w : world),
    exists r w',
      UsbGpsMonitor.open_serial port baud w = (Ret r, w')
      /\ match r with
         | Some fd =>
             fd = next_fd w
             /\ exists dev c,
                  lookup str_eqb port (devices w) = Some dev
                  /\ lookup Z.eqb baud UsbGpsMonitor.BAUD_MAP = Some c
                  /\ fdtab w'
                     = (fd, {| of_dev := dev; of_attrs := usb_settings c;
                               of_nonblock := true;
                               of_pending := dev_feed dev c |})
                       :: fdtab w
         | None => fdtab w' = fdtab w
         end.
Proof.
  intros port baud w. rewrite usb_open_serial_run.
  destruct (lookup Z.eqb baud UsbGpsMonitor.BAUD_MAP) as [c|];
    [|exists None, w; auto].
  pose proof (os_open_run port w) as Ho.
  destruct (lookup str_eqb port (devices w)) as [dev|];
    [destruct (dev_openable dev)|];
    try (rewrite Ho; cbn [is_OSError]; eexists None, _; split;
         [reflexivity|reflexivity]).
  destruct Ho as (w0 & -> & Hf0 & Hn0 & Ht0).
  pose proof (usb_configure_port_run (next_fd w) c _ _ w0 Hf0) as Hc.
  cbn [of_dev of_nonblock] in Hc. destruct (dev_termios_ok dev (now w0)).
  - destruct Hc as (w1 & -> & Hf1 & Hn1 & Ht1).
    exists (Some (next_fd w)), w1. split; [reflexivity|].
    split; [reflexivity|]. exists dev, c. auto.
  - rewrite Hc. cbn [is_termios_error].
    destruct (os_close_top (next_fd w) (fdtab w) w0 (ex_intro _ _ Hf0))
      as (w2 & -> & Hf2).
    exists None, w2. auto.
Qed.

(** X9.  [open_serial] of [usb_gps_monitor] never raises: it returns the
    descriptor it opened, newest in the table, still non-blocking, with its
    own settings at the speed of the baud rate and the traffic of the
    device from the moment the line was set up; or it returns [None] and
    leaves the table as it found it. *)
Theorem usb_open_serial_soft :
  forall (port : pystr) (baud : Z) (w : world),
    exists r w',
      UsbGpsMonitor.open_serial port baud w = (Ret r, w')
      /\ match r with
         | Some fd =>
             fd = next_fd w
             /\ exists dev c,
                  lookup str_eqb port (devices w) = Some dev
                  /\ lookup Z.eqb baud UsbGpsMonitor.BAUD_MAP = Some c
                  /\ fdtab w'
                     = (fd, {| of_dev := dev; of_attrs := usb_settings c;
                               of_nonblock := true;
                               of_pending := dev_feed dev c |})
                       :: fdtab w
         | None => fdtab w' = fdtab w
         end.
Proof. exact usb_open_serial_top. Qed.

End Opening.

(* ================================================================== *)
(** * Descriptors given back *)
(* ================================================================== *)

Module Releasing.
Import Py OS Vocabulary PyFacts IOFacts Scenarios TableFacts Termination
  Probe Discovery Descriptors Opening.
Local Open Scope io_scope.

(** A loop that only prints. *)
Lemma for_each_print {A} (xs : list A) (body : A -> io unit)
  (line : A -> pystr) :
  (forall x w, body x w = print (line x) w) ->
  forall w,
  exists w',
    for_each xs body w = (Ret tt, w')
    /\ stdout w' = stdout w ++ map line xs
    /\ fdtab w' = fdtab w /\ trace w' = trace w /\ now w' = now w
    /\ next_fd w' = next_fd w.
Proof.
  intro Hb. induction xs as [|x xs IH]; intro w; simpl.
  - exists w. rewrite app_nil_r. repeat split; reflexivity.
  - rewrite bind_run, Hb. unfold print at 1.
    destruct (IH (put_line (line x) w)) as (w' & E & Hs & Hf & Ht & Hn & Hx).
    exists w'. rewrite E, Hs. simpl. rewrite <- app_assoc.
    repeat split; assumption.
Qed.

(** With the descriptor newest in the table, a [try] whose [finally] closes
    it gives the table below back, and ends when its body does. *)
Lemma try_finally_close {A} fd tab (m : io A) w :
  steady fd tab m -> ends m -> on_top fd tab w ->
  fst (try_finally m (os_close fd) w) <> Diverge
  /\ fdtab (snd (try_finally m (os_close fd) w)) = tab
  /\ (forall a, fst (try_finally m (os_close fd) w) = Ret a ->
                fst (m w) = Ret a).
Proof.
  intros Hs He Hw. unfold try_finally.
  pose proof (steady_run fd tab m w Hs Hw) as H1. specialize (He w).
  destruct (m w) as [[a|e|] w1]; cbn [fst snd] in *; try congruence;
    destruct (os_close_top fd tab w1 H1) as (w2 & -> & Hf2);
    cbn [fst snd]; repeat split; auto; try discriminate.
Qed.

(** X10.  [main] of [gps_init] comes to an end, with exit code 0 or 1 when
    it returns, and however it ends the descriptor table is as it was:
    the descriptor it opened has been closed. *)
Theorem gps_init_main_releases :
  forall (read_text : pystr -> option pystr) (default_files : list pystr)
         (a : GpsInit.args) (w : world),
    fst (GpsInit.main read_text default_files a w) <> Diverge
    /\ fdtab (snd (GpsInit.main read_text default_files a w)) = fdtab w
    /\ forall code,
         fst (GpsInit.main read_text default_files a w) = Ret code ->
         code = 0 \/ code = 1.
Proof.
  intros read_text default_files a w. unfold GpsInit.main. cbv zeta.
  generalize (GpsInit.load_command_sequence read_text
                (default_files ++ GpsInit.command_files a)
                (GpsInit.extra_commands a)).
  intro commands. destruct (is_empty commands).
  { cbn. repeat split; auto; try discriminate. intros code H.
    injection H as <-. now right. }
  destruct (GpsInit.list_only a).
  { rewrite bind_run.
    match goal with
    | |- context [for_each ?xs ?body w] =>
        destruct (for_each_print xs body
                    (fun '(idx, cmd) =>
                       str "[" ++ GpsInit.format_02d idx ++ str "] " ++ cmd)
                    ltac:(intros [idx cmd] w0; reflexivity) w)
          as (w' & -> & _ & Hf & _)
    end.
    cbn. repeat split; auto; try discriminate. intros code H.
    injection H as <-. now left. }
  rewrite bind_run. unfold try_except. rewrite bind_run.
  pose proof (gps_init_open_serial_top (GpsInit.port a) (GpsInit.baud a) w)
    as Ho.
  destruct (GpsInit.open_serial (GpsInit.port a) (GpsInit.baud a) w)
    as [[fd|e|] w0]; [|destruct Ho as [Hf He]|contradiction].
  - destruct Ho as (_ & dev & c & _ & _ & Hf). cbn [ret].
    rewrite bind_run.
    destruct (try_finally_close fd (fdtab w)
                (GpsInit.send_commands fd commands (GpsInit.timeout a)) w0
                (steady_send_commands fd (fdtab w) _ _)
                (ends_send_commands fd _ _)
                (ex_intro _ _ Hf)) as (Hd & Ht & _).
    destruct (try_finally _ _ w0) as [[[]|e|] w1]; cbn [fst snd] in *;
      repeat split; auto; try discriminate; try congruence.
    intros code H. injection H as <-. now left.
  - destruct He as [->|[->| ->]]; cbn; repeat split; auto; try discriminate;
      intros code H; injection H as <-; now right.
Qed.

(** ** The scan *)

Lemma conclude_table fd tab matched sample w :
  on_top fd tab w ->
  exists w',
    conclude fd matched sample w
    = (Ret (if matched then Some fd else None), w')
    /\ if matched then on_top fd tab w' else fdtab w' = tab.
Proof.
  intro Hw. destruct matched.
  - pose proof (conclude_matched fd sample w) as Hr.
    assert (Hs : steady fd tab (conclude fd true sample)).
    { unfold conclude. cbv iota. steady_tac. }
    pose proof (steady_run fd tab _ w Hs Hw) as Ht.
    destruct (conclude fd true sample w) as [r w']. cbn [fst snd] in *.
    subst r. exists w'. auto.
  - unfold conclude. rewrite bind_run.
    destruct (os_close_top fd tab w Hw) as (w' & -> & Hf).
    exists w'. auto.
Qed.

(** The table after an answer of the scan: as before when there is none,
    with the descriptor of the answer added when there is one. *)
Definition table_after {A} (fd_of : A -> Z) (w : world)
  (r : outcome (option A) * world) : Prop :=
  match r with
  | (Ret None, w') => fdtab w' = fdtab w
  | (Ret (Some found), w') => on_top (fd_of found) (fdtab w) w'
  | (Raise _, _) => True
  | (Diverge, _) => False
  end.

Lemma probe_candidate_table port baud w :
  table_after (fun fd => fd) w (UsbGpsMonitor.probe_candidate port baud w).
Proof.
  rewrite probe_candidate_run.
  destruct (usb_open_serial_top port baud w) as (r & w0 & -> & Hr).
  destruct r as [fd|]; [|exact Hr].
  destruct Hr as (_ & dev & c & _ & _ & Hf0).
  assert (H0 : on_top fd (fdtab w) w0) by (eexists; exact Hf0).
  pose proof (steady_run fd (fdtab w) _ w0
                (steady_sniff_for_gps fd (fdtab w) 1500) H0) as H1.
  pose proof (ends_sniff_for_gps fd 1500 w0) as E1.
  destruct (UsbGpsMonitor.sniff_for_gps fd 1500 w0) as [[[[|] s]|e|] w1];
    cbn [fst snd] in *; [| |exact I|congruence].
  { destruct (conclude_table fd (fdtab w) true s w1 H1) as (w' & -> & Hc).
    exact Hc. }
  pose proof (steady_run fd (fdtab w) _ w1
                (steady_initialize_receiver fd (fdtab w)) H1) as H2.
  pose proof (ends_initialize_receiver fd w1) as E2.
  destruct (UsbGpsMonitor.initialize_receiver fd w1) as [[[]|e|] w2];
    cbn [fst snd] in *; [|exact I|congruence].
  pose proof (steady_run fd (fdtab w) _ w2
                (steady_sniff_for_gps fd (fdtab w) 4000) H2) as H3.
  pose proof (ends_sniff_for_gps fd 4000 w2) as E3.
  destruct (UsbGpsMonitor.sniff_for_gps fd 4000 w2) as [[[m2 s2]|e|] w3];
    cbn [fst snd] in *; [|exact I|congruence].
  destruct (conclude_table fd (fdtab w) m2 s2 w3 H3) as (w' & -> & Hc).
  destruct m2; exact Hc.
Qed.

Lemma detect_bauds_table port bauds :
  forall w,
    table_after (fun found : pystr * Z * Z => snd found) w
      (UsbGpsMonitor.detect_bauds port bauds w).
Proof.
  induction bauds as [|baud bauds IH]; intro w; simpl.
  - reflexivity.
  - rewrite bind_run. pose proof (probe_candidate_table port baud w) as Hp.
    destruct (UsbGpsMonitor.probe_candidate port baud w) as [[[fd|]|e|] w1];
      [exact Hp| |exact I|exact Hp].
    specialize (IH w1). unfold table_after in IH, Hp |- *.
    rewrite Hp in IH. exact IH.
Qed.

Lemma detect_ports_table ports :
  forall w,
    table_after (fun found : pystr * Z * Z => snd found) w
      (UsbGpsMonitor.detect_ports ports w).
Proof.
  induction ports as [|port ports IH]; intro w;
    cbn [UsbGpsMonitor.detect_ports].
  - reflexivity.
  - rewrite bind_run.
    pose proof (detect_bauds_table port (map fst UsbGpsMonitor.BAUD_MAP) w)
      as Hp.
    destruct (UsbGpsMonitor.detect_bauds port _ w) as [[[found|]|e|] w1];
      [exact Hp| |exact I|exact Hp].
    specialize (IH w1). unfold table_after in IH, Hp |- *.
    rewrite Hp in IH. exact IH.
Qed.

(** X11.  [detect_gps] comes to an end.  When it returns without a
    receiver the descriptor table is as it was, every candidate descriptor
    closed; when it returns a receiver, the descriptor it returns is open,
    newest in the table, and is the only one added. *)
Theorem detect_gps_table :
  forall w : world,
    match UsbGpsMonitor.detect_gps w with
    | (Ret None, w') => fdtab w' = fdtab w
    | (Ret (Some (port, baud, fd)), w') =>
        exists f, fdtab w' = (fd, f) :: fdtab w
    | (Raise _, _) => True
    | (Diverge, _) => False
    end.
Proof.
  intro w. unfold UsbGpsMonitor.detect_gps. rewrite bind_run.
  rewrite iter_candidate_ports_run.
  pose proof (detect_ports_table (ports_of w) w) as H.
  destruct (UsbGpsMonitor.detect_ports (ports_of w) w)
    as [[[[[port baud] fd]|]|e|] w']; exact H.
Qed.

End Releasing.

(* ================================================================== *)
(** * A line whose writes fail *)
(* ================================================================== *)

Module WriteFailures.
Import Py OS Vocabulary PyFacts IOFacts Scenarios Polling Probe.
Local Open Scope io_scope.

(** The descriptor is open on a device that refuses writes now. *)
Definition writes_fail (fd : Z) (w : world) : Prop :=
  exists f, get_fd fd w = Some f /\ dev_write_ok (of_dev f) (now w) = false.

Lemma os_write_fails fd data w :
  writes_fail fd w ->
  os_write fd data w = (Raise OSError, log (EvWrite fd data) w).
Proof.
  intros (f & Hf & Hw). unfold os_write.
  change (get_fd fd (log (EvWrite fd data) w)) with (get_fd fd w).
  rewrite Hf.
  change (now (log (EvWrite fd data) w)) with (now w). now rewrite Hw.
Qed.

Lemma writes_fail_log fd ev w : writes_fail fd w -> writes_fail fd (log ev w).
Proof. intro H. exact H. Qed.

Lemma usb_send_command_fails fd cmd timeout w :
  forallb is_ascii (cmd ++ CRLF) = true ->
  writes_fail fd w ->
  UsbGpsMonitor.send_command fd cmd timeout w
  = (Ret tt, log (EvWrite fd (encode_ascii_ignore (cmd ++ CRLF))) w).
Proof.
  intros Ha Hw. unfold UsbGpsMonitor.send_command.
  destruct (encode_ascii_strict (cmd ++ CRLF)) as [payload|] eqn:Ee.
  - apply SendingCommands.encode_ascii_strict_ignore in Ee. subst payload.
    rewrite bind_run. unfold try_except. rewrite bind_run.
    now rewrite (os_write_fails fd _ w Hw).
  - unfold encode_ascii_strict in Ee. rewrite Ha in Ee. discriminate.
Qed.

Lemma usb_send_each_fails fd timeout (commands : list pystr) :
  forallb (fun cmd => forallb is_ascii (cmd ++ CRLF)) commands = true ->
  forall w,
    writes_fail fd w ->
    exists w',
      for_each commands
        (fun cmd : pystr => UsbGpsMonitor.send_command fd cmd timeout) w
      = (Ret tt, w')
      /\ now w' = now w
      /\ fdtab w' = fdtab w
      /\ trace w'
         = trace w
           ++ map (fun cmd : pystr =>
                     EvWrite fd (encode_ascii_ignore (cmd ++ CRLF))) commands.
Proof.
  induction commands as [|cmd commands IH]; intros Ha w Hw.
  - exists w. simpl. rewrite app_nil_r. auto.
  - simpl in Ha. apply andb_true_iff in Ha as [Hc Hcs].
    cbn [for_each]. rewrite bind_run.
    rewrite (usb_send_command_fails fd cmd timeout w Hc Hw).
    destruct (IH Hcs _
                (writes_fail_log fd
                   (EvWrite fd (encode_ascii_ignore (cmd ++ CRLF))) w Hw))
      as (w' & -> & Hn & Hf & Ht).
    exists w'. split; [reflexivity|]. rewrite Hn, Hf, Ht. simpl.
    rewrite <- app_assoc. auto.
Qed.

(** X12.  On a descriptor whose device takes the line calls and refuses
    writes, [initialize_receiver] returns as if all were well: it has
    flushed, has tried each of the five commands once, has waited for no
    reply and the clock has not moved. *)
Theorem initialize_receiver_ignores_write_failures :
  forall (fd : Z) (f : open_file) (w : world),
    get_fd fd w = Some f ->
    dev_termios_ok (of_dev f) (now w) = true ->
    dev_write_ok (of_dev f) (now w) = false ->
    exists w',
      UsbGpsMonitor.initialize_receiver fd w = (Ret tt, w')
      /\ now w' = now w
      /\ trace w' = trace w ++ EvFlush fd :: init_sequence fd.
Proof.
  intros fd f w Hf Hok Hw. unfold UsbGpsMonitor.initialize_receiver.
  rewrite bind_run. unfold tcflush, termios_call.
  change (get_fd fd (log (EvFlush fd) w)) with (get_fd fd w). rewrite Hf.
  change (now (log (EvFlush fd) w)) with (now w). rewrite Hok.
  match goal with
  | |- context [for_each _ _ ?w1] =>
      assert (H1 : writes_fail fd w1)
  end.
  { eexists. split.
    - unfold get_fd. cbn [fdtab set_fdtab log].
      eapply lookup_update. exact Hf.
    - exact Hw. }
  destruct (usb_send_each_fails fd 1500 UsbGpsMonitor.INIT_COMMANDS
              eq_refl _ H1) as (w' & -> & Hn & _ & Ht).
  exists w'. split; [reflexivity|]. split; [exact Hn|].
  rewrite Ht, init_sequence_commands. cbn [trace set_fdtab log].
  rewrite <- app_assoc. reflexivity.
Qed.

Lemma initialize_receiver_ignores_write_failures_witness :
  exists w',
    UsbGpsMonitor.initialize_receiver 3 (opened unplugged []) = (Ret tt, w')
    /\ now w' = 0
    /\ trace w' = [EvOpen (str "/dev/ttyUSB1") (Some 3); EvFlush 3]
                  ++ init_sequence 3.
Proof.
  exact (initialize_receiver_ignores_write_failures 3 _ (opened unplugged [])
           eq_refl eq_refl eq_refl).
Defined.

(** X13.  On a descriptor whose device refuses writes, [send_commands] of
    [gps_init] stops at the first command: the failed write is all it has
    done, [OSError] comes out and no later command is tried. *)
Theorem send_commands_stops_at_write_failure :
  forall (fd : Z) (f : open_file) (cmd : pystr) (commands : list pystr)
         (timeout : Z) (w : world),
    get_fd fd w = Some f ->
    dev_write_ok (of_dev f) (now w) = false ->
    GpsInit.send_commands fd (cmd :: commands) timeout w
    = (Raise OSError, log (EvWrite fd (encode_ascii_ignore (cmd ++ CRLF))) w).
Proof.
  intros fd f cmd commands timeout w Hf Hw.
  unfold GpsInit.send_commands. cbn [for_each]. rewrite !bind_run.
  rewrite (os_write_fails fd _ w); [reflexivity|]. exists f. auto.
Qed.

Lemma send_commands_stops_at_write_failure_witness :
  GpsInit.send_commands 3 [str "UNLOGALL THISPORT"; str "LOG GPGGA ONTIME 1"]
    1500 (opened unplugged [])
  = (Raise OSError,
     log (EvWrite 3 (bytes_lit "UNLOGALL THISPORT" ++ [CR; LF]))
       (opened unplugged [])).
Proof.
  exact (send_commands_stops_at_write_failure 3 _ (str "UNLOGALL THISPORT")
           [str "LOG GPGGA ONTIME 1"] 1500 (opened unplugged [])
           eq_refl eq_refl).
Defined.

End WriteFailures.

(* ================================================================== *)
(** * Listing the commands; a line that stays silent *)
(* ================================================================== *)

Module Listing.
Import Py OS Vocabulary PyFacts IOFacts Scenarios Releasing.
Local Open Scope io_scope.

(** The line [main] of [gps_init] prints for a command. *)
Definition listing_line (entry : nat * pystr) : pystr :=
  str "[" ++ GpsInit.format_02d (fst entry) ++ str "] " ++ snd entry.

(** X14.  [main] of [gps_init] with no command to send returns 1 and
    touches nothing; asked to list only, it prints one numbered line for
    each command, returns 0 and makes no system call. *)
Theorem gps_init_main_list_only :
  forall (read_text : pystr -> option pystr) (default_files : list pystr)
         (a : GpsInit.args) (w : world) (commands : list pystr),
    commands = GpsInit.load_command_sequence read_text
                 (default_files ++ GpsInit.command_files a)
                 (GpsInit.extra_commands a) ->
    (commands = [] -> GpsInit.main read_text default_files a w = (Ret 1, w))
    /\ (commands <> [] -> GpsInit.list_only a = true ->
        exists w',
          GpsInit.main read_text default_files a w = (Ret 0, w')
          /\ stdout w'
             = stdout w ++ map listing_line (GpsInit.enumerate commands)
          /\ trace w' = trace w /\ fdtab w' = fdtab w /\ now w' = now w).
Proof.
  intros read_text default_files a w commands ->.
  unfold GpsInit.main. cbv zeta.
  generalize (GpsInit.load_command_sequence read_text
                (default_files ++ GpsInit.command_files a)
                (GpsInit.extra_commands a)).
  intro commands. split.
  - intros ->. reflexivity.
  - intros Hne Hl. rewrite Hl.
    destruct commands as [|c cs]; [congruence|]. cbn [is_empty].
    rewrite bind_run.
    match goal with
    | |- context [for_each ?xs ?body w] =>
        destruct (for_each_print xs body listing_line
                    ltac:(intros [idx cmd] w0; reflexivity) w)
          as (w' & -> & Hs & Hf & Ht & Hn & _)
    end.
    exists w'. split; [reflexivity|]. auto.
Qed.

Lemma gps_init_main_list_only_witness :
  exists w',
    GpsInit.main (fun _ => None) []
      {| GpsInit.port := GpsInit.DEFAULT_PORT;
         GpsInit.baud := GpsInit.DEFAULT_BAUD;
         GpsInit.timeout := GpsInit.DEFAULT_TIMEOUT;
         GpsInit.command_files := [];
         GpsInit.extra_commands := [str "LOG A"; str "LOG A"; str "LOG B"];
         GpsInit.list_only := true |} (boot [])
    = (Ret 0, w')
    /\ stdout w' = [str "[01] LOG A"; str "[02] LOG B"]
    /\ trace w' = [] /\ fdtab w' = [] /\ now w' = 0.
Proof.
  refine (proj2 (gps_init_main_list_only (fun _ => None) [] _ (boot [])
                   [str "LOG A"; str "LOG B"] _) _ _).
  - vm_compute. reflexivity.
  - discriminate.
  - reflexivity.
Defined.

End Listing.

Module SilentLine.
Import Py OS Vocabulary PyFacts IOFacts Scenarios.
Local Open Scope io_scope.

(** Nothing to read on [fd], and nobody interrupts. *)
Definition silent_line (fd : Z) (w : world) : Prop :=
  (exists f, get_fd fd w = Some f /\ of_pending f = [])
  /\ interrupt_at w = None.

Lemma read_response_loop_silent fd deadline buffer w :
  silent_line fd w ->
  forall fuel t0,
    deadline - t0 <= 100 * Z.of_nat fuel ->
    exists t,
      GpsInit.read_response_loop fuel fd deadline buffer (set_now t0 w)
      = (Ret buffer, set_now t w)
      /\ t0 <= t
      /\ (t0 < deadline -> deadline <= t < deadline + 100)
      /\ (deadline <= t0 -> t = t0).
Proof.
  intros [(f & Hf & Hp) Hi].
  assert (Hsel : forall t0,
             select_select fd 100 (set_now t0 w)
             = (Ret false, set_now (t0 + 100) w)).
  { intro t0. unfold select_select.
    change (get_fd fd (set_now t0 w)) with (get_fd fd w). rewrite Hf, Hp.
    unfold block_until.
    change (interrupt_at (set_now t0 w)) with (interrupt_at w).
    rewrite Hi. reflexivity. }
  induction fuel as [|fuel IH]; intros t0 Hfuel.
  - exists t0. simpl. unfold bind, time_time.
    change (now (set_now t0 w)) with t0.
    destruct (t0 <? deadline) eqn:E.
    + apply Z.ltb_lt in E. simpl in Hfuel. lia.
    + apply Z.ltb_ge in E. split; [reflexivity|]. lia.
  - cbn [GpsInit.read_response_loop]. unfold bind at 1. unfold time_time at 1.
    change (now (set_now t0 w)) with t0.
    destruct (t0 <? deadline) eqn:E.
    + apply Z.ltb_lt in E. rewrite bind_run, Hsel. cbn [negb].
      destruct (IH (t0 + 100) ltac:(lia)) as (t & Et & H1 & H2 & H3).
      exists t. split; [exact Et|]. split; [lia|]. split; [|lia].
      intros _. destruct (Z.lt_ge_cases (t0 + 100) deadline); lia.
    + apply Z.ltb_ge in E. exists t0. split; [reflexivity|]. lia.
Qed.

Lemma set_now_now w : set_now (now w) w = w.
Proof. destruct w. reflexivity. Qed.

(** X15.  On an open line on which nothing arrives, and with no interrupt,
    [read_response] returns the empty string when the timeout has passed
    and before a tenth of a second more has; it has changed nothing but
    the clock. *)
Theorem read_response_silent :
  forall (fd timeout : Z) (w : world),
    silent_line fd w ->
    0 <= timeout ->
    exists t,
      GpsInit.read_response fd timeout w = (Ret [], set_now t w)
      /\ now w + timeout <= t < now w + timeout + 100.
Proof.
  intros fd timeout w Hs Ht. unfold GpsInit.read_response.
  rewrite bind_run. unfold time_time at 1. rewrite bind_run.
  destruct (read_response_loop_silent fd (now w + timeout) [] w Hs
              (poll_fuel fd (now w + timeout) w) (now w)
              ltac:(unfold poll_fuel; lia)) as (t & Et & H1 & H2 & H3).
  rewrite set_now_now in Et. rewrite Et. cbn [is_empty].
  exists t. split; [reflexivity|].
  destruct (Z.eq_dec timeout 0) as [->|Hne]; lia.
Qed.

Lemma read_response_silent_witness :
  exists t,
    GpsInit.read_response 3 1500 (opened silent [])
    = (Ret [], set_now t (opened silent []))
    /\ 0 + 1500 <= t < 0 + 1500 + 100.
Proof.
  refine (read_response_silent 3 1500 (opened silent []) _ _).
  - split; [|reflexivity]. eexists. split; reflexivity.
  - lia.
Defined.

End SilentLine.

(* ================================================================== *)
(** * How the streaming loop is left *)
(* ================================================================== *)

Module Exits.
Import Py OS Vocabulary PyFacts IOFacts Scenarios Exceptions.
Local Open Scope io_scope.

(** The answer is [KeyboardInterrupt]. *)
Definition interrupted {A} (r : outcome A) : bool :=
  match r with
  | Raise KeyboardInterrupt => true
  | _ => false
  end.

(** [m] is interrupted only when an interrupt is pending, and the
    interrupt it is left by is used up. *)
Definition interruptible {A} (m : io A) : Prop :=
  forall w,
    (interrupt_at w = None ->
     interrupt_at (snd (m w)) = None /\ interrupted (fst (m w)) = false)
    /\ (interrupted (fst (m w)) = true -> interrupt_at (snd (m w)) = None).

(** A call that neither waits nor looks at the interrupt. *)
Definition calm {A} (m : io A) : Prop :=
  forall w,
    interrupt_at (snd (m w)) = interrupt_at w
    /\ interrupted (fst (m w)) = false.

Lemma interruptible_calm {A} (m : io A) : calm m -> interruptible m.
Proof.
  intros H w. destruct (H w) as [Hi Hk]. split.
  - intro Hn. split; [congruence|exact Hk].
  - intro E. congruence.
Qed.

Lemma interruptible_bind {A B} (m : io A) (k : A -> io B) :
  interruptible m -> (forall a, interruptible (k a)) ->
  interruptible (bind m k).
Proof.
  intros Hm Hk w. unfold bind. destruct (Hm w) as [H1 H2].
  destruct (m w) as [[a|e|] w1]; cbn [fst snd] in *.
  - destruct (Hk a w1) as [K1 K2]. split; [|exact K2].
    intro Hn. apply K1. now apply H1.
  - split; [exact H1|exact H2].
  - split; [exact H1|exact H2].
Qed.

Lemma interruptible_for_each {A} (xs : list A) (body : A -> io unit) :
  (forall x, interruptible (body x)) -> interruptible (for_each xs body).
Proof.
  intro Hb. induction xs as [|x xs IH]; simpl.
  - apply interruptible_calm. intro w. split; reflexivity.
  - apply interruptible_bind; auto.
Qed.

Lemma interruptible_block_until {A} t (a : A) :
  interruptible (block_until t a).
Proof.
  intro w. unfold block_until. destruct (interrupt_at w) as [ti|] eqn:E.
  - destruct (ti <=? t); cbn [fst snd interrupted]; split;
      try discriminate; try reflexivity.
  - cbn [fst snd interrupted]. split; [|discriminate]. intros _.
    split; [exact E|reflexivity].
Qed.

Lemma interruptible_select fd timeout :
  interruptible (select_select fd timeout).
Proof.
  intro w. unfold select_select.
  destruct (get_fd fd w) as [f|].
  - destruct (of_pending f) as [|e p];
      [|destruct (at_time e <=? now w + timeout)];
      apply interruptible_block_until.
  - cbn [fst snd interrupted]. split; [|discriminate]. intro H.
    split; [exact H|reflexivity].
Qed.

Lemma calm_os_read fd n : calm (os_read fd n).
Proof.
  intro w. unfold os_read.
  destruct (get_fd fd w) as [f|]; [|split; reflexivity].
  destruct (of_pending f) as [|e p].
  - destruct (of_nonblock f); split; reflexivity.
  - destruct (at_time e <=? now w).
    + destruct (payload e); split; reflexivity.
    + destruct (of_nonblock f); split; reflexivity.
Qed.

Lemma calm_os_close fd : calm (os_close fd).
Proof.
  intro w. unfold os_close.
  destruct (get_fd fd (log (EvClose fd) w)); split; reflexivity.
Qed.

Lemma calm_emit_line nmea_only line : calm (GpsRun.emit_line nmea_only line).
Proof.
  intro w. unfold GpsRun.emit_line.
  destruct (is_empty line); [split; reflexivity|].
  cbv zeta.
  match goal with |- context [if ?b then _ else _] => destruct b end;
    split; reflexivity.
Qed.

Lemma interruptible_stream_output_loop fuel fd nmea_only :
  interruptible (GpsRun.stream_output_loop fuel fd nmea_only).
Proof.
  induction fuel as [|fuel IH]; simpl.
  - apply interruptible_calm. intro w. split; reflexivity.
  - apply interruptible_bind; [apply interruptible_select|intros ready].
    destruct (negb ready); [exact IH|].
    apply interruptible_bind;
      [apply interruptible_calm, calm_os_read|intros data].
    destruct (is_empty data); [exact IH|].
    apply interruptible_bind; [|intros _; exact IH].
    apply interruptible_for_each. intro line.
    apply interruptible_calm, calm_emit_line.
Qed.

(** The loop has no way out but an exception. *)
Lemma stream_output_loop_no_return fuel fd nmea_only :
  forall w, fst (GpsRun.stream_output_loop fuel fd nmea_only w) <> Ret tt.
Proof.
  induction fuel as [|fuel IH]; intro w; simpl; [discriminate|].
  unfold bind.
  destruct (select_select fd 1000 w) as [[ready|e|] w1]; try discriminate.
  destruct (negb ready); [apply IH|].
  destruct (os_read fd 4096 w1) as [[data|e|] w2]; try discriminate.
  destruct (is_empty data); [apply IH|].
  destruct (for_each (bytes_splitlines data) (GpsRun.emit_line nmea_only) w2)
    as [[[]|e|] w3]; try discriminate.
  apply IH.
Qed.

Lemma raises_stream_output_loop fuel fd nmea_only :
  raises (fun e => e = OSError \/ e = KeyboardInterrupt)
    (GpsRun.stream_output_loop fuel fd nmea_only).
Proof.
  induction fuel as [|fuel IH]; simpl.
  - apply raises_diverge.
  - apply raises_bind; [apply raises_select; auto|intros ready].
    destruct (negb ready); [exact IH|].
    apply raises_bind; [apply raises_os_read; auto|intros data].
    destruct (is_empty data); [exact IH|].
    apply raises_bind; [|intros _; exact IH].
    apply raises_for_each. intro line. unfold GpsRun.emit_line.
    destruct (is_empty line); [apply raises_ret|]. cbv zeta.
    match goal with |- context [if ?b then _ else _] => destruct b end;
      [apply raises_ret|apply raises_print].
Qed.

(** X16.  With interrupts delivered while a call waits, [stream_output]
    returns only when the user has interrupted it, and the interrupt is
    then used up; the only exception it lets out is [OSError], so that the
    [KeyboardInterrupt] of the loop never comes out of it. *)
Theorem stream_output_exits :
  forall (fuel : nat) (fd : Z) (nmea_only : bool) (w : world),
    match fst (GpsRun.stream_output fuel fd nmea_only w) with
    | Ret _ =>
        interrupt_at w <> None
        /\ interrupt_at (snd (GpsRun.stream_output fuel fd nmea_only w)) = None
    | Raise e => e = OSError
    | Diverge => True
    end.
Proof.
  intros fuel fd nmea_only w.
  unfold GpsRun.stream_output, try_finally, try_except.
  pose proof (stream_output_loop_no_return fuel fd nmea_only w) as Hn.
  destruct (interruptible_stream_output_loop fuel fd nmea_only w) as [H1 H2].
  pose proof (raises_stream_output_loop fuel fd nmea_only w) as Hr.
  destruct (GpsRun.stream_output_loop fuel fd nmea_only w) as [[[]|e|] w1];
    cbn [fst snd] in *; [congruence| |exact I].
  destruct (calm_os_close fd w1) as [Hc _].
  pose proof (raises_os_close (fun e => e = OSError) fd eq_refl w1) as Hx.
  destruct (is_KeyboardInterrupt e) eqn:Ek.
  - assert (e = KeyboardInterrupt) by (destruct e; discriminate || reflexivity).
    subst e. cbn [ret interrupted] in *.
    destruct (os_close fd w1) as [[[]|e'|] w2]; cbn [fst snd] in *.
    + split; [|rewrite Hc; now apply H2].
      intro Hw. destruct (H1 Hw) as [_ Hk]. discriminate.
    + now apply Hx.
    + exact I.
  - assert (e = OSError).
    { destruct (Hr e eq_refl) as [->| ->]; [reflexivity|discriminate]. }
    subst e.
    destruct (os_close fd w1) as [[[]|e'|] w2]; cbn [fst snd] in *.
    + reflexivity.
    + now apply Hx.
    + exact I.
Qed.

End Exits.

(* ================================================================== *)
(** * How long the tools take *)
(* ================================================================== *)

Module Elapsed.
Import Py OS Vocabulary PyFacts IOFacts Scenarios Polling PollingLoops
  ResponseTime Sniffing Probe Discovery.
Local Open Scope io_scope.

(** [within d m]: the clock does not go back while [m] runs, and [m] is
    over at most [d] milliseconds after it began. *)
Definition within (d : Z) {A} (m : io A) : Prop :=
  forall w, now w <= now (snd (m w)) <= now w + d.

Lemma within_weaken d d' {A} (m : io A) :
  d <= d' -> within d m -> within d' m.
Proof. intros Hd H w. specialize (H w). lia. Qed.

Lemma within_instant {A} (m : io A) :
  (forall w, now (snd (m w)) = now w) -> within 0 m.
Proof. intros H w. rewrite H. lia. Qed.

Lemma within_ret {A} (a : A) : within 0 (ret a).
Proof. apply within_instant. reflexivity. Qed.

Lemma within_raise {A} e : within 0 (@raise A e).
Proof. apply within_instant. reflexivity. Qed.

Lemma within_bind d1 d2 {A B} (m : io A) (k : A -> io B) :
  0 <= d2 ->
  within d1 m -> (forall a, within d2 (k a)) -> within (d1 + d2) (bind m k).
Proof.
  intros Hd Hm Hk w. unfold bind. specialize (Hm w).
  destruct (m w) as [[a|e|] w1]; cbn [snd] in *; try lia.
  specialize (Hk a w1). lia.
Qed.

Lemma within_try_except d1 d2 {A} (m : io A) catches
  (handler : exn -> io A) :
  0 <= d2 ->
  within d1 m -> (forall e, within d2 (handler e)) ->
  within (d1 + d2) (try_except m catches handler).
Proof.
  intros Hd Hm Hh w. unfold try_except. specialize (Hm w).
  destruct (m w) as [[a|e|] w1]; cbn [snd] in *; try lia.
  destruct (catches e); cbn [snd]; [|lia].
  specialize (Hh e w1). lia.
Qed.

Lemma within_bind_instant {A B} (m : io A) (k : A -> io B) :
  within 0 m -> (forall a, within 0 (k a)) -> within 0 (bind m k).
Proof. intros Hm Hk. apply (within_bind 0 0); [lia|exact Hm|exact Hk]. Qed.

Lemma within_try_except_instant {A} (m : io A) catches
  (handler : exn -> io A) :
  within 0 m -> (forall e, within 0 (handler e)) ->
  within 0 (try_except m catches handler).
Proof.
  intros Hm Hh. apply (within_try_except 0 0); [lia|exact Hm|exact Hh].
Qed.

Lemma within_after d {A B} (m : io A) (k : A -> io B) :
  0 <= d ->
  within 0 m -> (forall a, within d (k a)) -> within d (bind m k).
Proof. intros Hd Hm Hk. apply (within_bind 0 d); assumption. Qed.

Lemma within_for_each d {A} (xs : list A) (body : A -> io unit) :
  0 <= d ->
  (forall x, within d (body x)) ->
  within (d * Z.of_nat (length xs)) (for_each xs body).
Proof.
  intros Hd Hb. induction xs as [|x xs IH].
  - simpl. rewrite Z.mul_0_r. apply within_ret.
  - cbn [for_each length].
    replace (d * Z.of_nat (S (length xs)))
      with (d + d * Z.of_nat (length xs)) by lia.
    apply within_bind; [nia|apply Hb|intros _; exact IH].
Qed.

Lemma block_until_now {A} t (a : A) w :
  now w <= t -> now w <= now (snd (block_until t a w)) <= t.
Proof.
  intro Ht. destruct (block_until t a w) as [r w'] eqn:E.
  apply block_until_spec in E; [|exact Ht]. cbn [snd]. lia.
Qed.

Lemma within_time_sleep d : 0 <= d -> within d (time_sleep d).
Proof.
  intros Hd w. unfold time_sleep. apply block_until_now. lia.
Qed.

Lemma within_termios_call {A} fd (k : open_file -> io A) :
  (forall f, within 0 (k f)) -> within 0 (termios_call fd k).
Proof.
  intros Hk w. unfold termios_call.
  destruct (get_fd fd w) as [f|]; [|cbn [snd]; lia].
  destruct (dev_termios_ok (of_dev f) (now w)); [apply Hk|cbn [snd]; lia].
Qed.

Lemma within_tcgetattr fd : within 0 (tcgetattr fd).
Proof. apply within_termios_call. intros f. apply within_ret. Qed.

Lemma within_tcsetattr fd attrs : within 0 (tcsetattr fd attrs).
Proof.
  apply within_termios_call. intros f. apply within_instant. reflexivity.
Qed.

Lemma within_tcflush fd : within 0 (tcflush fd).
Proof.
  intro w. unfold tcflush.
  assert (H : within 0
                (termios_call fd
                   (fun f w0 =>
                      (Ret tt,
                       set_fdtab
                         (update fd
                            (with_pending
                               (drop_arrived (now w0) (of_pending f)) f)
                            (fdtab w0)) w0)))).
  { apply within_termios_call. intros f. apply within_instant. reflexivity. }
  exact (H (log (EvFlush fd) w)).
Qed.

Lemma within_os_write fd data : within 0 (os_write fd data).
Proof.
  apply within_instant. intro w. unfold os_write.
  destruct (get_fd fd (log (EvWrite fd data) w)) as [f|]; [|reflexivity].
  destruct (dev_write_ok (of_dev f) (now (log (EvWrite fd data) w)));
    reflexivity.
Qed.

Lemma within_os_close fd : within 0 (os_close fd).
Proof.
  apply within_instant. intro w. unfold os_close.
  destruct (get_fd fd (log (EvClose fd) w)); reflexivity.
Qed.

Lemma within_os_open path : within 0 (os_open path).
Proof.
  apply within_instant. intro w. unfold os_open.
  destruct (lookup str_eqb path (devices w)) as [dev|]; [|reflexivity].
  destruct (dev_openable dev); reflexivity.
Qed.

Lemma within_print line : within 0 (print line).
Proof. apply within_instant. reflexivity. Qed.

(** ** The polling loops *)

Lemma within_poll_loop fuel fd deadline slice guarded stop buffer w :
  0 < slice ->
  now w <= now (snd (poll_loop fuel fd deadline slice guarded stop buffer w))
  <= Z.max (now w) (deadline + slice).
Proof.
  intro Hs.
  destruct (poll_loop fuel fd deadline slice guarded stop buffer w)
    as [r w'] eqn:E.
  apply poll_loop_spec in E as (evs & _ & _ & Hle & Ht & _); [|exact Hs].
  cbn [snd]. lia.
Qed.

Lemma within_read_response fd timeout :
  within (Z.max 0 (timeout + 100)) (GpsInit.read_response fd timeout).
Proof.
  intro w. rewrite read_response_run. cbn [snd].
  rewrite read_response_loop_poll. cbn [snd].
  pose proof (within_poll_loop (poll_fuel fd (now w + timeout) w) fd
                (now w + timeout) 100 false read_response_stop [] w
                ltac:(lia)).
  lia.
Qed.

Lemma within_sniff_for_gps fd timeout :
  within (Z.max 0 (timeout + 500)) (UsbGpsMonitor.sniff_for_gps fd timeout).
Proof.
  intro w. rewrite sniff_for_gps_run.
  pose proof (within_poll_loop (poll_fuel fd (now w + timeout) w) fd
                (now w + timeout) 500 true sniff_stop [] w ltac:(lia)).
  lia.
Qed.

Lemma within_usb_send_command fd cmd timeout :
  within (Z.max 0 (timeout + 200)) (UsbGpsMonitor.send_command fd cmd timeout).
Proof.
  unfold UsbGpsMonitor.send_command.
  destruct (encode_ascii_strict (cmd ++ CRLF)) as [payload|].
  2:{ eapply within_weaken; [|apply within_raise]. lia. }
  apply within_after; [lia| |intros written].
  - apply within_try_except_instant; [|intros; apply within_ret].
    apply within_bind_instant; [apply within_os_write|intros; apply within_ret].
  - destruct (negb written).
    + eapply within_weaken; [|apply within_ret]. lia.
    + intro w. unfold bind, time_time. rewrite send_command_loop_poll.
      pose proof (within_poll_loop (poll_fuel fd (now w + timeout) w) fd
                    (now w + timeout) 200 true send_command_stop [] w
                    ltac:(lia)) as H.
      destruct (poll_loop _ _ _ _ _ _ _ _) as [[a|e|] w1];
        cbn [fst snd outcome_map ret] in *; lia.
Qed.

(** X17.  On the clock of the model, which only waiting moves,
    [send_commands] of [gps_init] is over, for every receiver, at most the
    timeout and two tenths of a second per command after it began: no
    command makes it wait without a bound. *)
Theorem send_commands_time :
  forall (fd : Z) (commands : list pystr) (timeout : Z) (w : world),
    now w <= now (snd (GpsInit.send_commands fd commands timeout w))
    <= now w + (Z.max 0 (timeout + 100) + 100) * Z.of_nat (length commands).
Proof.
  intros fd commands timeout w. unfold GpsInit.send_commands.
  apply within_for_each; [lia|]. intro cmd.
  apply within_after; [lia|apply within_os_write|intros _].
  apply within_bind; [lia|apply within_read_response|intros _].
  apply within_time_sleep. lia.
Qed.

(** ** The scan *)

Lemma within_initialize_receiver fd :
  within 8500 (UsbGpsMonitor.initialize_receiver fd).
Proof.
  unfold UsbGpsMonitor.initialize_receiver.
  apply within_after; [lia|apply within_tcflush|intros _].
  exact (within_for_each 1700 UsbGpsMonitor.INIT_COMMANDS _ ltac:(lia)
           (fun cmd => within_usb_send_command fd cmd 1500)).
Qed.

Lemma within_usb_open_serial port baud :
  within 0 (UsbGpsMonitor.open_serial port baud).
Proof.
  unfold UsbGpsMonitor.open_serial.
  destruct (lookup Z.eqb baud UsbGpsMonitor.BAUD_MAP) as [c|];
    [|apply within_ret].
  apply within_bind_instant; [|intros r].
  - apply within_try_except_instant; [|intros; apply within_ret].
    apply within_bind_instant; [apply within_os_open|intros; apply within_ret].
  - destruct r as [fd|]; [|apply within_ret].
    apply within_try_except_instant.
    + apply within_bind_instant; [|intros; apply within_ret].
      unfold UsbGpsMonitor.configure_port.
      apply within_bind_instant; [apply within_tcgetattr|intros _].
      apply within_bind_instant; [apply within_tcflush|intros _].
      apply within_tcsetattr.
    + intros _.
      apply within_bind_instant; [apply within_os_close|intros; apply within_ret].
Qed.

Lemma within_conclude fd matched sample :
  within 0 (conclude fd matched sample).
Proof.
  unfold conclude. destruct matched.
  - apply within_bind_instant; [|intros; apply within_ret].
    destruct (negb (is_empty sample)); [|apply within_ret]. cbv zeta.
    destruct (negb (is_empty (decode_ascii_replace sample)));
      [|apply within_ret].
    apply within_bind_instant; [apply within_print|intros _].
    apply within_bind_instant; [|intros _; apply within_print].
    match goal with
    | |- within _ (for_each ?xs ?body) =>
        apply (within_for_each 0 xs body ltac:(lia))
    end.
    intro line.
    destruct (negb (is_empty (strip line)));
      [apply within_print|apply within_ret].
  - apply within_bind_instant; [apply within_os_close|intros; apply within_ret].
Qed.

Lemma within_run d {A} (m : io A) w :
  within d m -> now w <= now (snd (m w)) <= now w + d.
Proof. intro H. apply H. Qed.

(** One candidate: a sniff of 1.5 s, the five commands, a sniff of 4 s,
    each with its last slice. *)
Lemma within_probe_candidate port baud :
  within 15000 (UsbGpsMonitor.probe_candidate port baud).
Proof.
  intro w. rewrite probe_candidate_run.
  pose proof (within_run 0 _ w (within_usb_open_serial port baud)) as H0.
  destruct (UsbGpsMonitor.open_serial port baud w) as [[[fd|]|e|] w0];
    cbn [snd] in *; try lia.
  pose proof (within_run _ _ w0 (within_sniff_for_gps fd 1500)) as H1.
  change (Z.max 0 (1500 + 500)) with 2000 in H1.
  destruct (UsbGpsMonitor.sniff_for_gps fd 1500 w0) as [[[[|] s]|e|] w1];
    cbn [snd] in *; try lia.
  { pose proof (within_run 0 _ w1 (within_conclude fd true s)). lia. }
  pose proof (within_run _ _ w1 (within_initialize_receiver fd)) as H2.
  destruct (UsbGpsMonitor.initialize_receiver fd w1) as [[[]|e|] w2];
    cbn [snd] in *; try lia.
  pose proof (within_run _ _ w2 (within_sniff_for_gps fd 4000)) as H3.
  change (Z.max 0 (4000 + 500)) with 4500 in H3.
  destruct (UsbGpsMonitor.sniff_for_gps fd 4000 w2) as [[[m2 s2]|e|] w3];
    cbn [snd] in *; try lia.
  pose proof (within_run 0 _ w3 (within_conclude fd m2 s2)). lia.
Qed.

Lemma within_detect_bauds port bauds :
  within (15000 * Z.of_nat (length bauds))
    (UsbGpsMonitor.detect_bauds port bauds).
Proof.
  induction bauds as [|baud bauds IH].
  - simpl. apply within_ret.
  - cbn [UsbGpsMonitor.detect_bauds length].
    replace (15000 * Z.of_nat (S (length bauds)))
      with (15000 + 15000 * Z.of_nat (length bauds)) by lia.
    apply within_bind; [lia|apply within_probe_candidate|intros r].
    destruct r as [fd|]; [|exact IH].
    eapply within_weaken; [|apply within_ret]. lia.
Qed.

Lemma within_detect_ports ports :
  within (90000 * Z.of_nat (length ports)) (UsbGpsMonitor.detect_ports ports).
Proof.
  induction ports as [|port ports IH].
  - simpl. apply within_ret.
  - cbn [UsbGpsMonitor.detect_ports length].
    replace (90000 * Z.of_nat (S (length ports)))
      with (90000 + 90000 * Z.of_nat (length ports)) by lia.
    apply within_bind; [lia| |intros r].
    + exact (within_detect_bauds port (map fst UsbGpsMonitor.BAUD_MAP)).
    + destruct r as [found|]; [|exact IH].
      eapply within_weaken; [|apply within_ret]. lia.
Qed.

(** X18.  On the clock of the model, which only waiting moves,
    [detect_gps] is over at most 90 seconds per candidate port after it
    began, whatever the devices do: 15 seconds for each of the six baud
    rates. *)
Theorem detect_gps_time :
  forall w : world,
    now w <= now (snd (UsbGpsMonitor.detect_gps w))
    <= now w + 90000 * Z.of_nat (length (ports_of w)).
Proof.
  intro w. unfold UsbGpsMonitor.detect_gps. rewrite bind_run.
  rewrite iter_candidate_ports_run.
  apply within_detect_ports.
Qed.

End Elapsed.

(* ================================================================== *)
(** * Deduplicating twice *)
(* ================================================================== *)

Module CommandSequenceFacts.
Import Py OS Vocabulary PyFacts CommandSequence GpsInit.

Lemma no_adjacent_dup_prefix {A} (l : list A) (x : A) :
  no_adjacent_dup (l ++ [x]) -> no_adjacent_dup l.
Proof.
  intros H l1 a b l2 E. apply (H l1 a b (l2 ++ [x])).
  rewrite E, <- app_assoc. reflexivity.
Qed.

(** The deduplication loop leaves a list without equal neighbours as it
    is. *)
Lemma dedup_fixed (l : list pystr) :
  no_adjacent_dup l -> fold_left dedup_step l [] = l.
Proof.
  induction l as [|x l IH] using rev_ind; intro H; [reflexivity|].
  rewrite fold_left_app. simpl.
  rewrite (IH (no_adjacent_dup_prefix l x H)). unfold dedup_step.
  destruct (rev l) as [|y r] eqn:Er.
  - apply (f_equal (@rev _)) in Er. rewrite rev_involutive in Er.
    simpl in Er. subst l. reflexivity.
  - apply (f_equal (@rev _)) in Er. rewrite rev_involutive in Er.
    simpl in Er. subst l. rewrite last_last.
    assert (Hyx : y <> x).
    { apply (H (rev r) y x []). rewrite <- app_assoc. reflexivity. }
    apply str_eqb_neq in Hyx. rewrite Hyx. simpl negb.
    rewrite orb_true_r. reflexivity.
Qed.

Lemma load_extra_only read_text (extra : list pystr) :
  load_command_sequence read_text [] extra = fold_left dedup_step extra [].
Proof. reflexivity. Qed.

(** X19.  What [load_command_sequence] returns goes through
    [load_command_sequence] unchanged: loading its result again, as extra
    commands and with no file, gives the same result. *)
Theorem load_command_sequence_idempotent :
  forall (read_text : pystr -> option pystr) (paths extra : list pystr),
    load_command_sequence read_text []
      (load_command_sequence read_text paths extra)
    = load_command_sequence read_text paths extra.
Proof.
  intros read_text paths extra. rewrite load_extra_only.
  apply dedup_fixed.
  assert (E : load_command_sequence read_text paths extra
              = fold_left dedup_step
                  (concat (map (parse_command_file read_text) paths)
                     ++ extra) []).
  { unfold load_command_sequence. rewrite concat_files. reflexivity. }
  destruct (dedup_runs (concat (map (parse_command_file read_text) paths)
                          ++ extra)) as (runs & _ & H2 & H3).
  rewrite E, H2. exact H3.
Qed.

End CommandSequenceFacts.

(* ================================================================== *)
(** * The descriptor table when [main] returns *)
(* ================================================================== *)

Module Returning.
Import Py OS Vocabulary PyFacts IOFacts Scenarios TableFacts Termination
  Probe Discovery Descriptors Opening Releasing.
Local Open Scope io_scope.

Lemma steady_stream_output_loop fd tab fuel nmea_only :
  steady fd tab (GpsRun.stream_output_loop fuel fd nmea_only).
Proof.
  induction fuel as [|fuel IH]; simpl; [apply steady_diverge|].
  apply steady_bind; [apply steady_select|intros ready].
  destruct (negb ready); [exact IH|].
  apply steady_bind; [apply steady_os_read|intros data].
  destruct (is_empty data); [exact IH|].
  apply steady_bind; [|intros _; exact IH].
  apply steady_for_each. intro line. unfold GpsRun.emit_line.
  destruct (is_empty line); [apply steady_ret|]. cbv zeta.
  match goal with |- context [if ?b then _ else _] => destruct b end;
    [apply steady_ret|apply steady_print].
Qed.

Lemma steady_stream_sentences_loop fd tab fuel :
  steady fd tab (UsbGpsMonitor.stream_sentences_loop fuel fd).
Proof.
  induction fuel as [|fuel IH]; simpl; [apply steady_diverge|].
  apply steady_bind; [apply steady_select|intros ready].
  destruct (negb ready); [exact IH|].
  apply steady_bind; [apply steady_os_read|intros data].
  destruct (is_empty data); [exact IH|].
  apply steady_bind; [|intros _; exact IH].
  apply steady_for_each. intro line.
  destruct (is_empty line); [apply steady_ret|apply steady_print].
Qed.

(** A [try] whose [finally] closes the newest descriptor, when it is not
    cut short: the table below the descriptor is what is left. *)
Lemma try_finally_closes {A} fd tab (m : io A) w :
  steady fd tab m -> on_top fd tab w ->
  fst (try_finally m (os_close fd) w) <> Diverge ->
  fdtab (snd (try_finally m (os_close fd) w)) = tab.
Proof.
  intros Hs Hw. unfold try_finally.
  pose proof (steady_run fd tab m w Hs Hw) as H1.
  destruct (m w) as [[a|e|] w1]; cbn [fst snd] in *; try congruence;
    destruct (os_close_top fd tab w1 H1) as (w2 & -> & Hf2); auto.
Qed.

Lemma stream_output_table fd tab fuel nmea_only w :
  on_top fd tab w ->
  fst (GpsRun.stream_output fuel fd nmea_only w) <> Diverge ->
  fdtab (snd (GpsRun.stream_output fuel fd nmea_only w)) = tab.
Proof.
  intros Hw. unfold GpsRun.stream_output. apply try_finally_closes; [|exact Hw].
  apply steady_try_except; [apply steady_stream_output_loop|].
  intros e. apply steady_ret.
Qed.

(** X20.  When [main] of [gps_run] returns, with 1 because the port could
    not be opened or with 0 after the stream was interrupted, the
    descriptor table is as it was: a descriptor stays open only when
    [main] is left by an exception. *)
Theorem gps_run_main_returns_clean :
  forall (fuel : nat) (a : GpsRun.args) (w : world) (code : Z) (w' : world),
    GpsRun.main fuel a w = (Ret code, w') ->
    fdtab w' = fdtab w /\ (code = 0 \/ code = 1).
Proof.
  intros fuel a w code w'. unfold GpsRun.main.
  rewrite bind_run. unfold try_except. rewrite bind_run.
  pose proof (gps_init_open_serial_top (GpsRun.port a) (GpsRun.baud a) w)
    as Ho.
  destruct (GpsInit.open_serial (GpsRun.port a) (GpsRun.baud a) w)
    as [[fd|e|] w0]; [|destruct Ho as [Hf He]|contradiction].
  - destruct Ho as (_ & dev & c & _ & _ & Hf). cbn [ret].
    assert (H0 : on_top fd (fdtab w) w0) by (eexists; exact Hf).
    rewrite bind_run.
    match goal with
    | |- context [(if negb (GpsRun.no_init a) then ?m1 else ?m2) w0] =>
        assert (Hs : steady fd (fdtab w)
                       (if negb (GpsRun.no_init a) then m1 else m2))
    end.
    { destruct (negb (GpsRun.no_init a)); [|apply steady_ret].
      apply steady_bind; [apply steady_send_commands|intros _].
      apply steady_tcflush. }
    match goal with
    | |- context [(if negb (GpsRun.no_init a) then ?m1 else ?m2) w0] =>
        pose proof (steady_run fd (fdtab w) _ w0 Hs H0) as H1;
        destruct ((if negb (GpsRun.no_init a) then m1 else m2) w0)
          as [[[]|e|] w1]
    end; cbn [snd] in H1; try discriminate.
    rewrite bind_run.
    pose proof (stream_output_table fd (fdtab w) fuel (GpsRun.nmea_only a)
                  w1 H1) as Ht.
    destruct (GpsRun.stream_output fuel fd (GpsRun.nmea_only a) w1)
      as [[[]|e|] w2]; cbn [fst snd] in *; try discriminate.
    intro E. injection E as <- <-. split; [|now left].
    apply Ht. discriminate.
  - destruct He as [->|[->| ->]]; cbn; try discriminate;
      intro E; injection E as <- <-; split; auto.
Qed.

(** A receiver that talks at 115200 baud, and a user who interrupts after
    twenty seconds, when the receiver has been set up and the tool is
    streaming. *)
Definition interrupted_stream : world :=
  {| now := 0; devices := [(usb1, talking)]; fdtab := []; next_fd := 3;
     trace := []; stdout := []; interrupt_at := Some 20000 |}.

Lemma gps_run_main_returns_clean_witness :
  fst (GpsRun.main 40 run_args interrupted_stream) = Ret 0
  /\ now (snd (GpsRun.main 40 run_args interrupted_stream)) = 20000
  /\ opened_fds (trace (snd (GpsRun.main 40 run_args interrupted_stream)))
     = [3]
  /\ times_closed 3 (trace (snd (GpsRun.main 40 run_args interrupted_stream)))
     = 1%nat
  /\ fdtab (snd (GpsRun.main 40 run_args interrupted_stream))
     = fdtab interrupted_stream
  /\ ((0 = 0) \/ (0 = 1)).
Proof.
  assert (E : GpsRun.main 40 run_args interrupted_stream
              = (Ret 0, snd (GpsRun.main 40 run_args interrupted_stream)))
    by (vm_compute; reflexivity).
  split; [vm_compute; reflexivity|].
  split; [vm_compute; reflexivity|].
  split; [vm_compute; reflexivity|].
  split; [vm_compute; reflexivity|].
  exact (gps_run_main_returns_clean 40 run_args interrupted_stream 0 _ E).
Defined.

(** X21.  When [main] of [usb_gps_monitor] returns, with 1 because no
    receiver was found or with 0 after the stream was interrupted, the
    descriptor table is as it was. *)
Theorem usb_main_returns_clean :
  forall (fuel : nat) (w : world) (code : Z) (w' : world),
    UsbGpsMonitor.main fuel w = (Ret code, w') ->
    fdtab w' = fdtab w /\ (code = 0 \/ code = 1).
Proof.
  intros fuel w code w'. unfold UsbGpsMonitor.main.
  rewrite bind_run. unfold print at 1. rewrite bind_run.
  unfold UsbGpsMonitor.detect_gps. rewrite bind_run.
  rewrite iter_candidate_ports_run.
  match goal with
  | |- context [UsbGpsMonitor.detect_ports ?ps ?w0] =>
      pose proof (detect_ports_table ps w0) as Hd;
      destruct (UsbGpsMonitor.detect_ports ps w0)
        as [[[[[port baud] fd]|]|e|] w1]
  end; try discriminate; unfold table_after in Hd; cbn [fdtab put_line] in Hd.
  - rewrite bind_run.
    pose proof (steady_run fd (fdtab w) _ w1
                  (steady_initialize_receiver fd (fdtab w)) Hd) as H2.
    destruct (UsbGpsMonitor.initialize_receiver fd w1) as [[[]|e|] w2];
      cbn [snd] in H2; try discriminate.
    rewrite bind_run. unfold print at 1. rewrite bind_run.
    unfold UsbGpsMonitor.stream_sentences. rewrite bind_run.
    match goal with
    | |- context [UsbGpsMonitor.make_blocking fd ?w3] =>
        assert (H3 : on_top fd (fdtab w) w3) by exact H2;
        pose proof (steady_run fd (fdtab w) _ w3
                      (steady_fcntl fd (fdtab w)) H3) as H4;
        unfold UsbGpsMonitor.make_blocking;
        destruct (fcntl_clear_nonblock fd w3) as [[[]|e|] w4]
    end; cbn [snd] in H4; try discriminate.
    match goal with
    | |- context [try_finally ?m (os_close fd) w4] =>
        pose proof (try_finally_closes fd (fdtab w) m w4) as Ht;
        destruct (try_finally m (os_close fd) w4) as [[[]|e|] w5]
    end; cbn [fst snd] in *; try discriminate.
    intro E. injection E as <- <-. split; [|now left].
    apply Ht; [|exact H4|discriminate].
    apply steady_try_except; [|intros; apply steady_ret].
    apply steady_stream_sentences_loop.
  - rewrite bind_run. unfold print at 1.
    intro E. injection E as <- <-. split; [exact Hd|now right].
Qed.

Lemma usb_main_returns_clean_witness :
  fst (UsbGpsMonitor.main 40 interrupted_stream) = Ret 0
  /\ now (snd (UsbGpsMonitor.main 40 interrupted_stream)) = 20000
  /\ opened_fds (trace (snd (UsbGpsMonitor.main 40 interrupted_stream))) = [3]
  /\ times_closed 3 (trace (snd (UsbGpsMonitor.main 40 interrupted_stream)))
     = 1%nat
  /\ fdtab (snd (UsbGpsMonitor.main 40 interrupted_stream))
     = fdtab interrupted_stream
  /\ ((0 = 0) \/ (0 = 1)).
Proof.
  assert (E : UsbGpsMonitor.main 40 interrupted_stream
              = (Ret 0, snd (UsbGpsMonitor.main 40 interrupted_stream)))
    by (vm_compute; reflexivity).
  split; [vm_compute; reflexivity|].
  split; [vm_compute; reflexivity|].
  split; [vm_compute; reflexivity|].
  split; [vm_compute; reflexivity|].
  exact (usb_main_returns_clean 40 interrupted_stream 0 _ E).
Defined.

(** X22.  With [--no-init], [main] of [gps_run] writes nothing to the
    receiver, however it ends. *)
Theorem gps_run_no_init_writes_nothing :
  forall (fuel : nat) (a : GpsRun.args) (w : world),
    GpsRun.no_init a = true ->
    filter is_write (trace (snd (GpsRun.main fuel a w)))
    = filter is_write (trace w).
Proof.
  intros fuel a w Hn.
  assert (Hq : quiet is_write (GpsRun.main fuel a)).
  { unfold GpsRun.main. rewrite Hn. cbn [negb].
    apply quiet_bind.
    - apply quiet_try_except; [|intros; apply quiet_ret].
      apply quiet_bind; [|intros; apply quiet_ret].
      unfold GpsInit.open_serial.
      apply quiet_bind; [apply quiet_os_open; reflexivity|intros fd].
      apply quiet_bind; [|intros; apply quiet_ret].
      apply quiet_try_except.
      + unfold GpsInit.configure_port.
        destruct (lookup Z.eqb (GpsRun.baud a) GpsInit.baud_map);
          [|apply quiet_raise].
        apply quiet_bind; [apply quiet_tcgetattr|intros _].
        apply quiet_bind; [apply quiet_tcsetattr|intros _].
        apply quiet_bind; [apply quiet_tcflush; reflexivity|intros _].
        apply quiet_fcntl.
      + intros e. apply quiet_bind;
          [apply quiet_os_close; reflexivity|intros; apply quiet_raise].
    - intros [fd|c]; [|apply quiet_ret].
      apply quiet_bind; [apply quiet_ret|intros _].
      apply quiet_bind; [|intros; apply quiet_ret].
      unfold GpsRun.stream_output.
      apply quiet_try_finally; [|apply quiet_os_close; reflexivity].
      apply quiet_try_except; [|intros; apply quiet_ret].
      induction fuel as [|fuel IH]; simpl; [apply quiet_diverge|].
      apply quiet_bind; [apply quiet_select|intros ready].
      destruct (negb ready); [exact IH|].
      apply quiet_bind; [apply quiet_os_read|intros data].
      destruct (is_empty data); [exact IH|].
      apply quiet_bind; [|intros _; exact IH].
      apply quiet_for_each. intro line. unfold GpsRun.emit_line.
      destruct (is_empty line); [apply quiet_ret|]. cbv zeta.
      match goal with |- context [if ?b then _ else _] => destruct b end;
        [apply quiet_ret|apply quiet_print]. }
  exact (Hq w).
Qed.

Definition no_init_args : GpsRun.args :=
  {| GpsRun.port := GpsRun.DEFAULT_PORT; GpsRun.baud := GpsRun.DEFAULT_BAUD;
     GpsRun.timeout := GpsRun.DEFAULT_TIMEOUT; GpsRun.nmea_only := false;
     GpsRun.extra_commands := [str "LOG A"]; GpsRun.no_init := true |}.

Lemma gps_run_no_init_writes_nothing_witness :
  filter is_write
    (trace (snd (GpsRun.main 3 no_init_args (boot [(usb1, talking)]))))
  = filter is_write (trace (boot [(usb1, talking)])).
Proof.
  exact (gps_run_no_init_writes_nothing 3 no_init_args
           (boot [(usb1, talking)]) eq_refl).
Defined.

End Returning.
